(** * etcdctl make-mirror: a shallow embedding of
      etcdctl/ctlv3/command/make_mirror_command.go

    The command copies a key space from a source cluster to a destination
    cluster: an optional base synchronisation (one Put per key), followed by
    a watch loop that groups the events of each watch response into
    transactions.

    The Go code reads and writes package-level variables, talks to two
    clients and may leave through [return], [cobrautl.ExitWithError] or
    [panic].  It is embedded here as a state-and-exit monad over
    - the package variables the run depends on ([Globals]),
    - the progress counter [total],
    - the trace of the effects the run has performed, in program order;
    what the two clusters and the terminal deliver to a run is gathered in a
    [World]. *)

From Stdlib Require Import ZArith List String Ascii Bool Lia.
Import ListNotations.

Local Open Scope Z_scope.

(* ------------------------------------------------------------------ *)
(** ** Machine integers *)

(** Go's [int64] (and [int] on the 64-bit targets etcd supports):
    two's complement wrap-around of a mathematical integer. *)
Definition int64_wrap (z : Z) : Z := (z + 2 ^ 63) mod 2 ^ 64 - 2 ^ 63.

Definition max_int64 : Z := 2 ^ 63 - 1.
Definition max_uint64 : Z := 2 ^ 64 - 1.

(** The values of an [int64] variable. *)
Definition is_int64 (z : Z) : Prop := - 2 ^ 63 <= z <= max_int64.

(** The conversion [int(x)] of a [uint] value. *)
Definition int_of_uint (x : Z) : Z := int64_wrap x.

(** [len(s)] of a slice, as an [int]. *)
Definition len {A : Type} (l : list A) : Z := Z.of_nat (List.length l).

(* ------------------------------------------------------------------ *)
(** ** Strings *)

(** [len(s)] of a string. *)
Definition str_len (s : string) : Z := Z.of_nat (String.length s).

Fixpoint string_drop (n : nat) (s : string) : string :=
  match n, s with
  | O, _ => s
  | S n', String _ s' => string_drop n' s'
  | S _, EmptyString => EmptyString
  end.

(** [strings.Replace(s, old, new, 1)]: the first occurrence of [old] in [s]
    is replaced by [new]; an empty [old] matches at the beginning of [s];
    without an occurrence [s] is returned as it is. *)
Fixpoint strings_Replace1 (s old new : string) : string :=
  if String.prefix old s
  then String.append new (string_drop (String.length old) s)
  else match s with
       | EmptyString => EmptyString
       | String c s' => String c (strings_Replace1 s' old new)
       end.

(** [strings.SplitN(s, ":", 2)]: [None] when the result has fewer than two
    parts (no colon in [s]), otherwise the text before and after the first
    colon. *)
Fixpoint splitColon2 (s : string) : option (string * string) :=
  match s with
  | EmptyString => None
  | String c s' =>
      if Ascii.eqb c ":"%char then Some (EmptyString, s')
      else match splitColon2 s' with
           | Some (a, b) => Some (String c a, b)
           | None => None
           end
  end.

(* ------------------------------------------------------------------ *)
(** ** Data of the etcd API that the command touches *)

(** [mvccpb.Event_EventType] is an [int32] enumeration. *)
Definition EventType := Z.
Definition PUT : EventType := 0.
Definition DELETE : EventType := 1.

Record KeyValue := mkKeyValue {
  Key : string;
  Value : string;
  ModRevision : Z
}.

Record Event := mkEvent {
  Type_ : EventType;
  Kv : KeyValue
}.

Record WatchResponse := mkWatchResponse {
  CompactRevision : Z;
  Events : list Event
}.

(** [clientv3.GetResponse], of which only [Kvs] is read. *)
Record GetResponse := mkGetResponse {
  Kvs : list KeyValue
}.

(** [clientv3.Op], as built by [clientv3.OpPut] and [clientv3.OpDelete]. *)
Inductive Op :=
| OpPut (key val : string)
| OpDelete (key : string).

Inductive Error :=
| ErrCompacted                      (* rpctypes.ErrCompacted *)
| ErrNew (msg : string)             (* errors.New(msg) *)
| ErrExternal (id : nat).           (* an error produced by a client or the terminal *)

(** The two [cobrautl] exit codes the command uses. *)
Inductive ExitCode := ExitError | ExitBadArgs.

Record AuthConfig := mkAuthConfig {
  Username : string;
  Password : string
}.

(* ------------------------------------------------------------------ *)
(** ** Package variables, effects, state *)

(** The [mm...] package variables read by the modelled functions.  The TLS
    variables ([mmcert], [mmkey], [mmcacert], [mminsecureTr]) only travel
    into the opaque client configuration and are left out. *)
Record Globals := mkGlobals {
  mmprefix : string;
  mmdestprefix : string;
  mmuser : string;
  mmpassword : string;
  mmnodestprefix : bool;
  mmrev : Z;              (* int64 *)
  mmmaxTxnOps : Z         (* uint  *)
}.

Definition defaultMaxTxnOps : Z := 128.

(** What the run does to the outside, in program order. *)
Inductive Effect :=
| EvAsk (prompt : string)                          (* speakeasy.Ask *)
| EvMustClient (endpoint : string) (auth : option AuthConfig)
                                                   (* dc := mustClient(cc) *)
| EvMustClientFromCmd                              (* c := mustClientFromCmd(cmd) *)
| EvNewSyncer (prefix : string) (rev : Z)          (* mirror.NewSyncer(c, prefix, rev) *)
| EvSyncBase                                       (* s.SyncBase(ctx) *)
| EvSyncUpdates                                    (* s.SyncUpdates(ctx) *)
| EvPut (key val : string) (res : option Error)    (* dc.Put(ctx, key, val) *)
| EvTxn (ops : list Op) (res : option Error)       (* dc.Txn(ctx).Then(ops...).Commit() *)
| EvAppend (op : Op)                               (* ops = append(ops, op) *)
| EvAddTotal (new : Z).                            (* atomic.AddInt64(&total, 1) *)

Record State := mkState {
  vars : Globals;
  total : Z;
  trace : list Effect
}.

(** What the outside delivers to one run. *)
Record World := mkWorld {
  askPassword : string + Error;          (* answer of speakeasy.Ask *)
  baseChunks : list GetResponse;         (* responses received on rc *)
  baseErr : option Error;                (* value received on errc *)
  watchResponses : list WatchResponse;   (* responses received on wc until it closes *)
  dstReply : nat -> option Error         (* error of the n-th request to dc, counted from 0 *)
}.

(** How a function is left other than by falling through. *)
Inductive Signal :=
| Return (err : option Error)                  (* return err *)
| Exit (code : ExitCode) (err : option Error)  (* cobrautl.ExitWithError(code, err) *)
| Panic (msg : string).                        (* panic(msg) *)

Inductive Step (A : Type) :=
| Next (a : A)
| Halt (s : Signal).
Arguments Next {A} a.
Arguments Halt {A} s.

Definition M (A : Type) : Type := State -> Step A * State.

Definition ret {A} (a : A) : M A := fun st => (Next a, st).

Definition bind {A B} (c : M A) (k : A -> M B) : M B :=
  fun st =>
    match c st with
    | (Next a, st') => k a st'
    | (Halt s, st') => (Halt s, st')
    end.

Declare Scope mirror_scope.
Delimit Scope mirror_scope with mirror.
Notation "x <- c ;; k" := (bind c (fun x => k))
  (at level 61, c at next level, right associativity) : mirror_scope.
Notation "c ;; k" := (bind c (fun _ => k))
  (at level 61, right associativity) : mirror_scope.
Local Open Scope mirror_scope.

Definition halt {A} (s : Signal) : M A := fun st => (Halt s, st).

Definition getVars : M Globals := fun st => (Next (vars st), st).

Definition emit (e : Effect) : M unit :=
  fun st => (Next tt, mkState (vars st) (total st) (trace st ++ [e])).

Definition exitWithError {A} (code : ExitCode) (err : option Error) : M A :=
  halt (Exit code err).

Definition panic {A} (msg : string) : M A := halt (Panic msg).

(** [mmdestprefix = p] *)
Definition setDestPrefix (p : string) : M unit :=
  fun st =>
    let g := vars st in
    (Next tt,
     mkState (mkGlobals (mmprefix g) p (mmuser g) (mmpassword g)
                        (mmnodestprefix g) (mmrev g) (mmmaxTxnOps g))
             (total st) (trace st)).

(** [atomic.AddInt64(&total, 1)] *)
Definition addTotal : M unit :=
  fun st =>
    let n := int64_wrap (total st + 1) in
    (Next tt, mkState (vars st) n (trace st ++ [EvAddTotal n])).

(** [for _, x := range l { body x }] *)
Fixpoint forEach {A} (l : list A) (body : A -> M unit) : M unit :=
  match l with
  | [] => ret tt
  | x :: l' => body x ;; forEach l' body
  end.

(** A loop that carries local variables of type [S] from one iteration to
    the next. *)
Fixpoint foldEach {A S} (l : list A) (body : S -> A -> M S) (s : S) : M S :=
  match l with
  | [] => ret s
  | x :: l' => s' <- body s x ;; foldEach l' body s'
  end.

(** A call of a function whose body is [c] and whose result is an [error]:
    a [return] of the body ends the call, falling off the end is the final
    [return nil]; exits and panics pass through the caller. *)
Definition call (c : M unit) : M (option Error) :=
  fun st =>
    match c st with
    | (Next _, st') => (Next None, st')
    | (Halt (Return e), st') => (Next e, st')
    | (Halt s, st') => (Halt s, st')
    end.

(* ------------------------------------------------------------------ *)
(** ** The command *)

(** Requests sent to the destination client so far. *)
Fixpoint dstCalls (tr : list Effect) : nat :=
  match tr with
  | [] => O
  | EvPut _ _ _ :: tr' => S (dstCalls tr')
  | EvTxn _ _ :: tr' => S (dstCalls tr')
  | _ :: tr' => dstCalls tr'
  end.

Definition modifyPrefix (g : Globals) (key : string) : string :=
  strings_Replace1 key (mmprefix g) (mmdestprefix g).

Section Run.

Variable w : World.

(** [_, err := dc.Put(ctx, key, val); if err != nil { return err }] *)
Definition dcPut (key val : string) : M unit :=
  fun st =>
    let r := dstReply w (dstCalls (trace st)) in
    let st' := mkState (vars st) (total st) (trace st ++ [EvPut key val r]) in
    match r with
    | None => (Next tt, st')
    | Some e => (Halt (Return (Some e)), st')
    end.

(** [_, err := dc.Txn(ctx).Then(ops...).Commit(); if err != nil { return err }] *)
Definition commit (ops : list Op) : M unit :=
  fun st =>
    let r := dstReply w (dstCalls (trace st)) in
    let st' := mkState (vars st) (total st) (trace st ++ [EvTxn ops r]) in
    match r with
    | None => (Next tt, st')
    | Some e => (Halt (Return (Some e)), st')
    end.

Definition authDestCfg : M (option AuthConfig) :=
  g <- getVars ;;
  if String.eqb (mmuser g) EmptyString then ret None
  else if String.eqb (mmpassword g) EmptyString then
    match splitColon2 (mmuser g) with
    | None =>
        emit (EvAsk "Destination Password: ") ;;
        match askPassword w with
        | inr err => exitWithError ExitError (Some err)
        | inl pw => ret (Some (mkAuthConfig (mmuser g) pw))
        end
    | Some (u, p) => ret (Some (mkAuthConfig u p))
    end
  else ret (Some (mkAuthConfig (mmuser g) (mmpassword g))).

(** The body of [for _, kv := range r.Kvs]. *)
Definition putKv (kv : KeyValue) : M unit :=
  g <- getVars ;;
  dcPut (modifyPrefix g (Key kv)) (Value kv) ;;
  addTotal.

(** The body of [for _, ev := range wr.Events]; the pair is
    [(lastRev, ops)]. *)
Definition eventStep (ls : Z * list Op) (ev : Event) : M (Z * list Op) :=
  let '(lastRev, ops) := ls in
  let nextRev := ModRevision (Kv ev) in
  ops <- (if negb (lastRev =? 0) && (nextRev >? lastRev)
          then commit ops ;; ret []
          else ret ops) ;;
  let lastRev := nextRev in
  g <- getVars ;;
  ops <- (if len ops =? int_of_uint (mmmaxTxnOps g)
          then commit ops ;; ret []
          else ret ops) ;;
  if Type_ ev =? PUT then
    let op := OpPut (modifyPrefix g (Key (Kv ev))) (Value (Kv ev)) in
    emit (EvAppend op) ;; addTotal ;; ret (lastRev, ops ++ [op])
  else if Type_ ev =? DELETE then
    let op := OpDelete (modifyPrefix g (Key (Kv ev))) in
    emit (EvAppend op) ;; addTotal ;; ret (lastRev, ops ++ [op])
  else panic "unexpected event type".

Definition eventsLoop (evs : list Event) (ls : Z * list Op) : M (Z * list Op) :=
  foldEach evs eventStep ls.

(** The body of [for wr := range wc]. *)
Definition watchBody (wr : WatchResponse) : M unit :=
  if negb (CompactRevision wr =? 0) then halt (Return (Some ErrCompacted))
  else
    ls <- eventsLoop (Events wr) (0, []) ;;
    if negb (len (snd ls) =? 0) then commit (snd ls) else ret tt.

Definition watchLoop (wrs : list WatchResponse) : M unit :=
  forEach wrs watchBody.

Definition snapshotLoop (chunks : list GetResponse) : M unit :=
  forEach chunks (fun r => forEach (Kvs r) putKv).

Definition startRevOf (g : Globals) : Z :=
  let startRev := int64_wrap (mmrev g - 1) in
  if startRev <? 0 then 0 else startRev.

(** The statements of [makeMirror].  The goroutine that prints [total]
    every 30 seconds only reads the counter and is not part of the trace. *)
Definition makeMirrorBody : M unit :=
  g <- getVars ;;
  (if mmnodestprefix g && (str_len (mmdestprefix g) >? 0)
   then exitWithError ExitBadArgs
          (Some (ErrNew "`--dest-prefix` and `--no-dest-prefix` cannot be set at the same time, choose one"))
   else ret tt) ;;
  let startRev := startRevOf g in
  emit (EvNewSyncer (mmprefix g) startRev) ;;
  (if startRev =? 0 then
     emit EvSyncBase ;;
     (if negb (mmnodestprefix g) && (str_len (mmdestprefix g) =? 0)
      then setDestPrefix (mmprefix g)
      else ret tt) ;;
     snapshotLoop (baseChunks w) ;;
     match baseErr w with
     | Some err => halt (Return (Some err))
     | None => ret tt
     end
   else ret tt) ;;
  emit EvSyncUpdates ;;
  watchLoop (watchResponses w).

(** [makeMirror(ctx, c, dc)]; [total := int64(0)] is its first statement. *)
Definition makeMirror : M (option Error) :=
  fun st => call makeMirrorBody (mkState (vars st) 0 (trace st)).

(** [makeMirrorCommandFunc(cmd, args)].  The time-outs and message sizes
    read from [cmd] only travel into the client configuration; creating the
    two clients is recorded as an effect each, [mustClient] and
    [mustClientFromCmd] being defined elsewhere. *)
Definition makeMirrorCommandFunc (args : list string) : M unit :=
  (if negb (len args =? 1)
   then exitWithError ExitBadArgs
          (Some (ErrNew "make-mirror takes one destination argument"))
   else ret tt) ;;
  auth <- authDestCfg ;;
  emit (EvMustClient (nth 0 args EmptyString) auth) ;;
  emit EvMustClientFromCmd ;;
  err <- makeMirror ;;
  exitWithError ExitError err.

End Run.

Definition initState (g : Globals) : State := mkState g 0 [].

(** One run of the command, from the parsed flags [g] and the positional
    arguments [args]. *)
Definition runCommand (w : World) (g : Globals) (args : list string)
  : Step unit * State :=
  makeMirrorCommandFunc w args (initState g).

(** One call of [makeMirror] with the package variables [g]. *)
Definition runMirror (w : World) (g : Globals) : Step (option Error) * State :=
  makeMirror w (initState g).

(* ------------------------------------------------------------------ *)
(** ** Observations on traces *)

(** The operation lists of the transactions that were sent, and of those
    that the destination accepted. *)
Fixpoint txnsOf (tr : list Effect) : list (list Op) :=
  match tr with
  | [] => []
  | EvTxn ops _ :: tr' => ops :: txnsOf tr'
  | _ :: tr' => txnsOf tr'
  end.

Fixpoint committedOf (tr : list Effect) : list (list Op) :=
  match tr with
  | [] => []
  | EvTxn ops None :: tr' => ops :: committedOf tr'
  | _ :: tr' => committedOf tr'
  end.

(** The single-key writes that were sent. *)
Fixpoint putsOf (tr : list Effect) : list (string * string) :=
  match tr with
  | [] => []
  | EvPut k v _ :: tr' => (k, v) :: putsOf tr'
  | _ :: tr' => putsOf tr'
  end.

(** Effects that reach one of the two clusters through a syncer or through
    the destination client. *)
Definition isClusterOp (e : Effect) : bool :=
  match e with
  | EvNewSyncer _ _ | EvSyncBase | EvSyncUpdates | EvPut _ _ _ | EvTxn _ _ => true
  | _ => false
  end.

(** Effects of the base synchronisation. *)
Definition isSnapshotOp (e : Effect) : bool :=
  match e with
  | EvSyncBase | EvPut _ _ _ => true
  | _ => false
  end.

Definition isOkPut (e : Effect) : bool :=
  match e with EvPut _ _ None => true | _ => false end.

Definition isAppend (e : Effect) : bool :=
  match e with EvAppend _ => true | _ => false end.

Definition isAdd (e : Effect) : bool :=
  match e with EvAddTotal _ => true | _ => false end.

Definition countIf (f : Effect -> bool) (tr : list Effect) : Z :=
  len (filter f tr).

(** The value a reader of [total] sees once the effects [tr] have happened:
    the result of the last [atomic.AddInt64], or the initial 0. *)
Definition counterAt (tr : list Effect) : Z :=
  fold_left (fun c e => match e with EvAddTotal n => n | _ => c end) tr 0.

(** [tr] ends between an operation and the increment that follows it. *)
Definition midStep (tr : list Effect) : bool :=
  match rev tr with
  | e :: _ => isOkPut e || isAppend e
  | [] => false
  end.

(** The operation [makeMirror] builds for an event of kind PUT or DELETE. *)
Definition opOf (g : Globals) (ev : Event) : Op :=
  if Type_ ev =? PUT
  then OpPut (modifyPrefix g (Key (Kv ev))) (Value (Kv ev))
  else OpDelete (modifyPrefix g (Key (Kv ev))).

Definition validKind (ev : Event) : bool :=
  (Type_ ev =? PUT) || (Type_ ev =? DELETE).

Definition revOf (ev : Event) : Z := ModRevision (Kv ev).

Definition withWatch (w : World) (wrs : list WatchResponse) : World :=
  mkWorld (askPassword w) (baseChunks w) (baseErr w) wrs (dstReply w).

Definition conflictMsg : string :=
  "`--dest-prefix` and `--no-dest-prefix` cannot be set at the same time, choose one".

(* ------------------------------------------------------------------ *)
(** ** A program logic for [M] *)

(** [triple P c Q E]: started in a state satisfying [P], the computation
    [c] either goes on with a value and a state satisfying [Q], or halts
    with a signal and a state satisfying [E].  [M] is total, so this is a
    total-correctness statement. *)
Definition triple {A} (P : State -> Prop) (c : M A)
           (Q : A -> State -> Prop) (E : Signal -> State -> Prop) : Prop :=
  forall st, P st ->
    match c st with
    | (Next a, st') => Q a st'
    | (Halt s, st') => E s st'
    end.


(** [invariant I E c]: [c] maintains [I] however it ends, and every signal
    it halts with satisfies [E]. *)
Definition invariant {A} (I : State -> Prop) (E : Signal -> Prop) (c : M A) : Prop :=
  triple I c (fun _ st => I st) (fun s st => I st /\ E s).

(** Effects outside the destination traffic and the counter. *)
Definition isSetup (e : Effect) : bool :=
  match e with
  | EvAsk _ | EvMustClient _ _ | EvMustClientFromCmd
  | EvNewSyncer _ _ | EvSyncBase | EvSyncUpdates => true
  | _ => false
  end.

(** The errors and the panic the command can end with. *)
Definition fatal (s : Signal) : Prop :=
  match s with
  | Return (Some _) => True
  | Exit _ (Some _) => True
  | Panic msg => msg = "unexpected event type"%string
  | _ => False
  end.

(** The trace extends [t0] by effects that all satisfy [F]. *)
Definition extends (t0 : list Effect) (F : Effect -> Prop) (st : State) : Prop :=
  exists seg, trace st = t0 ++ seg /\ Forall F seg.

(** The two prefix flags are not set together (the first test of
    [makeMirror] fails). *)
Definition flagsCompatible (g : Globals) : Prop :=
  mmnodestprefix g && (str_len (mmdestprefix g) >? 0) = false.

(** The statements of [makeMirror] before the watch loop. *)
Definition beforeWatch (w : World) : M unit :=
  (g <- getVars ;;
   (if mmnodestprefix g && (str_len (mmdestprefix g) >? 0)
    then exitWithError ExitBadArgs
           (Some (ErrNew "`--dest-prefix` and `--no-dest-prefix` cannot be set at the same time, choose one"))
    else ret tt) ;;
   let startRev := startRevOf g in
   emit (EvNewSyncer (mmprefix g) startRev) ;;
   (if startRev =? 0 then
      emit EvSyncBase ;;
      (if negb (mmnodestprefix g) && (str_len (mmdestprefix g) =? 0)
       then setDestPrefix (mmprefix g)
       else ret tt) ;;
      snapshotLoop w (baseChunks w) ;;
      match baseErr w with
      | Some err => halt (Return (Some err))
      | None => ret tt
      end
    else ret tt) ;;
   emit EvSyncUpdates)%mirror.

(** The number the counter has to show after the effects [p]: one for each
    accepted Put and one for each operation appended to [ops], except that
    an operation whose increment has not happened yet (the trace ends right
    after it) is not counted. *)
Definition expectedCount (p : list Effect) : Z :=
  countIf isOkPut p + countIf isAppend p - (if midStep p then 1 else 0).

(** Every prefix of the trace shows the expected count. *)
Definition Counted (tr : list Effect) : Prop :=
  forall p q, tr = p ++ q -> counterAt p = int64_wrap (expectedCount p).

(** The invariant of the counter between two iterations. *)
Definition CounterInv (st : State) : Prop :=
  total st = counterAt (trace st) /\ midStep (trace st) = false /\ Counted (trace st).

(** The destination accepts every request. *)
Definition accepting (w : World) : Prop := forall n, dstReply w n = None.

Definition allKvs (chunks : list GetResponse) : list KeyValue :=
  List.concat (map Kvs chunks).

(* ------------------------------------------------------------------ *)
(** ** The grouping decisions of the event loop, as pure functions *)

(** [lastRev != 0 && nextRev > lastRev] *)
Definition boundary (lastRev : Z) (ev : Event) : bool :=
  negb (lastRev =? 0) && (revOf ev >? lastRev).

(** [ops] after the first test of the iteration. *)
Definition afterBoundary (lastRev : Z) (ops : list Op) (ev : Event) : list Op :=
  if boundary lastRev ev then [] else ops.

(** [len(ops) == int(mmmaxTxnOps)] *)
Definition full (g : Globals) (ops : list Op) : bool :=
  len ops =? int_of_uint (mmmaxTxnOps g).

(** [ops] after the second test of the iteration. *)
Definition afterFull (g : Globals) (ops : list Op) : list Op :=
  if full g ops then [] else ops.

(** The effects of the two flushes of one iteration when the destination
    accepts them. *)
Definition flushEffects (g : Globals) (lastRev : Z) (ops : list Op) (ev : Event)
  : list Effect :=
  (if boundary lastRev ev then [EvTxn ops None] else [])
  ++ (if full g (afterBoundary lastRev ops ev)
      then [EvTxn (afterBoundary lastRev ops ev) None] else []).

(** The transactions of those flushes. *)
Definition flushTxns (g : Globals) (lastRev : Z) (ops : list Op) (ev : Event)
  : list (list Op) :=
  (if boundary lastRev ev then [ops] else [])
  ++ (if full g (afterBoundary lastRev ops ev)
      then [afterBoundary lastRev ops ev] else []).

(** [ops] at the end of an iteration for an event of kind PUT or DELETE. *)
Definition pendingAfter (g : Globals) (lastRev : Z) (ops : list Op) (ev : Event)
  : list Op :=
  afterFull g (afterBoundary lastRev ops ev) ++ [opOf g ev].

(** The ways one iteration of the event loop can end, with the effects it
    adds to the trace. *)
Inductive stepOutcome (w : World) (g : Globals) (lastRev : Z) (ops : list Op)
          (ev : Event) : list Effect -> Step (Z * list Op) -> Prop :=
| step_refused_boundary (e : Error) (n : nat) :
    boundary lastRev ev = true ->
    dstReply w n = Some e ->
    stepOutcome w g lastRev ops ev
      [EvTxn ops (Some e)] (Halt (Return (Some e)))
| step_refused_full (e : Error) (n : nat) :
    full g (afterBoundary lastRev ops ev) = true ->
    dstReply w n = Some e ->
    stepOutcome w g lastRev ops ev
      ((if boundary lastRev ev then [EvTxn ops None] else [])
       ++ [EvTxn (afterBoundary lastRev ops ev) (Some e)])
      (Halt (Return (Some e)))
| step_panic :
    validKind ev = false ->
    stepOutcome w g lastRev ops ev
      (flushEffects g lastRev ops ev) (Halt (Panic "unexpected event type"))
| step_next (n : Z) :
    validKind ev = true ->
    stepOutcome w g lastRev ops ev
      (flushEffects g lastRev ops ev ++ [EvAppend (opOf g ev); EvAddTotal n])
      (Next (revOf ev, pendingAfter g lastRev ops ev)).

(** The transactions the event loop sends for [evs] and the local
    variables it ends with, when every event has a known kind and every
    flush is accepted. *)
Fixpoint batch (g : Globals) (evs : list Event) (lastRev : Z) (ops : list Op)
  : list (list Op) * (Z * list Op) :=
  match evs with
  | [] => ([], (lastRev, ops))
  | ev :: evs' =>
      let r := batch g evs' (revOf ev) (pendingAfter g lastRev ops ev) in
      (flushTxns g lastRev ops ev ++ fst r, snd r)
  end.

(** The transactions of one watch response with the events [evs] in that
    case, the final flush included. *)
Definition responseTxns (g : Globals) (evs : list Event) : list (list Op) :=
  let r := batch g evs 0 [] in
  fst r ++ (if negb (len (snd (snd r)) =? 0) then [snd (snd r)] else []).

(** Revisions in non-decreasing order. *)
Fixpoint nondecreasing (l : list Z) : bool :=
  match l with
  | a :: (b :: _) as t => (a <=? b) && nondecreasing t
  | _ => true
  end.

(** A watch response as the source delivers it: positive revisions in
    non-decreasing order, and no more events than a slice can hold. *)
Definition wellFormed (wr : WatchResponse) : bool :=
  nondecreasing (map revOf (Events wr))
  && forallb (fun ev => 0 <? revOf ev) (Events wr)
  && (len (Events wr) <=? max_int64).

(** The state after one more effect. *)
Definition logged (st : State) (e : Effect) : State :=
  mkState (vars st) (total st) (trace st ++ [e]).

(** The operations [t] are those of consecutive events of [evs] that all
    have one revision. *)
Definition singleRevision (g : Globals) (evs : list Event) (t : list Op) : Prop :=
  exists d seg r R,
    evs = d ++ seg ++ r /\
    t = map (opOf g) seg /\
    forall e, In e seg -> revOf e = R.

Definition goodTxn (g : Globals) (evs : list Event) (t : list Op) : Prop :=
  t <> [] /\ len t <= mmmaxTxnOps g /\ singleRevision g evs t.

(* ------------------------------------------------------------------ *)
(** ** Concrete inputs *)

Local Open Scope string_scope.

Definition put (key val : string) (rev : Z) : Event :=
  mkEvent PUT (mkKeyValue key val rev).

Definition del (key : string) (rev : Z) : Event :=
  mkEvent DELETE (mkKeyValue key "" rev).

(** A destination that accepts every request. *)
Definition acceptAll : nat -> option Error := fun _ => None.

(** A source holding one key below ["/a/"], followed by the given watch
    responses. *)
Definition sourceA (wrs : list WatchResponse) : World :=
  mkWorld (inl "") [mkGetResponse [mkKeyValue "/a/0" "v0" 3]] None wrs acceptAll.

(** [--prefix /a/ --dest-prefix /b/ --no-dest-prefix] *)
Definition flagsConflict : Globals :=
  mkGlobals "/a/" "/b/" "" "" true 0 defaultMaxTxnOps.

(** [--prefix /a/ --rev r], no destination prefix option. *)
Definition flagsRev (r : Z) : Globals :=
  mkGlobals "/a/" "" "" "" false r defaultMaxTxnOps.

(** [--prefix /a/ --dest-prefix /b/ --max-txn-ops m --rev r] *)
Definition flagsAB (m r : Z) : Globals :=
  mkGlobals "/a/" "/b/" "" "" false r m.

Local Close Scope string_scope.

Definition ev_a1 : Event := put "/a/1" "x" 5.

(** An event whose kind is neither PUT nor DELETE. *)
Definition ev_unknown : Event := mkEvent 7 (mkKeyValue "/a/9" "?" 6).

(** Three watch responses; the second one carries a compact revision. *)
Definition watchCompacted : list WatchResponse :=
  [mkWatchResponse 0 [ev_a1];
   mkWatchResponse 9 [put "/a/2" "y" 10];
   mkWatchResponse 0 [put "/a/3" "z" 11]].

(** One watch response whose second event has an unknown kind. *)
Definition watchUnknown : list WatchResponse :=
  [mkWatchResponse 0 [ev_a1; ev_unknown; put "/a/3" "z" 11]].

(** A destination that refuses every request. *)
Definition refuseAll : nat -> option Error := fun _ => Some (ErrExternal 1).

Definition sourceRefused (wrs : list WatchResponse) : World :=
  mkWorld (inl EmptyString) [] None wrs refuseAll.

(** Two events of revision 5, delivered in two watch responses. *)
Definition watchSplitRevision : list WatchResponse :=
  [mkWatchResponse 0 [put "/a/1" "x" 5];
   mkWatchResponse 0 [put "/a/2" "y" 5]].

(** Three events of revision 5, delivered in three watch responses. *)
Definition watchSplitRevision3 : list WatchResponse :=
  [mkWatchResponse 0 [put "/a/1" "x" 5];
   mkWatchResponse 0 [put "/a/2" "y" 5];
   mkWatchResponse 0 [put "/a/3" "z" 5]].

(** One response: an event of revision 4, three of revision 5, one of
    revision 6. *)
Definition watchMixed : WatchResponse :=
  mkWatchResponse 0
    [del "/a/0" 4;
     put "/a/1" "x" 5; put "/a/2" "y" 5; del "/a/3" 5;
     put "/a/4" "z" 6].

(* ------------------------------------------------------------------ *)
(** ** Further definitions: flags, credentials, key mapping, refusals *)

(** The values [NewMakeMirrorCommand] registers as defaults of the flags
    [--prefix], [--dest-prefix], [--dest-user], [--dest-password],
    [--no-dest-prefix], [--rev] and [--max-txn-ops]. *)
Definition defaultFlags : Globals :=
  mkGlobals EmptyString EmptyString EmptyString EmptyString false 0 defaultMaxTxnOps.

(** [s] holds a colon. *)
Fixpoint containsColon (s : string) : bool :=
  match s with
  | EmptyString => false
  | String c s' => Ascii.eqb c ":"%char || containsColon s'
  end.

(** [old] occurs in [s] (an empty [old] occurs in every string). *)
Fixpoint occursIn (old s : string) : bool :=
  String.prefix old s
  || match s with
     | EmptyString => false
     | String _ s' => occursIn old s'
     end.

(** The package variables after the statement
    [if !mmnodestprefix && len(mmdestprefix) == 0 { mmdestprefix = mmprefix }]. *)
Definition defaulted (g : Globals) : Globals :=
  if negb (mmnodestprefix g) && (str_len (mmdestprefix g) =? 0)
  then mkGlobals (mmprefix g) (mmprefix g) (mmuser g) (mmpassword g)
                 (mmnodestprefix g) (mmrev g) (mmmaxTxnOps g)
  else g.

(** The write sent for a pair of the base synchronisation. *)
Definition putOf (g : Globals) (kv : KeyValue) : string * string :=
  (modifyPrefix g (Key kv), Value kv).

(** The error of a request that the destination refused. *)
Definition refusal (e : Effect) : option Error :=
  match e with
  | EvPut _ _ (Some err) => Some err
  | EvTxn _ (Some err) => Some err
  | _ => None
  end.

(** No request in [tr] was refused. *)
Definition unrefused (tr : list Effect) : Prop :=
  Forall (fun e => refusal e = None) tr.

(** The operations of all events of a list of watch responses, in order. *)
Definition allOps (g : Globals) (wrs : list WatchResponse) : list Op :=
  List.concat (map (fun wr => map (opOf g) (Events wr)) wrs).

(** A watch response that carries a compact revision or at least one
    event. *)
Definition hasWork (wr : WatchResponse) : bool :=
  negb (CompactRevision wr =? 0) || negb (len (Events wr) =? 0).

(** [--dest-user root:a:b] *)
Definition flagsUserColon : Globals :=
  mkGlobals EmptyString EmptyString "root:a:b" EmptyString false 0 defaultMaxTxnOps.

(** [--dest-user root], the password is asked for. *)
Definition flagsUserOnly : Globals :=
  mkGlobals EmptyString EmptyString "root" EmptyString false 0 defaultMaxTxnOps.

(** A terminal that answers "secret". *)
Definition terminalSecret : World :=
  mkWorld (inl "secret"%string) [] None [] acceptAll.

(** How a run may stand when it halts with signal [s]: either no request
    was refused so far, or the last effect is a refused request, nothing
    was refused before it, and [s] returns the error of that refusal. *)
Definition stoppedBy (s : Signal) (st : State) : Prop :=
  unrefused (trace st) \/
  exists pre x err,
    trace st = pre ++ [x] /\ unrefused pre /\ refusal x = Some err /\
    s = Return (Some err).

(** One watch response with the event for "/a/1", sent to a destination
    that refuses every request. *)
Definition refusedRun : Step unit * State :=
  runCommand (sourceRefused [mkWatchResponse 0 [ev_a1]]) (flagsAB 128 2)
             ["10.0.0.2:2379"%string].

(** The operation of an event when keys are mirrored unchanged. *)
Definition plainOp (ev : Event) : Op :=
  if Type_ ev =? PUT
  then OpPut (Key (Kv ev)) (Value (Kv ev))
  else OpDelete (Key (Kv ev)).

(** A source whose base synchronisation delivers two pairs and then
    reports an error. *)
Definition sourceFailing : World :=
  mkWorld (inl EmptyString)
          [mkGetResponse [mkKeyValue "/a/0" "v0" 3]; mkGetResponse [mkKeyValue "/a/1" "v1" 4]]
          (Some (ErrExternal 7))
          [mkWatchResponse 0 [ev_a1]] acceptAll.

(** Signals of the loops of [makeMirror]: a returned error or the panic. *)
Definition loopSignal (s : Signal) : Prop :=
  (exists e, s = Return (Some e)) \/ s = Panic "unexpected event type".

(** A stream with two responses that carry nothing around one that carries
    an event. *)
Definition watchWithIdle : list WatchResponse :=
  [mkWatchResponse 0 []; mkWatchResponse 0 [ev_a1]; mkWatchResponse 0 []].

(** Three events of revision 5 in one response. *)
Definition watchThree : WatchResponse :=
  mkWatchResponse 0 [put "/a/1" "x" 5; put "/a/2" "y" 5; del "/a/3" 5].

(* ------------------------------------------------------------------ *)
(** ** Further definitions: what the counter counts *)

(** The single-key writes that the destination accepted. *)
Fixpoint okPutsOf (tr : list Effect) : list (string * string) :=
  match tr with
  | [] => []
  | EvPut k v None :: tr' => (k, v) :: okPutsOf tr'
  | _ :: tr' => okPutsOf tr'
  end.

(** The operations appended to [ops]: one for each event that the switch
    took as PUT or as DELETE. *)
Fixpoint appendsOf (tr : list Effect) : list Op :=
  match tr with
  | [] => []
  | EvAppend op :: tr' => op :: appendsOf tr'
  | _ :: tr' => appendsOf tr'
  end.

(** The events of a list of watch responses, in order. *)
Definition allEvents (wrs : list WatchResponse) : list Event :=
  List.concat (map Events wrs).

(** The destination's address used in the examples. *)
Definition oneArg : list string := ["10.0.0.2:2379"%string].

(** One response whose second event has a lower revision than the first. *)
Definition watchUnsorted : WatchResponse :=
  mkWatchResponse 0 [put "/a/1" "x" 5; put "/a/2" "y" 4].

(** A run over [watchUnsorted] with the default limit. *)
Definition unsortedRun : Step unit * State :=
  runCommand (sourceA [watchUnsorted]) (flagsAB 128 2) oneArg.

(** A PUT, a DELETE and a PUT in one response of one revision. *)
Definition watchPutDelPut : WatchResponse :=
  mkWatchResponse 0 [put "/a/1" "x" 5; del "/a/2" 5; put "/a/3" "z" 5].

(** The run over one pair and [watchPutDelPut], from revision 0. *)
Definition countedRun : Step unit * State :=
  runCommand (sourceA [watchPutDelPut]) (flagsAB 128 0) oneArg.

(** The run over [watchPutDelPut] whose only transaction is refused. *)
Definition uncommittedRun : Step unit * State :=
  runCommand (sourceRefused [watchPutDelPut]) (flagsAB 128 2) oneArg.
(* ------------------------------------------------------------------ *)
(** ** Rules of the program logic *)

Lemma triple_bind {A B} (c : M A) (k : A -> M B) P Q R E :
  triple P c Q E ->
  (forall a, triple (Q a) (k a) R E) ->
  triple P (bind c k) R E.
Proof.
  intros Hc Hk st HP. unfold bind.
  specialize (Hc st HP). destruct (c st) as [[a|s] st'].
  - apply Hk. exact Hc.
  - exact Hc.
Qed.

Lemma triple_forEach {A} (l : list A) (body : A -> M unit)
      (I : State -> Prop) E :
  (forall x, In x l -> triple I (body x) (fun _ => I) E) ->
  triple I (forEach l body) (fun _ => I) E.
Proof.
  induction l as [|x l IH]; intros Hb.
  - intros st H. exact H.
  - simpl. eapply triple_bind.
    + apply Hb. left. reflexivity.
    + intros u. apply IH. intros y Hy. apply Hb. right. exact Hy.
Qed.

(* ------------------------------------------------------------------ *)
(** ** Equations of the loops *)

Lemma forEach_app {A} (l1 l2 : list A) (body : A -> M unit) st :
  forEach (l1 ++ l2) body st = (forEach l1 body ;; forEach l2 body) st.
Proof.
  revert st. induction l1 as [|x l1 IH]; intros st.
  - reflexivity.
  - simpl. unfold bind. destruct (body x st) as [[[]|s] st']; [|reflexivity].
    rewrite IH. reflexivity.
Qed.

(* ------------------------------------------------------------------ *)
(** ** Invariants of the whole command

    An invariant that the elementary steps maintain is maintained by every
    function of the command.  The elementary steps are: an effect outside
    the destination traffic, a transaction, a snapshot write with its
    increment, the classification of an event with its increment, and the
    assignment to [mmdestprefix]. *)

Lemma invariant_ret {A} I E (a : A) : invariant I E (ret a).
Proof. intros st H. exact H. Qed.

Lemma invariant_halt {A} I (E : Signal -> Prop) s :
  E s -> invariant I E (@halt A s).
Proof. intros HE st H. simpl. split; assumption. Qed.

Lemma invariant_bind {A B} I E (c : M A) (k : A -> M B) :
  invariant I E c -> (forall a, invariant I E (k a)) -> invariant I E (bind c k).
Proof. intros Hc Hk. eapply triple_bind; [exact Hc | exact Hk]. Qed.

Lemma invariant_getVars I E : invariant I E getVars.
Proof. intros st H. exact H. Qed.

Lemma invariant_forEach {A} I E (l : list A) (body : A -> M unit) :
  (forall x, In x l -> invariant I E (body x)) -> invariant I E (forEach l body).
Proof. intros Hb. apply triple_forEach. exact Hb. Qed.

Lemma invariant_foldEach {A S} I E (l : list A) (body : S -> A -> M S) s :
  (forall s' x, In x l -> invariant I E (body s' x)) ->
  invariant I E (foldEach l body s).
Proof.
  revert s. induction l as [|x l IH]; intros s Hb.
  - apply invariant_ret.
  - simpl. apply invariant_bind.
    + apply Hb. left. reflexivity.
    + intros s'. apply IH. intros s'' y Hy. apply Hb. right. exact Hy.
Qed.

Lemma invariant_assoc {A} I E (a b : M unit) (c : M A) :
  invariant I E ((a ;; b) ;; c) -> invariant I E (a ;; b ;; c).
Proof.
  intros H st HI. specialize (H st HI). unfold bind in *.
  destruct (a st) as [[u|s] st1]; [|exact H].
  destruct (b st1) as [[u'|s] st2]; exact H.
Qed.

Section Invariants.

Variable w : World.
Variable I : State -> Prop.
Variable E : Signal -> Prop.

Hypothesis E_return : forall e, E (Return (Some e)).
Hypothesis E_exit : forall c e, E (Exit c (Some e)).
Hypothesis E_panic : E (Panic "unexpected event type").

Hypothesis I_setup : forall e, isSetup e = true -> invariant I E (emit e).
Hypothesis I_commit : forall ops, invariant I E (commit w ops).
Hypothesis I_putKv : forall kv, invariant I E (putKv w kv).
Hypothesis I_classify : forall op, invariant I E (emit (EvAppend op) ;; addTotal).
Hypothesis I_setDestPrefix : forall p, invariant I E (setDestPrefix p).

Lemma invariant_flush (b : bool) ops :
  invariant I E (if b then commit w ops ;; ret [] else ret ops).
Proof.
  destruct b.
  - apply invariant_bind; [apply I_commit | intros; apply invariant_ret].
  - apply invariant_ret.
Qed.

Lemma invariant_eventStep ls ev : invariant I E (eventStep w ls ev).
Proof.
  destruct ls as [lastRev ops]. unfold eventStep.
  apply invariant_bind; [apply invariant_flush | intros ops1].
  apply invariant_bind; [apply invariant_getVars | intros g].
  apply invariant_bind; [apply invariant_flush | intros ops2].
  destruct (Type_ ev =? PUT); [|destruct (Type_ ev =? DELETE)].
  - apply invariant_assoc. apply invariant_bind; [apply I_classify|].
    intros; apply invariant_ret.
  - apply invariant_assoc. apply invariant_bind; [apply I_classify|].
    intros; apply invariant_ret.
  - apply invariant_halt. exact E_panic.
Qed.

Lemma invariant_eventsLoop evs ls : invariant I E (eventsLoop w evs ls).
Proof.
  apply invariant_foldEach. intros; apply invariant_eventStep.
Qed.

Lemma invariant_watchBody wr : invariant I E (watchBody w wr).
Proof.
  unfold watchBody. destruct (negb (CompactRevision wr =? 0)).
  - apply invariant_halt. apply E_return.
  - apply invariant_bind; [apply invariant_eventsLoop | intros ls].
    destruct (negb (len (snd ls) =? 0)); [apply I_commit | apply invariant_ret].
Qed.

Lemma invariant_watchLoop wrs : invariant I E (watchLoop w wrs).
Proof. apply invariant_forEach. intros; apply invariant_watchBody. Qed.

Lemma invariant_snapshotLoop chunks : invariant I E (snapshotLoop w chunks).
Proof.
  apply invariant_forEach. intros r _.
  apply invariant_forEach. intros kv _. apply I_putKv.
Qed.

Lemma invariant_makeMirrorBody : invariant I E (makeMirrorBody w).
Proof.
  unfold makeMirrorBody.
  apply invariant_bind; [apply invariant_getVars | intros g].
  apply invariant_bind.
  { destruct (_ && _); [apply invariant_halt, E_exit | apply invariant_ret]. }
  intros _.
  apply invariant_bind; [apply I_setup; reflexivity | intros _].
  apply invariant_bind.
  { destruct (startRevOf g =? 0); [|apply invariant_ret].
    apply invariant_bind; [apply I_setup; reflexivity | intros _].
    apply invariant_bind.
    { destruct (_ && _); [apply I_setDestPrefix | apply invariant_ret]. }
    intros _.
    apply invariant_bind; [apply invariant_snapshotLoop | intros _].
    destruct (baseErr w); [apply invariant_halt, E_return | apply invariant_ret]. }
  intros _.
  apply invariant_bind; [apply I_setup; reflexivity | intros _].
  apply invariant_watchLoop.
Qed.

Lemma invariant_beforeWatch : invariant I E (beforeWatch w).
Proof.
  unfold beforeWatch.
  apply invariant_bind; [apply invariant_getVars | intros g].
  apply invariant_bind.
  { destruct (_ && _); [apply invariant_halt, E_exit | apply invariant_ret]. }
  intros _.
  apply invariant_bind; [apply I_setup; reflexivity | intros _].
  apply invariant_bind.
  { destruct (startRevOf g =? 0); [|apply invariant_ret].
    apply invariant_bind; [apply I_setup; reflexivity | intros _].
    apply invariant_bind.
    { destruct (_ && _); [apply I_setDestPrefix | apply invariant_ret]. }
    intros _.
    apply invariant_bind; [apply invariant_snapshotLoop | intros _].
    destruct (baseErr w); [apply invariant_halt, E_return | apply invariant_ret]. }
  intros _. apply I_setup. reflexivity.
Qed.

End Invariants.

(* ------------------------------------------------------------------ *)
(** ** What the elementary steps add to the trace *)

Section Extends.

Variable w : World.
Variable t0 : list Effect.
Variable F : Effect -> Prop.
Variable E : Signal -> Prop.
Hypothesis E_return : forall e, E (Return (Some e)).

Lemma extends_snoc st e :
  extends t0 F st -> F e ->
  extends t0 F (mkState (vars st) (total st) (trace st ++ [e])).
Proof.
  intros (seg & Htr & Hall) He. exists (seg ++ [e]). simpl. split.
  - rewrite Htr, app_assoc. reflexivity.
  - apply Forall_app. split; [exact Hall | repeat constructor; exact He].
Qed.

Lemma extends_emit e : F e -> invariant (extends t0 F) E (emit e).
Proof. intros He st H. simpl. apply extends_snoc; assumption. Qed.

Lemma extends_commit ops :
  (forall r, F (EvTxn ops r)) -> invariant (extends t0 F) E (commit w ops).
Proof.
  intros He st H. unfold commit.
  destruct (dstReply w (dstCalls (trace st))) as [e|].
  - split; [apply extends_snoc; auto | apply E_return].
  - apply extends_snoc; auto.
Qed.

Lemma extends_addTotal :
  (forall n, F (EvAddTotal n)) -> invariant (extends t0 F) E addTotal.
Proof.
  intros He st (seg & Htr & Hall). unfold addTotal.
  exists (seg ++ [EvAddTotal (int64_wrap (total st + 1))]). simpl. split.
  - rewrite Htr, app_assoc. reflexivity.
  - apply Forall_app. split; [exact Hall | repeat constructor; apply He].
Qed.

Lemma extends_classify op :
  F (EvAppend op) -> (forall n, F (EvAddTotal n)) ->
  invariant (extends t0 F) E (emit (EvAppend op) ;; addTotal).
Proof.
  intros H1 H2. apply invariant_bind; [apply extends_emit; exact H1|].
  intros _. apply extends_addTotal. exact H2.
Qed.

Lemma extends_putKv kv :
  (forall k v r, F (EvPut k v r)) -> (forall n, F (EvAddTotal n)) ->
  invariant (extends t0 F) E (putKv w kv).
Proof.
  intros H1 H2. unfold putKv.
  apply invariant_bind; [apply invariant_getVars | intros g].
  apply invariant_bind; [|intros _; apply extends_addTotal; exact H2].
  intros st H. unfold dcPut.
  destruct (dstReply w (dstCalls (trace st))) as [e|].
  - split; [apply extends_snoc; auto | apply E_return].
  - apply extends_snoc; auto.
Qed.

Lemma extends_setDestPrefix p : invariant (extends t0 F) E (setDestPrefix p).
Proof. intros st H. exact H. Qed.

End Extends.

(** Whatever the watch loop adds to the trace is an append to [ops], an
    increment of [total] or a transaction. *)
Lemma watchLoop_extends (w : World) (wrs : list WatchResponse) (st : State) :
  exists seg,
    trace (snd (watchLoop w wrs st)) = trace st ++ seg /\
    Forall (fun e => isSetup e = false /\ isSnapshotOp e = false) seg.
Proof.
  pose proof (invariant_watchLoop w
                (extends (trace st) (fun e => isSetup e = false /\ isSnapshotOp e = false))
                (fun _ => True)) as H.
  specialize (H (fun _ => I) I).
  assert (Hc : forall ops,
             invariant (extends (trace st)
                          (fun e => isSetup e = false /\ isSnapshotOp e = false))
                       (fun _ => True) (commit w ops)).
  { intros ops. apply extends_commit; [intros; exact I | intros; split; reflexivity]. }
  assert (Hk : forall op,
             invariant (extends (trace st)
                          (fun e => isSetup e = false /\ isSnapshotOp e = false))
                       (fun _ => True) (emit (EvAppend op) ;; addTotal)).
  { intros op. apply extends_classify; [split; reflexivity | intros; split; reflexivity]. }
  specialize (H Hc Hk wrs st).
  assert (H0 : extends (trace st)
                 (fun e => isSetup e = false /\ isSnapshotOp e = false) st).
  { exists []. rewrite app_nil_r. split; [reflexivity | constructor]. }
  specialize (H H0).
  destruct (watchLoop w wrs st) as [[u|s] st']; simpl; [exact H | exact (proj1 H)].
Qed.

(* ------------------------------------------------------------------ *)
(** ** Configuration: prefix flags and starting revision *)

Lemma str_len_pos (s : string) : s <> EmptyString -> (str_len s >? 0) = true.
Proof.
  destruct s as [|c s]; [congruence|]. intros _. unfold str_len. simpl String.length.
  apply Z.gtb_lt. lia.
Qed.

(** With both prefix flags set, [makeMirror] leaves through its first
    statement without any effect. *)
Lemma makeMirror_conflict (w : World) (st : State) :
  mmnodestprefix (vars st) = true ->
  mmdestprefix (vars st) <> EmptyString ->
  makeMirror w st
  = (Halt (Exit ExitBadArgs (Some (ErrNew conflictMsg))),
     mkState (vars st) 0 (trace st)).
Proof.
  intros Hno Hdest. unfold makeMirror, call, makeMirrorBody, bind, getVars.
  cbv beta. cbn [vars]. rewrite Hno, (str_len_pos _ Hdest). reflexivity.
Qed.

(** [authDestCfg] leaves the package variables alone and at most asks
    for the password. *)
Lemma authDestCfg_cases (w : World) (g : Globals) :
  (exists auth pre,
      authDestCfg w (initState g) = (Next auth, mkState g 0 pre) /\
      (pre = [] \/ pre = [EvAsk "Destination Password: "])) \/
  (exists err,
      authDestCfg w (initState g)
      = (Halt (Exit ExitError (Some err)),
         mkState g 0 [EvAsk "Destination Password: "])).
Proof.
  assert (Hleft : forall auth pre,
             pre = [] \/ pre = [EvAsk "Destination Password: "] ->
             exists auth' pre',
               (Next auth, mkState g 0 pre)
               = (@Next (option AuthConfig) auth', mkState g 0 pre') /\
               (pre' = [] \/ pre' = [EvAsk "Destination Password: "])).
  { intros auth pre H. exists auth, pre. split; [reflexivity | exact H]. }
  unfold authDestCfg, bind, getVars, initState, ret. cbn [vars total trace].
  destruct (String.eqb (mmuser g) ""); [left; apply Hleft; auto|].
  destruct (String.eqb (mmpassword g) ""); [|left; apply Hleft; auto].
  destruct (splitColon2 (mmuser g)) as [[u p]|]; [left; apply Hleft; auto|].
  unfold emit. cbn [vars total trace app].
  destruct (askPassword w) as [pw|err].
  - left. apply Hleft. auto.
  - right. exists err. reflexivity.
Qed.

(** [makeMirrorCommandFunc], statement by statement. *)
Lemma runCommand_eq (w : World) (g : Globals) (args : list string) :
  runCommand w g args
  = if negb (len args =? 1)
    then (Halt (Exit ExitBadArgs
                  (Some (ErrNew "make-mirror takes one destination argument"))),
          initState g)
    else match authDestCfg w (initState g) with
         | (Next auth, st1) =>
             match makeMirror w
                     (mkState (vars st1) (total st1)
                        (trace st1 ++ [EvMustClient (nth 0 args EmptyString) auth;
                                       EvMustClientFromCmd])) with
             | (Next err, st2) => (Halt (Exit ExitError err), st2)
             | (Halt s, st2) => (Halt s, st2)
             end
         | (Halt s, st1) => (Halt s, st1)
         end.
Proof.
  unfold runCommand, makeMirrorCommandFunc, bind.
  destruct (negb (len args =? 1)); [reflexivity|].
  unfold ret at 1.
  destruct (authDestCfg w (initState g)) as [[auth|s] st1]; [|reflexivity].
  unfold emit. cbn [vars total trace]. rewrite <- app_assoc. reflexivity.
Qed.

(** The three ways the command can end when both prefix flags are set. *)
Lemma runCommand_conflict_cases (w : World) (g : Globals) (args : list string) :
  mmnodestprefix g = true ->
  mmdestprefix g <> EmptyString ->
  runCommand w g args
  = (Halt (Exit ExitBadArgs (Some (ErrNew "make-mirror takes one destination argument"))),
     initState g) \/
  (exists err,
      runCommand w g args
      = (Halt (Exit ExitError (Some err)),
         mkState g 0 [EvAsk "Destination Password: "])) \/
  (exists auth pre,
      runCommand w g args
      = (Halt (Exit ExitBadArgs (Some (ErrNew conflictMsg))),
         mkState g 0 (pre ++ [EvMustClient (nth 0 args EmptyString) auth;
                              EvMustClientFromCmd])) /\
      (pre = [] \/ pre = [EvAsk "Destination Password: "])).
Proof.
  intros Hno Hdest. rewrite runCommand_eq.
  destruct (negb (len args =? 1)); [left; reflexivity|].
  right.
  destruct (authDestCfg_cases w g) as [(auth & pre & -> & Hpre) | (err & ->)].
  - right. exists auth, pre. split; [|exact Hpre].
    rewrite makeMirror_conflict by assumption. reflexivity.
  - left. exists err. reflexivity.
Qed.

(** C3 (as the code has it): with [--no-dest-prefix] and a non-empty
    [--dest-prefix], the command always exits with an error and never
    creates a syncer, starts the base synchronisation or the watch, or sends
    a Put or a transaction.  The conflict is detected by the first statement
    of [makeMirror]: whenever the run got as far as creating the clients, it
    exits with [ExitBadArgs] and the conflict message, and the last two
    effects before the exit are the creation of the destination client and
    of the source client. *)
Theorem conflicting_prefix_flags_rejected
        (w : World) (g : Globals) (args : list string)
        (Hno : mmnodestprefix g = true)
        (Hdest : mmdestprefix g <> EmptyString) :
  (exists code err, fst (runCommand w g args) = Halt (Exit code (Some err))) /\
  Forall (fun e => isClusterOp e = false) (trace (snd (runCommand w g args))) /\
  (In EvMustClientFromCmd (trace (snd (runCommand w g args))) ->
   fst (runCommand w g args) = Halt (Exit ExitBadArgs (Some (ErrNew conflictMsg))) /\
   exists pre auth,
     trace (snd (runCommand w g args))
     = pre ++ [EvMustClient (nth 0 args EmptyString) auth; EvMustClientFromCmd]).
Proof.
  destruct (runCommand_conflict_cases w g args Hno Hdest)
    as [-> | [(err & ->) | (auth & pre & -> & Hpre)]]; cbn [fst snd trace initState].
  - split; [eauto|]. split; [constructor|]. intros [].
  - split; [eauto|]. split; [repeat constructor|].
    intros [H|[]]. discriminate.
  - split; [eauto|]. split.
    + destruct Hpre as [-> | ->]; repeat constructor.
    + intros _. split; [reflexivity|]. eauto.
Qed.

(** C3, counterexample to the claim as stated: with both flags set the
    command exits with the configuration error only after it has created
    the destination client and the source client. *)
Lemma conflicting_prefix_flags_after_clients :
  mmnodestprefix flagsConflict = true /\
  mmdestprefix flagsConflict <> EmptyString /\
  runCommand (sourceA []) flagsConflict ["10.0.0.2:2379"%string]
  = (Halt (Exit ExitBadArgs (Some (ErrNew conflictMsg))),
     mkState flagsConflict 0
             [EvMustClient "10.0.0.2:2379" None; EvMustClientFromCmd]).
Proof.
  split; [reflexivity|]. split; [discriminate|]. vm_compute. reflexivity.
Qed.

(** C3, the theorem at a concrete input. *)
Lemma conflicting_prefix_flags_rejected_witness :
  (exists code err,
     fst (runCommand (sourceA []) flagsConflict ["10.0.0.2:2379"%string])
     = Halt (Exit code (Some err))) /\
  Forall (fun e => isClusterOp e = false)
         (trace (snd (runCommand (sourceA []) flagsConflict ["10.0.0.2:2379"%string]))).
Proof.
  pose proof (conflicting_prefix_flags_rejected
                (sourceA []) flagsConflict ["10.0.0.2:2379"%string]
                eq_refl ltac:(discriminate)) as [H1 [H2 _]].
  split; assumption.
Defined.

(* ------------------------------------------------------------------ *)
(** *** The starting revision *)

Lemma startRevOf_pos (g : Globals) :
  0 < mmrev g <= max_int64 -> startRevOf g = mmrev g - 1.
Proof.
  intros Hr. unfold startRevOf, int64_wrap, max_int64 in *.
  replace ((mmrev g - 1 + 2 ^ 63) mod 2 ^ 64) with (mmrev g - 1 + 2 ^ 63)
    by (symmetry; apply Z.mod_small; lia).
  replace (mmrev g - 1 + 2 ^ 63 - 2 ^ 63) with (mmrev g - 1) by lia.
  destruct (mmrev g - 1 <? 0) eqn:Hlt; [apply Z.ltb_lt in Hlt; lia | reflexivity].
Qed.

(** [makeMirror] when the flags are compatible and the syncer starts at a
    non-zero revision: the base synchronisation is skipped. *)
Lemma makeMirrorBody_skip (w : World) (st : State) :
  flagsCompatible (vars st) ->
  startRevOf (vars st) <> 0 ->
  makeMirrorBody w st
  = watchLoop w (watchResponses w)
      (mkState (vars st) (total st)
         (trace st ++ [EvNewSyncer (mmprefix (vars st)) (startRevOf (vars st));
                       EvSyncUpdates])).
Proof.
  intros Hc Hs. unfold makeMirrorBody, bind, getVars.
  unfold flagsCompatible in Hc. rewrite Hc. unfold ret at 1.
  unfold emit at 1. cbn [vars total trace].
  apply Z.eqb_neq in Hs. rewrite Hs. unfold ret at 1. unfold emit.
  cbn [vars total trace]. rewrite <- app_assoc. reflexivity.
Qed.

(** [makeMirror] when the syncer starts at revision 0: the base
    synchronisation runs first. *)
Lemma makeMirrorBody_base (w : World) (st : State) :
  flagsCompatible (vars st) ->
  startRevOf (vars st) = 0 ->
  makeMirrorBody w st
  = ((if negb (mmnodestprefix (vars st)) && (str_len (mmdestprefix (vars st)) =? 0)
      then setDestPrefix (mmprefix (vars st)) else ret tt) ;;
     snapshotLoop w (baseChunks w) ;;
     match baseErr w with
     | Some err => halt (Return (Some err))
     | None => ret tt
     end ;;
     emit EvSyncUpdates ;;
     watchLoop w (watchResponses w))
      (mkState (vars st) (total st)
         (trace st ++ [EvNewSyncer (mmprefix (vars st)) 0; EvSyncBase])).
Proof.
  intros Hc Hs. unfold makeMirrorBody, getVars. unfold bind at 1.
  unfold flagsCompatible in Hc. rewrite Hc. unfold bind at 1. unfold ret at 1.
  unfold bind at 1. unfold emit at 1. cbn [vars total trace].
  rewrite Hs. change (0 =? 0) with true. cbv iota.
  unfold bind at 1. unfold bind at 1. unfold emit at 1. cbn [vars total trace].
  rewrite <- app_assoc. cbn [app].
  set (st1 := mkState _ _ _).
  unfold bind.
  destruct ((if negb (mmnodestprefix (vars st)) && (str_len (mmdestprefix (vars st)) =? 0)
             then setDestPrefix (mmprefix (vars st)) else ret tt) st1)
    as [[u|s] st2]; [|reflexivity].
  destruct (snapshotLoop w (baseChunks w) st2) as [[u'|s] st3]; [|reflexivity].
  destruct (baseErr w); reflexivity.
Qed.

(** The part of [makeMirror] after [s.SyncBase(ctx)] only adds to the
    trace. *)
Lemma after_SyncBase_extends (w : World) (g : Globals) (st : State) :
  exists rest,
    trace (snd (((if negb (mmnodestprefix g) && (str_len (mmdestprefix g) =? 0)
                  then setDestPrefix (mmprefix g) else ret tt) ;;
                 snapshotLoop w (baseChunks w) ;;
                 match baseErr w with
                 | Some err => halt (Return (Some err))
                 | None => ret tt
                 end ;;
                 emit EvSyncUpdates ;;
                 watchLoop w (watchResponses w)) st))
    = trace st ++ rest.
Proof.
  set (J := extends (trace st) (fun _ => True)).
  set (T := fun _ : Signal => True).
  assert (HJ : J st).
  { exists []. rewrite app_nil_r. split; [reflexivity | constructor]. }
  assert (Hcommit : forall ops, invariant J T (commit w ops)).
  { intros. apply extends_commit; intros; exact I. }
  assert (Hclass : forall op, invariant J T (emit (EvAppend op) ;; addTotal)).
  { intros. apply extends_classify; intros; exact I. }
  assert (Hput : forall kv, invariant J T (putKv w kv)).
  { intros. apply extends_putKv; intros; exact I. }
  match goal with |- exists rest, trace (snd (?c st)) = _ => assert (H : invariant J T c) end.
  { apply invariant_bind.
    { destruct (_ && _); [apply extends_setDestPrefix | apply invariant_ret]. }
    intros _. apply invariant_bind.
    { apply invariant_snapshotLoop. exact Hput. }
    intros _. apply invariant_bind.
    { destruct (baseErr w); [apply invariant_halt; exact I | apply invariant_ret]. }
    intros _. apply invariant_bind.
    { apply extends_emit. exact I. }
    intros _. apply invariant_watchLoop; auto; intros; exact I. }
  specialize (H st HJ).
  match goal with |- exists rest, trace (snd ?x) = _ => destruct x as [[u|s] st'] end;
    simpl.
  - destruct H as (seg & Hseg & _). eauto.
  - destruct H as [(seg & Hseg & _) _]. eauto.
Qed.

(** C2 (as the code has it): the syncer starts at [max(rev - 1, 0)] and the
    base synchronisation is skipped exactly when that revision is not 0.
    For every starting revision r > 1 the run creates the syncer at revision
    r - 1, goes straight to the watch and performs no operation of the base
    synchronisation (SyncBase is not called, no Put is sent).  For r = 1 the
    syncer starts at revision 0 and the base synchronisation is started, as
    it is without a starting revision. *)
Theorem start_revision_and_snapshot
        (w : World) (g : Globals)
        (Hr : 0 < mmrev g <= max_int64)
        (Hc : flagsCompatible g) :
  (1 < mmrev g ->
   exists rest,
     trace (snd (runMirror w g))
     = EvNewSyncer (mmprefix g) (mmrev g - 1) :: EvSyncUpdates :: rest /\
     Forall (fun e => isSnapshotOp e = false) rest) /\
  (mmrev g = 1 ->
   exists rest,
     trace (snd (runMirror w g))
     = EvNewSyncer (mmprefix g) 0 :: EvSyncBase :: rest).
Proof.
  pose proof (startRevOf_pos g Hr) as Hs.
  unfold runMirror, makeMirror, call, initState. cbn [vars trace].
  split.
  - intros H1. rewrite makeMirrorBody_skip by (cbn [vars]; first [assumption | rewrite Hs; lia]).
    cbn [vars total trace app]. rewrite Hs.
    match goal with |- context [watchLoop w ?wrs ?st] =>
      destruct (watchLoop_extends w wrs st) as (seg & Hseg & Hall);
      exists seg; destruct (watchLoop w wrs st) as [[u|[e|c e|m]] st'] end;
      simpl in *; (split; [exact Hseg|]);
      (eapply Forall_impl; [|exact Hall]); intros e' [_ He']; exact He'.
  - intros H1. rewrite makeMirrorBody_base by (cbn [vars]; first [assumption | rewrite Hs; lia]).
    cbn [vars total trace app].
    match goal with |- context [bind ?a ?k ?st] =>
      destruct (after_SyncBase_extends w g st) as (rest & Hrest);
      exists rest; destruct (bind a k st) as [[u|[e|c e|m]] st'] end;
      simpl in *; exact Hrest.
Qed.

(** C2, counterexample to the claim as stated: with [--rev 1] the base
    synchronisation is not skipped; SyncBase is called and the key of the
    source is written with a Put. *)
Lemma start_revision_1_runs_snapshot :
  0 < mmrev (flagsRev 1) /\
  trace (snd (runMirror (sourceA []) (flagsRev 1)))
  = [EvNewSyncer "/a/" 0; EvSyncBase; EvPut "/a/0" "v0" None; EvAddTotal 1;
     EvSyncUpdates] /\
  putsOf (trace (snd (runMirror (sourceA []) (flagsRev 1)))) <> [].
Proof.
  split; [reflexivity|]. split; [vm_compute; reflexivity|].
  vm_compute. discriminate.
Qed.

(** C2, the theorem at starting revision 42: the syncer starts at 41 and
    nothing of the base synchronisation happens. *)
Lemma start_revision_and_snapshot_witness :
  exists rest,
    trace (snd (runMirror (sourceA []) (flagsRev 42)))
    = EvNewSyncer "/a/" 41 :: EvSyncUpdates :: rest /\
    Forall (fun e => isSnapshotOp e = false) rest.
Proof.
  refine (proj1 (start_revision_and_snapshot (sourceA []) (flagsRev 42) _ _) _).
  - vm_compute. split; [reflexivity | discriminate].
  - reflexivity.
  - reflexivity.
Defined.

(* ------------------------------------------------------------------ *)
(** *** The key mapping *)

Lemma prefix_drop (p s : string) :
  String.prefix p s = true ->
  String.append p (string_drop (String.length p) s) = s.
Proof.
  revert s. induction p as [|c p IH]; intros s H.
  - reflexivity.
  - destruct s as [|c' s]; [discriminate|]. simpl in H.
    destruct (ascii_dec c c') as [->|]; [|discriminate].
    simpl. f_equal. apply IH. exact H.
Qed.

(** Replacing a string by itself changes nothing. *)
Lemma strings_Replace1_same (s p : string) : strings_Replace1 s p p = s.
Proof.
  induction s as [|c s IH].
  - cbn [strings_Replace1]. destruct (String.prefix p "") eqn:Hp; [|reflexivity].
    apply (prefix_drop p ""). exact Hp.
  - cbn [strings_Replace1].
    destruct (String.prefix p (String c s)) eqn:Hp.
    + apply prefix_drop. exact Hp.
    + f_equal. exact IH.
Qed.

(** Once [mmdestprefix] has been given the value of [mmprefix], keys are
    mirrored unchanged. *)
Lemma modifyPrefix_default (g : Globals) (key : string) :
  mmdestprefix g = mmprefix g -> modifyPrefix g key = key.
Proof. intros H. unfold modifyPrefix. rewrite H. apply strings_Replace1_same. Qed.

(** C1 (the code at the failing input): neither [--dest-prefix] nor
    [--no-dest-prefix] is given.  Started with [--rev 2], the run never
    executes the assignment [mmdestprefix = mmprefix], which sits inside the
    branch of the base synchronisation: the event for key "/a/1" is written
    to key "1", the source prefix is cut off.  Started without [--rev], the
    same event is written to "/a/1". *)
Theorem default_dest_prefix_only_with_base_sync :
  mmdestprefix (flagsRev 2) = EmptyString /\
  mmnodestprefix (flagsRev 2) = false /\
  txnsOf (trace (snd (runMirror (sourceA [mkWatchResponse 0 [ev_a1]]) (flagsRev 2))))
  = [[OpPut "1" "x"]] /\
  txnsOf (trace (snd (runMirror (sourceA [mkWatchResponse 0 [ev_a1]]) (flagsRev 0))))
  = [[OpPut "/a/1" "x"]].
Proof.
  split; [reflexivity|]. split; [reflexivity|].
  split; vm_compute; reflexivity.
Qed.

(* ------------------------------------------------------------------ *)
(** ** Compaction and unexpected event kinds *)

Lemma makeMirrorBody_split (w : World) (st : State) :
  makeMirrorBody w st = (beforeWatch w ;; watchLoop w (watchResponses w)) st.
Proof.
  unfold makeMirrorBody, beforeWatch, bind.
  repeat match goal with
         | |- context [match ?x with _ => _ end] =>
             match x with
             | watchLoop _ _ _ => fail 1
             | _ => destruct x
             end
         | |- context [if ?b then _ else _] => destruct b
         | |- context [let (_, _) := ?x in _] =>
             match x with
             | watchLoop _ _ _ => fail 1
             | _ => destruct x
             end
         end; try reflexivity.
Qed.

(** What comes before the watch loop does not depend on the watch
    responses. *)
Lemma beforeWatch_withWatch (w : World) (wrs : list WatchResponse) :
  beforeWatch (withWatch w wrs) = beforeWatch w.
Proof. reflexivity. Qed.

Lemma watchLoop_withWatch (w : World) (wrs wrs' : list WatchResponse) :
  watchLoop (withWatch w wrs') wrs = watchLoop w wrs.
Proof. reflexivity. Qed.

(** The watch loop stops at the first response it reaches that carries a
    compact revision, without touching the state. *)
Lemma watchLoop_compacted (w : World) (pre post : list WatchResponse)
      (wr : WatchResponse) (st : State) :
  CompactRevision wr <> 0 ->
  watchLoop w (pre ++ wr :: post) st
  = match watchLoop w pre st with
    | (Next _, st') => (Halt (Return (Some ErrCompacted)), st')
    | (Halt s, st') => (Halt s, st')
    end.
Proof.
  intros Hc. unfold watchLoop. rewrite forEach_app. unfold bind.
  destruct (forEach pre (watchBody w) st) as [[u|s] st']; [|reflexivity].
  simpl. unfold bind, watchBody. apply Z.eqb_neq in Hc. rewrite Hc. reflexivity.
Qed.

(** Every signal [makeMirror]'s statements halt with carries an error or is
    the panic on an unexpected event kind. *)
Section Fatal.

Variable w : World.

Let T : State -> Prop := fun _ => True.

Lemma fatal_emit e : invariant T fatal (emit e).
Proof. intros st _. exact I. Qed.

Lemma fatal_commit ops : invariant T fatal (commit w ops).
Proof.
  intros st _. unfold commit.
  destruct (dstReply w (dstCalls (trace st))); simpl; [split|]; exact I.
Qed.

Lemma fatal_putKv kv : invariant T fatal (putKv w kv).
Proof.
  intros st _. unfold putKv, bind, getVars, dcPut.
  destruct (dstReply w (dstCalls (trace st))); simpl; [split|]; exact I.
Qed.

Lemma fatal_classify op : invariant T fatal (emit (EvAppend op) ;; addTotal).
Proof. intros st _. exact I. Qed.

Lemma fatal_setDestPrefix p : invariant T fatal (setDestPrefix p).
Proof. intros st _. exact I. Qed.

Lemma makeMirrorBody_fatal st s st' :
  makeMirrorBody w st = (Halt s, st') -> fatal s.
Proof.
  intros H.
  pose proof (invariant_makeMirrorBody w T fatal (fun _ => I) (fun _ _ => I) eq_refl
                (fun e _ => fatal_emit e) fatal_commit fatal_putKv fatal_classify
                fatal_setDestPrefix st I) as Hinv.
  rewrite H in Hinv. exact (proj2 Hinv).
Qed.

End Fatal.

Lemma makeMirror_fatal (w : World) (st : State) s st' :
  makeMirror w st = (Halt s, st') -> fatal s.
Proof.
  unfold makeMirror, call. intros H.
  destruct (makeMirrorBody w _) as [[u|s0] st0] eqn:Hb; [discriminate|].
  apply makeMirrorBody_fatal in Hb.
  destruct s0 as [e|c e|m]; [discriminate| |]; inversion H; subst; exact Hb.
Qed.

(** [makeMirror] on a watch stream with a compaction signal, compared with
    the stream cut just before the signalling response. *)
Lemma makeMirror_compacted (w : World) (pre post : list WatchResponse)
      (wr : WatchResponse) (st : State) :
  watchResponses w = pre ++ wr :: post ->
  CompactRevision wr <> 0 ->
  makeMirror w st
  = match makeMirror (withWatch w pre) st with
    | (Next None, st') => (Next (Some ErrCompacted), st')
    | other => other
    end.
Proof.
  intros Hw Hc. unfold makeMirror, call.
  set (st0 := mkState (vars st) 0 (trace st)).
  pose proof (makeMirrorBody_fatal (withWatch w pre) st0) as Hfatal.
  rewrite (makeMirrorBody_split w), (makeMirrorBody_split (withWatch w pre)) in *.
  rewrite beforeWatch_withWatch in *. cbn [watchResponses withWatch] in *.
  rewrite watchLoop_withWatch in *. rewrite Hw. unfold bind in *.
  destruct (beforeWatch w st0) as [[u|s] st1].
  - rewrite watchLoop_compacted by exact Hc.
    destruct (watchLoop w pre st1) as [[u'|s] st2]; [reflexivity|].
    specialize (Hfatal s st2 eq_refl).
    destruct s as [[e|]|c e|m]; try reflexivity. destruct Hfatal.
  - specialize (Hfatal s st1 eq_refl).
    destruct s as [[e|]|c e|m]; try reflexivity. destruct Hfatal.
Qed.

(** C6: when a watch response carries a non-zero compact revision, the run
    has exactly the effects of the run on the watch stream cut just before
    that response: no transaction is sent for an event of the signalling
    response or of a later one, and the counter stops where it was.  If the
    responses before the signal were processed without a fatal error, the
    command exits with [rpctypes.ErrCompacted]; otherwise it had already
    ended, with the same earlier error or panic as the run on the cut
    stream. *)
Theorem compaction_ends_run
        (w : World) (g : Globals) (args : list string)
        (pre post : list WatchResponse) (wr : WatchResponse)
        (Hw : watchResponses w = pre ++ wr :: post)
        (Hc : CompactRevision wr <> 0) :
  snd (runCommand w g args) = snd (runCommand (withWatch w pre) g args) /\
  (fst (runCommand (withWatch w pre) g args) = Halt (Exit ExitError None) ->
   fst (runCommand w g args) = Halt (Exit ExitError (Some ErrCompacted))) /\
  (fst (runCommand (withWatch w pre) g args) <> Halt (Exit ExitError None) ->
   fst (runCommand w g args) = fst (runCommand (withWatch w pre) g args)).
Proof.
  rewrite !runCommand_eq.
  destruct (negb (len args =? 1)).
  { cbn [fst snd]. split; [reflexivity|]. split; [discriminate | reflexivity]. }
  change (authDestCfg (withWatch w pre)) with (authDestCfg w).
  destruct (authDestCfg_cases w g) as [(auth & p & -> & _) | (err & ->)].
  - rewrite (makeMirror_compacted w pre post wr _ Hw Hc).
    destruct (makeMirror (withWatch w pre) _) as [[[e|]|s] st2] eqn:Hm;
      cbn [fst snd].
    + split; [reflexivity|]. split; [discriminate | reflexivity].
    + split; [reflexivity|]. split; [reflexivity | congruence].
    + split; [reflexivity|]. split; [|reflexivity].
      intros H. apply makeMirror_fatal in Hm. inversion H; subst s. destruct Hm.
  - cbn [fst snd]. split; [reflexivity|]. split; [discriminate | reflexivity].
Qed.

(** C6, the theorem on a stream whose second response is compacted: the
    command exits with the compaction error and only the transaction of the
    first response has been sent. *)
Lemma compaction_ends_run_witness :
  fst (runCommand (sourceA watchCompacted) (flagsAB 128 2) ["10.0.0.2:2379"%string])
  = Halt (Exit ExitError (Some ErrCompacted)) /\
  txnsOf (trace (snd (runCommand (sourceA watchCompacted) (flagsAB 128 2)
                        ["10.0.0.2:2379"%string])))
  = [[OpPut "/b/1" "x"]].
Proof.
  destruct (compaction_ends_run
              (sourceA watchCompacted) (flagsAB 128 2) ["10.0.0.2:2379"%string]
              [mkWatchResponse 0 [ev_a1]]
              [mkWatchResponse 0 [put "/a/3" "z" 11]]
              (mkWatchResponse 9 [put "/a/2" "y" 10])
              eq_refl ltac:(discriminate)) as (H1 & H2 & _).
  split.
  - apply H2. vm_compute. reflexivity.
  - rewrite H1. vm_compute. reflexivity.
Defined.

(* ------------------------------------------------------------------ *)
(** *** Unexpected event kinds *)

(** The iteration for an event of unknown kind never completes: it panics,
    unless one of the two flushes before the switch was refused, in which
    case the refusal is returned. *)
Lemma eventStep_unknown_kind (w : World) ls ev st :
  validKind ev = false ->
  exists s st',
    eventStep w ls ev st = (Halt s, st') /\
    (s = Panic "unexpected event type" \/
     exists n e, dstReply w n = Some e /\ s = Return (Some e)).
Proof.
  intros Hk. unfold validKind in Hk. apply orb_false_elim in Hk as [Hp Hd].
  destruct ls as [lastRev ops]. unfold eventStep, bind, getVars, commit, ret.
  rewrite Hp, Hd.
  destruct (negb (lastRev =? 0) && (ModRevision (Kv ev) >? lastRev)).
  - destruct (dstReply w (dstCalls (trace st))) eqn:H1; [eauto 8|].
    cbn [vars total trace].
    match goal with |- context [if ?b then _ else _] => destruct b end.
    + match goal with |- context [dstReply w ?n] => destruct (dstReply w n) eqn:H2 end;
        [eauto 8|]. unfold panic, halt. eauto.
    + unfold panic, halt. eauto.
  - match goal with |- context [if ?b then _ else _] => destruct b end.
    + destruct (dstReply w (dstCalls (trace st))) eqn:H1; [eauto 8|].
      unfold panic, halt. eauto.
    + unfold panic, halt. eauto.
Qed.

Lemma eventsLoop_unknown_kind (w : World) evs :
  (exists ev, In ev evs /\ validKind ev = false) ->
  forall ls st, exists s st', eventsLoop w evs ls st = (Halt s, st').
Proof.
  unfold eventsLoop. induction evs as [|x evs IH]; intros (ev & Hin & Hk) ls st.
  - destruct Hin.
  - simpl. unfold bind.
    destruct (validKind x) eqn:Hx.
    + destruct Hin as [->|Hin]; [congruence|].
      destruct (eventStep w ls x st) as [[ls'|s] st']; [|eauto].
      apply IH. eauto.
    + destruct (eventStep_unknown_kind w ls x st Hx) as (s & st' & -> & _). eauto.
Qed.

Lemma watchLoop_unknown_kind (w : World) wrs :
  (exists wr ev, In wr wrs /\ In ev (Events wr) /\ validKind ev = false) ->
  forall st, exists s st', watchLoop w wrs st = (Halt s, st').
Proof.
  unfold watchLoop. induction wrs as [|x wrs IH]; intros (wr & ev & Hin & Hev & Hk) st.
  - destruct Hin.
  - simpl. unfold bind.
    destruct (watchBody w x st) as [[u|s] st'] eqn:Hx; [|eauto].
    destruct Hin as [->|Hin]; [|apply IH; eauto].
    exfalso. revert Hx. unfold watchBody.
    destruct (negb (CompactRevision wr =? 0)); [discriminate|].
    unfold bind.
    destruct (eventsLoop_unknown_kind w (Events wr) (ex_intro _ ev (conj Hev Hk))
                (0, []) st) as (s & st2 & ->).
    discriminate.
Qed.

Lemma validKind_false (ev : Event) :
  Type_ ev <> PUT -> Type_ ev <> DELETE -> validKind ev = false.
Proof.
  intros Hp Hd. unfold validKind.
  apply Z.eqb_neq in Hp. apply Z.eqb_neq in Hd. rewrite Hp, Hd. reflexivity.
Qed.

Lemma makeMirrorBody_unknown_kind (w : World) :
  (exists wr ev, In wr (watchResponses w) /\ In ev (Events wr) /\ validKind ev = false) ->
  forall st, exists s st', makeMirrorBody w st = (Halt s, st') /\ fatal s.
Proof.
  intros Hbad st.
  destruct (makeMirrorBody w st) as [[u|s] st'] eqn:Hb.
  - exfalso. rewrite makeMirrorBody_split in Hb. unfold bind in Hb.
    destruct (beforeWatch w st) as [[u'|s] st1]; [|discriminate].
    destruct (watchLoop_unknown_kind w _ Hbad st1) as (s & st2 & Hs).
    rewrite Hs in Hb. discriminate.
  - exists s, st'. split; [reflexivity|]. eapply makeMirrorBody_fatal. exact Hb.
Qed.

(** How the command ends, from how the statements of [makeMirror] end. *)
Lemma runCommand_of_body (w : World) (g : Globals) (args : list string)
      auth st1 r st2 :
  len args = 1 ->
  authDestCfg w (initState g) = (Next auth, st1) ->
  makeMirrorBody w
    (mkState (vars st1) 0
       (trace st1 ++ [EvMustClient (nth 0 args EmptyString) auth;
                      EvMustClientFromCmd])) = (r, st2) ->
  runCommand w g args
  = (match r with
     | Next _ => Halt (Exit ExitError None)
     | Halt (Return e) => Halt (Exit ExitError e)
     | Halt s => Halt s
     end, st2).
Proof.
  intros Hargs Hauth Hbody. rewrite runCommand_eq.
  apply Z.eqb_eq in Hargs. rewrite Hargs. cbn [negb]. rewrite Hauth.
  unfold makeMirror, call. cbn [vars trace]. rewrite Hbody.
  destruct r as [u|[e|c e|m]]; reflexivity.
Qed.

(** C7: when some watch response carries an event whose kind is neither PUT
    nor DELETE, the command never completes normally: it ends either with
    the panic "unexpected event type" or with an error that stopped the run
    before that event was reached.  Nothing on the way catches or rewrites
    the failure: when the statements of [makeMirror] panic, the command
    ends with that very panic, and when they return an error, the command
    exits with that very error, in both cases in the state the failure
    left.  The iteration that meets the event never completes; it panics
    unless a flush before the switch was refused by the destination. *)
Theorem unexpected_event_kind_aborts
        (w : World) (g : Globals) (args : list string)
        (Hbad : exists wr ev, In wr (watchResponses w) /\ In ev (Events wr) /\
                              Type_ ev <> PUT /\ Type_ ev <> DELETE) :
  (fst (runCommand w g args) = Halt (Panic "unexpected event type") \/
   exists code err, fst (runCommand w g args) = Halt (Exit code (Some err))) /\
  (forall auth st1 st2,
      len args = 1 ->
      authDestCfg w (initState g) = (Next auth, st1) ->
      (forall msg,
          makeMirrorBody w
            (mkState (vars st1) 0
               (trace st1 ++ [EvMustClient (nth 0 args EmptyString) auth;
                              EvMustClientFromCmd])) = (Halt (Panic msg), st2) ->
          runCommand w g args = (Halt (Panic msg), st2)) /\
      (forall err,
          makeMirrorBody w
            (mkState (vars st1) 0
               (trace st1 ++ [EvMustClient (nth 0 args EmptyString) auth;
                              EvMustClientFromCmd])) = (Halt (Return (Some err)), st2) ->
          runCommand w g args = (Halt (Exit ExitError (Some err)), st2))) /\
  (forall ls ev st,
      Type_ ev <> PUT -> Type_ ev <> DELETE ->
      exists s st',
        eventStep w ls ev st = (Halt s, st') /\
        (s = Panic "unexpected event type" \/
         exists n e, dstReply w n = Some e /\ s = Return (Some e))).
Proof.
  split; [|split].
  - assert (Hbad' : exists wr ev, In wr (watchResponses w) /\ In ev (Events wr) /\
                                  validKind ev = false).
    { destruct Hbad as (wr & ev & H1 & H2 & H3 & H4).
      exists wr, ev. auto using validKind_false. }
    rewrite runCommand_eq.
    destruct (negb (len args =? 1)); [right; cbn [fst]; eauto|].
    destruct (authDestCfg_cases w g) as [(auth & p & -> & _) | (err & ->)];
      [|right; cbn [fst]; eauto].
    unfold makeMirror, call. cbn [vars trace].
    match goal with |- context [makeMirrorBody w ?st] =>
      destruct (makeMirrorBody_unknown_kind w Hbad' st) as (s & st' & -> & Hf) end.
    destruct s as [[e|]|c [e|]|m]; cbn [fst]; simpl in Hf; try destruct Hf;
      [right; eauto | right; eauto | left; reflexivity].
  - intros auth st1 st2 Hargs Hauth. split.
    + intros msg Hb. rewrite (runCommand_of_body w g args _ _ _ _ Hargs Hauth Hb).
      reflexivity.
    + intros err Hb. rewrite (runCommand_of_body w g args _ _ _ _ Hargs Hauth Hb).
      reflexivity.
  - intros ls ev st Hp Hd. apply eventStep_unknown_kind.
    apply validKind_false; assumption.
Qed.

(** C7, the theorem on a stream whose second event has kind 7 and a new
    revision: the pending operation of the first event is flushed, then the
    command panics; the third event is never turned into an operation. *)
Lemma unexpected_event_kind_aborts_witness :
  fst (runCommand (sourceA watchUnknown) (flagsAB 128 2) ["10.0.0.2:2379"%string])
  = Halt (Panic "unexpected event type") /\
  txnsOf (trace (snd (runCommand (sourceA watchUnknown) (flagsAB 128 2)
                        ["10.0.0.2:2379"%string]))) = [[OpPut "/b/1" "x"]].
Proof.
  pose proof (unexpected_event_kind_aborts
                (sourceA watchUnknown) (flagsAB 128 2) ["10.0.0.2:2379"%string]) as H.
  assert (Hbad : exists wr ev,
             In wr (watchResponses (sourceA watchUnknown)) /\ In ev (Events wr) /\
             Type_ ev <> PUT /\ Type_ ev <> DELETE).
  { exists (mkWatchResponse 0 [ev_a1; ev_unknown; put "/a/3" "z" 11]), ev_unknown.
    split; [left; reflexivity|]. split; [right; left; reflexivity|].
    split; discriminate. }
  destruct (H Hbad) as ([Hp | (c & e & He)] & _).
  - split; [exact Hp | vm_compute; reflexivity].
  - exfalso. revert He. vm_compute. discriminate.
Defined.

(* ------------------------------------------------------------------ *)
(** ** The progress counter *)

Lemma int64_wrap_succ (a : Z) : int64_wrap (int64_wrap a + 1) = int64_wrap (a + 1).
Proof.
  unfold int64_wrap.
  replace ((a + 2 ^ 63) mod 2 ^ 64 - 2 ^ 63 + 1 + 2 ^ 63)
    with ((a + 2 ^ 63) mod 2 ^ 64 + 1) by lia.
  replace (a + 1 + 2 ^ 63) with ((a + 2 ^ 63) + 1) by lia.
  rewrite (Z.add_mod (a + 2 ^ 63) 1) by lia.
  rewrite (Z.add_mod ((a + 2 ^ 63) mod 2 ^ 64) 1) by lia.
  rewrite Z.mod_mod by lia. reflexivity.
Qed.

Lemma int64_wrap_add (a k : Z) :
  0 <= k -> int64_wrap (int64_wrap a + k) = int64_wrap (a + k).
Proof.
  intros Hk. unfold int64_wrap.
  replace ((a + 2 ^ 63) mod 2 ^ 64 - 2 ^ 63 + k + 2 ^ 63)
    with ((a + 2 ^ 63) mod 2 ^ 64 + k) by lia.
  replace (a + k + 2 ^ 63) with ((a + 2 ^ 63) + k) by lia.
  rewrite (Z.add_mod (a + 2 ^ 63) k) by lia.
  rewrite (Z.add_mod ((a + 2 ^ 63) mod 2 ^ 64) k) by lia.
  rewrite Z.mod_mod by lia. reflexivity.
Qed.

Lemma int64_wrap_id (z : Z) : is_int64 z -> int64_wrap z = z.
Proof.
  unfold is_int64, max_int64, int64_wrap. intros H.
  rewrite Z.mod_small by lia. lia.
Qed.

Lemma is_int64_wrap (z : Z) : is_int64 (int64_wrap z).
Proof.
  unfold is_int64, max_int64, int64_wrap.
  pose proof (Z.mod_pos_bound (z + 2 ^ 63) (2 ^ 64) ltac:(lia)). lia.
Qed.

Lemma counterAt_snoc tr e :
  counterAt (tr ++ [e])
  = match e with EvAddTotal n => n | _ => counterAt tr end.
Proof. unfold counterAt. rewrite fold_left_app. reflexivity. Qed.

Lemma countIf_snoc f tr e :
  countIf f (tr ++ [e]) = countIf f tr + (if f e then 1 else 0).
Proof.
  unfold countIf, len. rewrite filter_app, List.length_app. simpl.
  destruct (f e); simpl; lia.
Qed.

Lemma midStep_snoc tr e : midStep (tr ++ [e]) = isOkPut e || isAppend e.
Proof. unfold midStep. rewrite rev_app_distr. reflexivity. Qed.

Lemma Counted_nil : Counted [].
Proof.
  intros p q H. symmetry in H. apply app_eq_nil in H as [-> _]. reflexivity.
Qed.

Lemma Counted_snoc tr e :
  Counted tr ->
  counterAt (tr ++ [e]) = int64_wrap (expectedCount (tr ++ [e])) ->
  Counted (tr ++ [e]).
Proof.
  intros Htr He p q Heq.
  destruct q as [|x q'] using rev_ind.
  - rewrite app_nil_r in Heq. subst p. exact He.
  - clear IHq'. rewrite app_assoc in Heq. apply app_inj_tail in Heq as [Heq _].
    apply (Htr p q'). exact Heq.
Qed.

(** An effect that is neither an accepted Put, nor an append, nor an
    increment leaves the counter invariant alone. *)
Lemma CounterInv_neutral st e :
  isOkPut e = false -> isAppend e = false -> isAdd e = false ->
  CounterInv st ->
  CounterInv (mkState (vars st) (total st) (trace st ++ [e])).
Proof.
  intros H1 H2 H3 (Ht & Hm & Hc).
  assert (Hcnt : counterAt (trace st ++ [e]) = counterAt (trace st)).
  { rewrite counterAt_snoc. destruct e; try reflexivity. discriminate. }
  unfold CounterInv. cbn [total trace]. split; [|split].
  - rewrite Hcnt. exact Ht.
  - rewrite midStep_snoc, H1, H2. reflexivity.
  - apply Counted_snoc; [exact Hc|]. rewrite Hcnt.
    rewrite (Hc (trace st) [] (eq_sym (app_nil_r _))).
    unfold expectedCount. rewrite !countIf_snoc, midStep_snoc, H1, H2, Hm.
    cbn [orb]. f_equal. lia.
Qed.

(** An accepted Put or an append, followed by the increment. *)
Lemma CounterInv_counted st e :
  isOkPut e || isAppend e = true -> isAdd e = false ->
  isOkPut e && isAppend e = false ->
  CounterInv st ->
  CounterInv (mkState (vars st) (int64_wrap (total st + 1))
                (trace st ++ [e; EvAddTotal (int64_wrap (total st + 1))])).
Proof.
  intros H1 H3 H4 (Ht & Hm & Hc).
  pose proof (Hc (trace st) [] (eq_sym (app_nil_r _))) as Hfull.
  unfold expectedCount in Hfull. rewrite Hm in Hfull.
  assert (Hcnt : counterAt (trace st ++ [e]) = counterAt (trace st)).
  { rewrite counterAt_snoc. destruct e; try reflexivity. discriminate. }
  assert (Hone : (if isOkPut e then 1 else 0) + (if isAppend e then 1 else 0) = 1).
  { destruct (isOkPut e), (isAppend e); try discriminate; reflexivity. }
  replace (trace st ++ [e; EvAddTotal (int64_wrap (total st + 1))])
    with ((trace st ++ [e]) ++ [EvAddTotal (int64_wrap (total st + 1))])
    by (rewrite <- app_assoc; reflexivity).
  unfold CounterInv. cbn [total trace]. split; [|split].
  - rewrite counterAt_snoc. reflexivity.
  - rewrite midStep_snoc. reflexivity.
  - apply Counted_snoc; [apply Counted_snoc; [exact Hc|]|].
    + rewrite Hcnt, Hfull. unfold expectedCount.
      rewrite !countIf_snoc, midStep_snoc, H1. f_equal. lia.
    + rewrite counterAt_snoc, Ht, Hfull, int64_wrap_succ. unfold expectedCount.
      rewrite !countIf_snoc, midStep_snoc. cbn [isOkPut isAppend orb].
      f_equal. lia.
Qed.

Section Counter.

Variable w : World.

Let T : Signal -> Prop := fun _ => True.

Lemma counter_setup e : isSetup e = true -> invariant CounterInv T (emit e).
Proof.
  intros He st H. unfold emit.
  apply CounterInv_neutral; [destruct e; try reflexivity; discriminate ..| exact H].
Qed.

Lemma counter_commit ops : invariant CounterInv T (commit w ops).
Proof.
  intros st H. unfold commit.
  destruct (dstReply w (dstCalls (trace st))) as [e|];
    [split; [|exact I]|]; apply CounterInv_neutral; auto.
Qed.

Lemma counter_putKv kv : invariant CounterInv T (putKv w kv).
Proof.
  intros st H. unfold putKv, bind, getVars, dcPut, addTotal.
  destruct (dstReply w (dstCalls (trace st))) as [e|].
  - split; [|exact I]. apply CounterInv_neutral; auto.
  - cbn [vars total trace]. rewrite <- app_assoc.
    apply (CounterInv_counted st (EvPut _ _ None)); auto.
Qed.

Lemma counter_classify op : invariant CounterInv T (emit (EvAppend op) ;; addTotal).
Proof.
  intros st H. unfold bind, emit, addTotal. cbn [vars total trace].
  rewrite <- app_assoc. apply (CounterInv_counted st (EvAppend op)); auto.
Qed.

Lemma counter_setDestPrefix p : invariant CounterInv T (setDestPrefix p).
Proof. intros st H. exact H. Qed.

Lemma counter_makeMirrorBody : invariant CounterInv T (makeMirrorBody w).
Proof.
  apply invariant_makeMirrorBody;
    auto using counter_setup, counter_commit, counter_putKv, counter_classify,
               counter_setDestPrefix; intros; exact I.
Qed.

(** The invariant holds in the final state of every run of the command. *)
Lemma counter_runCommand g args : CounterInv (snd (runCommand w g args)).
Proof.
  assert (H0 : forall pre,
             pre = [] \/ pre = [EvAsk "Destination Password: "] ->
             CounterInv (mkState g 0 pre)).
  { intros pre [-> | ->]; (split; [reflexivity|]; split; [reflexivity|]).
    - apply Counted_nil.
    - apply (Counted_snoc [] _ Counted_nil). reflexivity. }
  rewrite runCommand_eq.
  destruct (negb (len args =? 1)); [apply H0; auto|].
  destruct (authDestCfg_cases w g) as [(auth & pre & -> & Hpre) | (err & ->)];
    [|apply H0; auto].
  unfold makeMirror, call. cbn [vars total trace].
  assert (H1 : CounterInv
                 (mkState g 0 (pre ++ [EvMustClient (nth 0 args EmptyString) auth;
                                       EvMustClientFromCmd]))).
  { replace (pre ++ [EvMustClient (nth 0 args EmptyString) auth; EvMustClientFromCmd])
      with ((pre ++ [EvMustClient (nth 0 args EmptyString) auth]) ++ [EvMustClientFromCmd])
      by (rewrite <- app_assoc; reflexivity).
    apply (CounterInv_neutral (mkState g 0 _)); auto.
    apply (CounterInv_neutral (mkState g 0 _)); auto. }
  pose proof (counter_makeMirrorBody _ H1) as H.
  destruct (makeMirrorBody w _) as [[u|[e|c e|m]] st']; cbn [snd];
    first [exact H | exact (proj1 H)].
Qed.

Lemma putsOf_app tr1 tr2 : putsOf (tr1 ++ tr2) = putsOf tr1 ++ putsOf tr2.
Proof.
  induction tr1 as [|e tr1 IH]; [reflexivity|].
  destruct e; simpl; rewrite IH; reflexivity.
Qed.

Lemma putKv_accepting (Hacc : accepting w) kv st :
  putKv w kv st
  = (Next tt,
     mkState (vars st) (int64_wrap (total st + 1))
       (trace st ++ [EvPut (modifyPrefix (vars st) (Key kv)) (Value kv) None;
                     EvAddTotal (int64_wrap (total st + 1))])).
Proof.
  unfold putKv, bind, getVars, dcPut, addTotal. rewrite Hacc.
  cbn [vars total trace]. rewrite <- app_assoc. reflexivity.
Qed.

Lemma putKvs_accepting (Hacc : accepting w) kvs st :
  is_int64 (total st) ->
  exists st',
    forEach kvs (putKv w) st = (Next tt, st') /\
    vars st' = vars st /\
    putsOf (trace st')
    = putsOf (trace st)
      ++ map (fun kv => (modifyPrefix (vars st) (Key kv), Value kv)) kvs /\
    total st' = int64_wrap (total st + len kvs).
Proof.
  revert st. induction kvs as [|kv kvs IH]; intros st Hrange.
  - exists st. simpl. rewrite app_nil_r, Z.add_0_r, int64_wrap_id by exact Hrange.
    repeat split; reflexivity.
  - simpl. unfold bind. rewrite putKv_accepting by exact Hacc.
    match goal with |- context [forEach kvs (putKv w) ?st1] =>
      destruct (IH st1) as (st' & Hrun & Hv & Hp & Ht) end.
    { cbn [total]. apply is_int64_wrap. }
    exists st'. cbn [vars total trace] in *. split; [exact Hrun|].
    split; [exact Hv|]. split.
    + rewrite Hp, putsOf_app, <- app_assoc. reflexivity.
    + rewrite Ht, int64_wrap_add by (unfold len; lia). f_equal.
      unfold len. simpl List.length. lia.
Qed.

(** With an accepting destination, the base synchronisation sends one Put
    for each pair of each chunk, in order, and adds one to the counter for
    each. *)
Lemma snapshotLoop_accepting (Hacc : accepting w) chunks st :
  is_int64 (total st) ->
  exists st',
    snapshotLoop w chunks st = (Next tt, st') /\
    vars st' = vars st /\
    putsOf (trace st')
    = putsOf (trace st)
      ++ map (fun kv => (modifyPrefix (vars st) (Key kv), Value kv)) (allKvs chunks) /\
    total st' = int64_wrap (total st + len (allKvs chunks)).
Proof.
  unfold snapshotLoop, allKvs.
  revert st. induction chunks as [|r chunks IH]; intros st Hrange.
  - exists st. simpl. rewrite app_nil_r, Z.add_0_r, int64_wrap_id by exact Hrange.
    repeat split; reflexivity.
  - simpl. unfold bind.
    destruct (putKvs_accepting Hacc (Kvs r) st Hrange) as (st1 & -> & Hv1 & Hp1 & Ht1).
    destruct (IH st1) as (st' & Hrun & Hv & Hp & Ht).
    { rewrite Ht1. apply is_int64_wrap. }
    exists st'. split; [exact Hrun|]. split; [congruence|]. split.
    + rewrite Hp, Hp1, Hv1, map_app, <- app_assoc. reflexivity.
    + rewrite Ht, Ht1, int64_wrap_add by (unfold len; lia). f_equal.
      unfold len. rewrite List.length_app. lia.
Qed.

End Counter.

(* ------------------------------------------------------------------ *)
(** ** One iteration of the event loop *)

Lemma txnsOf_app tr1 tr2 : txnsOf (tr1 ++ tr2) = txnsOf tr1 ++ txnsOf tr2.
Proof.
  induction tr1 as [|e tr1 IH]; [reflexivity|].
  destruct e; simpl; rewrite IH; reflexivity.
Qed.

Lemma committedOf_app tr1 tr2 :
  committedOf (tr1 ++ tr2) = committedOf tr1 ++ committedOf tr2.
Proof.
  induction tr1 as [|e tr1 IH]; [reflexivity|].
  destruct e as [| | | | | | |ops [err|] | |]; simpl; rewrite IH; reflexivity.
Qed.

(** A guarded flush. *)
Lemma flush_eq (w : World) (b : bool) (ops : list Op) (st : State) :
  (if b then commit w ops ;; ret [] else ret ops) st
  = if b
    then match dstReply w (dstCalls (trace st)) with
         | Some e => (Halt (Return (Some e)), logged st (EvTxn ops (Some e)))
         | None => (Next [], logged st (EvTxn ops None))
         end
    else (Next ops, st).
Proof.
  destruct b; [|reflexivity]. unfold bind, commit, logged.
  destruct (dstReply w (dstCalls (trace st))); reflexivity.
Qed.

(** The switch on the kind of the event. *)
Lemma classify_eq (g : Globals) (ev : Event) (lastRev : Z) (ops : list Op) (st : State) :
  (if Type_ ev =? PUT then
     emit (EvAppend (OpPut (modifyPrefix g (Key (Kv ev))) (Value (Kv ev)))) ;;
     addTotal ;;
     ret (lastRev, ops ++ [OpPut (modifyPrefix g (Key (Kv ev))) (Value (Kv ev))])
   else if Type_ ev =? DELETE then
     emit (EvAppend (OpDelete (modifyPrefix g (Key (Kv ev))))) ;;
     addTotal ;;
     ret (lastRev, ops ++ [OpDelete (modifyPrefix g (Key (Kv ev)))])
   else panic "unexpected event type") st
  = if validKind ev
    then (Next (lastRev, ops ++ [opOf g ev]),
          mkState (vars st) (int64_wrap (total st + 1))
            (trace st ++ [EvAppend (opOf g ev);
                          EvAddTotal (int64_wrap (total st + 1))]))
    else (Halt (Panic "unexpected event type"), st).
Proof.
  unfold validKind, opOf, bind, emit, addTotal, ret, panic, halt.
  destruct (Type_ ev =? PUT); [|destruct (Type_ ev =? DELETE)];
    cbn [orb vars total trace]; try rewrite <- app_assoc; reflexivity.
Qed.

Lemma eventStep_eq (w : World) lastRev ops ev st :
  eventStep w (lastRev, ops) ev st
  = match (if boundary lastRev ev then commit w ops ;; ret [] else ret ops) st with
    | (Next ops1, st1) =>
        match (if full (vars st1) ops1 then commit w ops1 ;; ret [] else ret ops1) st1 with
        | (Next ops2, st2) =>
            if validKind ev
            then (Next (revOf ev, ops2 ++ [opOf (vars st1) ev]),
                  mkState (vars st2) (int64_wrap (total st2 + 1))
                    (trace st2 ++ [EvAppend (opOf (vars st1) ev);
                                   EvAddTotal (int64_wrap (total st2 + 1))]))
            else (Halt (Panic "unexpected event type"), st2)
        | (Halt s, st2) => (Halt s, st2)
        end
    | (Halt s, st1) => (Halt s, st1)
    end.
Proof.
  unfold eventStep. unfold bind at 1.
  change (negb (lastRev =? 0) && (ModRevision (Kv ev) >? lastRev))
    with (boundary lastRev ev).
  destruct ((if boundary lastRev ev then commit w ops ;; ret [] else ret ops) st)
    as [[ops1|s] st1]; [|reflexivity].
  unfold bind at 1, getVars. unfold bind at 1.
  change (len ops1 =? int_of_uint (mmmaxTxnOps (vars st1))) with (full (vars st1) ops1).
  destruct ((if full (vars st1) ops1 then commit w ops1 ;; ret [] else ret ops1) st1)
    as [[ops2|s] st2]; [|reflexivity].
  apply classify_eq.
Qed.

(** Every iteration ends in one of the four ways of [stepOutcome]; it
    leaves the package variables alone and only adds to the trace. *)
Lemma eventStep_outcome (w : World) lastRev ops ev st :
  exists seg,
    stepOutcome w (vars st) lastRev ops ev seg (fst (eventStep w (lastRev, ops) ev st)) /\
    trace (snd (eventStep w (lastRev, ops) ev st)) = trace st ++ seg /\
    vars (snd (eventStep w (lastRev, ops) ev st)) = vars st.
Proof.
  rewrite eventStep_eq, flush_eq.
  destruct (boundary lastRev ev) eqn:Hb.
  - destruct (dstReply w (dstCalls (trace st))) as [e|] eqn:Hr1.
    + eexists. split; [|split; reflexivity]. cbn [fst].
      eapply step_refused_boundary; eassumption.
    + rewrite flush_eq. cbn [logged vars total trace].
      destruct (full (vars st) []) eqn:Hf.
      * match goal with |- context [dstReply w ?n] =>
          destruct (dstReply w n) as [e|] eqn:Hr2 end.
        { eexists. cbn [fst snd logged vars trace].
          split; [|split; [rewrite <- app_assoc|]; reflexivity].
          pose proof (fun n => step_refused_full w (vars st) lastRev ops ev e n) as H.
          unfold afterBoundary in H. rewrite Hb in H. eapply H; [exact Hf | exact Hr2]. }
        destruct (validKind ev) eqn:Hk; eexists; cbn [fst snd logged vars trace];
          (split; [|split; [rewrite <- !app_assoc|]; reflexivity]).
        { pose proof (step_next w (vars st) lastRev ops ev
                        (int64_wrap (total st + 1)) Hk) as H.
          unfold flushEffects, pendingAfter, afterFull, afterBoundary in H.
          rewrite Hb, Hf in H. cbn [app] in *. exact H. }
        { pose proof (step_panic w (vars st) lastRev ops ev Hk) as H.
          unfold flushEffects, afterBoundary in H. rewrite Hb, Hf in H. exact H. }
      * destruct (validKind ev) eqn:Hk; eexists; cbn [fst snd logged vars trace];
          (split; [|split; [rewrite <- ?app_assoc|]; reflexivity]).
        { pose proof (step_next w (vars st) lastRev ops ev
                        (int64_wrap (total st + 1)) Hk) as H.
          unfold flushEffects, pendingAfter, afterFull, afterBoundary in H.
          rewrite Hb, Hf in H. cbn [app] in *. exact H. }
        { pose proof (step_panic w (vars st) lastRev ops ev Hk) as H.
          unfold flushEffects, afterBoundary in H. rewrite Hb, Hf in H. exact H. }
  - rewrite flush_eq.
    destruct (full (vars st) ops) eqn:Hf.
    + destruct (dstReply w (dstCalls (trace st))) as [e|] eqn:Hr2.
      { eexists. cbn [fst snd logged vars trace].
        split; [|split; reflexivity].
        pose proof (fun n => step_refused_full w (vars st) lastRev ops ev e n) as H.
        unfold afterBoundary in H. rewrite Hb in H. eapply H; [exact Hf | exact Hr2]. }
      destruct (validKind ev) eqn:Hk; eexists; cbn [fst snd logged vars trace];
        (split; [|split; [rewrite <- ?app_assoc|]; reflexivity]).
      { pose proof (step_next w (vars st) lastRev ops ev
                      (int64_wrap (total st + 1)) Hk) as H.
        unfold flushEffects, pendingAfter, afterFull, afterBoundary in H.
        rewrite Hb, Hf in H. cbn [app] in *. exact H. }
      { pose proof (step_panic w (vars st) lastRev ops ev Hk) as H.
        unfold flushEffects, afterBoundary in H. rewrite Hb, Hf in H. exact H. }
    + destruct (validKind ev) eqn:Hk.
      { eexists. cbn [fst snd logged vars trace]. split; [|split; reflexivity].
        pose proof (step_next w (vars st) lastRev ops ev
                      (int64_wrap (total st + 1)) Hk) as H.
        unfold flushEffects, pendingAfter, afterFull, afterBoundary in H.
        rewrite Hb, Hf in H. cbn [app] in *. exact H. }
      { exists []. cbn [fst snd]. split; [|split; [rewrite app_nil_r|]; reflexivity].
        pose proof (step_panic w (vars st) lastRev ops ev Hk) as H.
        unfold flushEffects, afterBoundary in H. rewrite Hb, Hf in H. exact H. }
Qed.

(* ------------------------------------------------------------------ *)
(** ** Transactions never span two watch responses *)

Lemma committedOf_flushEffects g lastRev ops ev :
  committedOf (flushEffects g lastRev ops ev) = flushTxns g lastRev ops ev.
Proof.
  unfold flushEffects, flushTxns.
  destruct (boundary lastRev ev), (full g (afterBoundary lastRev ops ev)); reflexivity.
Qed.

Lemma txnsOf_flushEffects g lastRev ops ev :
  txnsOf (flushEffects g lastRev ops ev) = flushTxns g lastRev ops ev.
Proof.
  unfold flushEffects, flushTxns.
  destruct (boundary lastRev ev), (full g (afterBoundary lastRev ops ev)); reflexivity.
Qed.

(** The flushes of an iteration move operations from [ops] to the
    destination without losing or reordering any. *)
Lemma flushTxns_concat g lastRev ops ev :
  List.concat (flushTxns g lastRev ops ev) ++ afterFull g (afterBoundary lastRev ops ev)
  = ops.
Proof.
  unfold flushTxns, afterFull, afterBoundary.
  destruct (boundary lastRev ev).
  - destruct (full g []); simpl; rewrite ?app_nil_r; reflexivity.
  - destruct (full g ops); simpl; rewrite ?app_nil_r; reflexivity.
Qed.

(** The invariant of the event loop: the operations of the events visited
    so far are, in order, those of the transactions accepted since the
    response began followed by the pending ones. *)
Lemma eventsLoop_groups (w : World) (g : Globals) (C0 : list (list Op)) evs :
  forall done lastRev ops st,
    vars st = g ->
    (exists grp, committedOf (trace st) = C0 ++ grp /\
                 List.concat grp ++ ops = map (opOf g) done) ->
    vars (snd (eventsLoop w evs (lastRev, ops) st)) = g /\
    exists grp,
      committedOf (trace (snd (eventsLoop w evs (lastRev, ops) st))) = C0 ++ grp /\
      match fst (eventsLoop w evs (lastRev, ops) st) with
      | Next ls => List.concat grp ++ snd ls = map (opOf g) (done ++ evs)
      | Halt _ => exists rest, List.concat grp ++ rest = map (opOf g) (done ++ evs)
      end.
Proof.
  unfold eventsLoop.
  induction evs as [|x evs IH]; intros done lastRev ops st Hv (grp & Hc & Hg).
  - simpl. rewrite app_nil_r. split; [exact Hv|]. exists grp. auto.
  - cbn [foldEach]. unfold bind.
    destruct (eventStep_outcome w lastRev ops x st) as (seg & Hout & Htr & Hv1).
    destruct (eventStep w (lastRev, ops) x st) as [r st1]. cbn [fst snd] in *.
    rewrite Hv in Hout.
    inversion Hout; subst seg r; cbn [fst snd].
    + split; [congruence|]. exists grp. split.
      * rewrite Htr, committedOf_app. simpl. rewrite app_nil_r. exact Hc.
      * exists (ops ++ map (opOf g) (x :: evs)).
        rewrite map_app, <- Hg, <- !app_assoc. reflexivity.
    + split; [congruence|].
      exists (grp ++ (if boundary lastRev x then [ops] else [])). split.
      * rewrite Htr, !committedOf_app, Hc, <- app_assoc. f_equal.
        destruct (boundary lastRev x); simpl; reflexivity.
      * exists (afterBoundary lastRev ops x ++ map (opOf g) (x :: evs)).
        rewrite map_app, <- Hg, concat_app, <- !app_assoc. f_equal.
        unfold afterBoundary. destruct (boundary lastRev x); simpl;
          rewrite ?app_nil_r; reflexivity.
    + split; [congruence|].
      exists (grp ++ flushTxns g lastRev ops x). split.
      * rewrite Htr, committedOf_app, Hc, committedOf_flushEffects, <- app_assoc.
        reflexivity.
      * exists (afterFull g (afterBoundary lastRev ops x) ++ map (opOf g) (x :: evs)).
        rewrite map_app, <- Hg, concat_app, <- !app_assoc. f_equal.
        rewrite app_assoc, flushTxns_concat. reflexivity.
    + replace (done ++ x :: evs) with ((done ++ [x]) ++ evs)
        by (rewrite <- app_assoc; reflexivity).
      apply IH; [congruence|].
      exists (grp ++ flushTxns g lastRev ops x). split.
      * rewrite Htr, !committedOf_app, Hc, committedOf_flushEffects, <- app_assoc.
        simpl. rewrite app_nil_r. reflexivity.
      * unfold pendingAfter. rewrite map_app, <- Hg, concat_app, <- !app_assoc.
        f_equal. rewrite app_assoc, flushTxns_concat. reflexivity.
Qed.

(** One watch response: whatever is accepted while it is processed is a
    group of whole transactions taken, in order, from its own events; when
    the loop goes on to the next response, the group holds all of them. *)
Lemma watchBody_groups (w : World) (wr : WatchResponse) (st : State) :
  vars (snd (watchBody w wr st)) = vars st /\
  exists grp,
    committedOf (trace (snd (watchBody w wr st))) = committedOf (trace st) ++ grp /\
    (exists rest, List.concat grp ++ rest = map (opOf (vars st)) (Events wr)) /\
    (fst (watchBody w wr st) = Next tt ->
     List.concat grp = map (opOf (vars st)) (Events wr)).
Proof.
  unfold watchBody. destruct (negb (CompactRevision wr =? 0)).
  - cbn [halt fst snd]. split; [reflexivity|]. exists []. rewrite app_nil_r.
    split; [reflexivity|]. split; [eexists; reflexivity | discriminate].
  - unfold bind.
    destruct (eventsLoop_groups w (vars st) (committedOf (trace st)) (Events wr)
                [] 0 [] st eq_refl) as (Hv & grp & Hc & Hr).
    { exists []. rewrite app_nil_r. split; reflexivity. }
    destruct (eventsLoop w (Events wr) (0, []) st) as [[[l ops]|s] st1];
      cbn [fst snd app] in *.
    + destruct (negb (len ops =? 0)) eqn:Hlen.
      * unfold commit. destruct (dstReply w (dstCalls (trace st1))) as [e|];
          cbn [fst snd vars trace].
        { split; [exact Hv|]. exists grp. rewrite committedOf_app. simpl.
          rewrite app_nil_r. split; [exact Hc|].
          split; [eexists; exact Hr | discriminate]. }
        { split; [exact Hv|]. exists (grp ++ [ops]).
          rewrite committedOf_app, Hc, <- app_assoc. split; [reflexivity|].
          assert (Hall : List.concat (grp ++ [ops]) = map (opOf (vars st)) (Events wr)).
          { rewrite concat_app. simpl. rewrite app_nil_r. exact Hr. }
          split; [exists []; rewrite app_nil_r; exact Hall | intros _; exact Hall]. }
      * cbn [ret fst snd]. split; [exact Hv|]. exists grp. split; [exact Hc|].
        assert (Hops : ops = []).
        { apply negb_false_iff, Z.eqb_eq in Hlen. unfold len in Hlen.
          destruct ops; [reflexivity | simpl in Hlen; lia]. }
        subst ops. rewrite app_nil_r in Hr.
        split; [exists []; rewrite app_nil_r; exact Hr | intros _; exact Hr].
    + split; [exact Hv|]. exists grp. split; [exact Hc|].
      split; [exact Hr | discriminate].
Qed.



(* ------------------------------------------------------------------ *)
(** ** The grouping, event by event *)

Lemma len_nil {A} : len (@nil A) = 0.
Proof. reflexivity. Qed.

Lemma len_app {A} (l1 l2 : list A) : len (l1 ++ l2) = len l1 + len l2.
Proof. unfold len. rewrite List.length_app. lia. Qed.

Lemma len_cons {A} (x : A) (l : list A) : len (x :: l) = len l + 1.
Proof. unfold len. simpl List.length. lia. Qed.

Lemma len_nonneg {A} (l : list A) : 0 <= len l.
Proof. unfold len. lia. Qed.

Lemma len_zero {A} (l : list A) : len l = 0 -> l = [].
Proof. destruct l; [reflexivity | rewrite len_cons; pose proof (len_nonneg l); lia]. Qed.

Lemma len_map {A B} (f : A -> B) (l : list A) : len (map f l) = len l.
Proof. unfold len. rewrite List.length_map. reflexivity. Qed.

(** [int(mmmaxTxnOps)] for a value of type [uint]. *)
Lemma int_of_uint_small (m : Z) : 0 <= m <= max_int64 -> int_of_uint m = m.
Proof.
  intros H. unfold int_of_uint. apply int64_wrap_id.
  unfold is_int64, max_int64 in *. lia.
Qed.

Lemma int_of_uint_large (m : Z) : max_int64 < m <= max_uint64 -> int_of_uint m < 0.
Proof.
  unfold int_of_uint, int64_wrap, max_int64, max_uint64. intros H.
  replace (m + 2 ^ 63) with ((m - 2 ^ 63) + 1 * 2 ^ 64) by lia.
  rewrite Z.mod_add by lia. rewrite Z.mod_small by lia. lia.
Qed.

(** A slice shorter than the limit is never flushed for its size. *)
Lemma full_false g ops :
  len ops < mmmaxTxnOps g <= max_uint64 -> full g ops = false.
Proof.
  intros H. unfold full. apply Z.eqb_neq. pose proof (len_nonneg ops).
  destruct (Z_le_gt_dec (mmmaxTxnOps g) max_int64).
  - rewrite int_of_uint_small by lia. lia.
  - pose proof (int_of_uint_large (mmmaxTxnOps g)). lia.
Qed.

Lemma full_true g ops :
  full g ops = true -> 0 <= mmmaxTxnOps g <= max_uint64 ->
  len ops = mmmaxTxnOps g /\ mmmaxTxnOps g <= max_int64.
Proof.
  unfold full. intros H Hm. apply Z.eqb_eq in H. pose proof (len_nonneg ops).
  destruct (Z_le_gt_dec (mmmaxTxnOps g) max_int64).
  - rewrite int_of_uint_small in H by lia. lia.
  - pose proof (int_of_uint_large (mmmaxTxnOps g)). lia.
Qed.

Lemma boundary_same lastRev ev :
  lastRev = 0 \/ lastRev = revOf ev -> boundary lastRev ev = false.
Proof.
  unfold boundary. intros [-> | ->]; [reflexivity|].
  replace (revOf ev >? revOf ev) with false; [apply andb_false_r|].
  symmetry. rewrite Z.gtb_ltb. apply Z.ltb_irrefl.
Qed.

Lemma boundary_true lastRev ev :
  lastRev <> 0 -> lastRev < revOf ev -> boundary lastRev ev = true.
Proof.
  unfold boundary. intros H0 Hlt. apply Z.eqb_neq in H0. rewrite H0.
  rewrite Z.gtb_ltb. apply Z.ltb_lt in Hlt. rewrite Hlt. reflexivity.
Qed.

Lemma boundary_true_inv lastRev ev :
  boundary lastRev ev = true -> lastRev <> 0 /\ lastRev < revOf ev.
Proof.
  unfold boundary. intros H. apply andb_prop in H as [H0 Hlt].
  apply negb_true_iff, Z.eqb_neq in H0. rewrite Z.gtb_ltb in Hlt.
  apply Z.ltb_lt in Hlt. auto.
Qed.

Lemma boundary_false_inv lastRev ev :
  boundary lastRev ev = false -> lastRev = 0 \/ revOf ev <= lastRev.
Proof.
  unfold boundary. intros H. apply andb_false_iff in H as [H|H].
  - left. apply negb_false_iff, Z.eqb_eq in H. exact H.
  - right. rewrite Z.gtb_ltb in H. apply Z.ltb_ge in H. exact H.
Qed.

Lemma batch_app g a b lastRev ops :
  batch g (a ++ b) lastRev ops
  = (fst (batch g a lastRev ops)
     ++ fst (batch g b (fst (snd (batch g a lastRev ops)))
                       (snd (snd (batch g a lastRev ops)))),
     snd (batch g b (fst (snd (batch g a lastRev ops)))
                    (snd (snd (batch g a lastRev ops))))).
Proof.
  revert lastRev ops. induction a as [|x a IH]; intros lastRev ops.
  - simpl. destruct (batch g b lastRev ops). reflexivity.
  - cbn [app batch fst snd]. rewrite IH. cbn [fst snd].
    rewrite <- app_assoc. reflexivity.
Qed.

(** Grouping neither loses nor reorders operations. *)
Lemma batch_concat g evs lastRev ops :
  List.concat (fst (batch g evs lastRev ops)) ++ snd (snd (batch g evs lastRev ops))
  = ops ++ map (opOf g) evs.
Proof.
  revert lastRev ops. induction evs as [|x evs IH]; intros lastRev ops.
  - simpl. rewrite app_nil_r. reflexivity.
  - cbn [batch fst snd map]. rewrite concat_app, <- app_assoc, IH.
    unfold pendingAfter. rewrite app_assoc, app_assoc, flushTxns_concat.
    rewrite <- app_assoc. reflexivity.
Qed.

(** The revision the loop ends on is that of one of the events. *)
Lemma batch_lastRev g evs lastRev ops :
  evs <> [] ->
  exists ev, In ev evs /\ fst (snd (batch g evs lastRev ops)) = revOf ev.
Proof.
  revert lastRev ops. induction evs as [|x evs IH]; intros lastRev ops H.
  - congruence.
  - cbn [batch fst snd]. destruct evs as [|y evs].
    + exists x. split; [left; reflexivity | reflexivity].
    + destruct (IH (revOf x) (pendingAfter g lastRev ops x)) as (ev & Hin & Hev);
        [discriminate|].
      exists ev. split; [right; exact Hin | exact Hev].
Qed.

(** After at least one event, something is pending. *)
Lemma batch_pending g evs lastRev ops :
  evs <> [] -> snd (snd (batch g evs lastRev ops)) <> [].
Proof.
  revert lastRev ops. induction evs as [|x evs IH]; intros lastRev ops H.
  - congruence.
  - cbn [batch fst snd]. destruct evs as [|y evs].
    + simpl. unfold pendingAfter. intros Heq. apply app_eq_nil in Heq as [_ Heq].
      discriminate.
    + apply IH. discriminate.
Qed.

(** An event of a higher revision first flushes what is pending, then is
    treated as the first event of a response. *)
Lemma batch_boundary g ev evs lastRev ops :
  lastRev <> 0 -> lastRev < revOf ev ->
  batch g (ev :: evs) lastRev ops
  = (ops :: fst (batch g (ev :: evs) 0 []), snd (batch g (ev :: evs) 0 [])).
Proof.
  intros H0 Hlt. cbn [batch fst snd].
  unfold flushTxns, pendingAfter, afterBoundary.
  rewrite (boundary_true _ _ H0 Hlt), (boundary_same 0 ev) by (left; reflexivity).
  reflexivity.
Qed.

Lemma responseTxns_nil g : responseTxns g [] = [].
Proof. reflexivity. Qed.

Lemma responseTxns_pending g evs :
  evs <> [] ->
  responseTxns g evs = fst (batch g evs 0 []) ++ [snd (snd (batch g evs 0 []))].
Proof.
  intros H. unfold responseTxns. pose proof (batch_pending g evs 0 [] H) as Hp.
  destruct (len (snd (snd (batch g evs 0 []))) =? 0) eqn:Hl; [|reflexivity].
  apply Z.eqb_eq, len_zero in Hl. congruence.
Qed.

Lemma responseTxns_concat g evs :
  List.concat (responseTxns g evs) = map (opOf g) evs.
Proof.
  destruct evs as [|x evs]; [reflexivity|].
  rewrite responseTxns_pending by discriminate.
  rewrite concat_app. simpl List.concat at 2. rewrite app_nil_r.
  apply (batch_concat g (x :: evs) 0 []).
Qed.

(** A response splits where the revision goes up: the events before the
    step and the events after it are grouped independently. *)
Lemma responseTxns_split g a b :
  (forall x, In x a -> revOf x <> 0) ->
  (forall x y, In x a -> In y b -> revOf x < revOf y) ->
  responseTxns g (a ++ b) = responseTxns g a ++ responseTxns g b.
Proof.
  intros Hnz Hlt.
  destruct a as [|x a]; [reflexivity|].
  destruct b as [|y b]; [rewrite app_nil_r, responseTxns_nil, app_nil_r; reflexivity|].
  rewrite (responseTxns_pending g (x :: a)) by discriminate.
  rewrite (responseTxns_pending g (y :: b)) by discriminate.
  rewrite responseTxns_pending by discriminate.
  rewrite batch_app. cbn [fst snd].
  destruct (batch_lastRev g (x :: a) 0 []) as (ev & Hin & Hev); [discriminate|].
  rewrite (batch_boundary g y b (fst (snd (batch g (x :: a) 0 [])))
             (snd (snd (batch g (x :: a) 0 [])))).
  - cbn [fst snd]. rewrite <- !app_assoc. reflexivity.
  - rewrite Hev. apply Hnz. exact Hin.
  - rewrite Hev. apply Hlt; [exact Hin | left; reflexivity].
Qed.

(** Events of one revision that fit below the limit stay together. *)
Lemma batch_small g R run :
  forall lastRev ops,
    (forall e, In e run -> revOf e = R) ->
    lastRev = 0 \/ lastRev = R ->
    len ops + len run <= mmmaxTxnOps g <= max_uint64 ->
    fst (batch g run lastRev ops) = [] /\
    snd (snd (batch g run lastRev ops)) = ops ++ map (opOf g) run.
Proof.
  induction run as [|x run IH]; intros lastRev ops Hrev Hl Hm.
  - simpl. rewrite app_nil_r. auto.
  - cbn [batch fst snd]. rewrite len_cons in Hm. pose proof (len_nonneg run).
    assert (Hb : boundary lastRev x = false).
    { apply boundary_same. rewrite (Hrev x) by (left; reflexivity). exact Hl. }
    assert (Hf : full g ops = false) by (apply full_false; lia).
    unfold flushTxns, pendingAfter, afterFull, afterBoundary. rewrite Hb, Hf.
    destruct (IH (revOf x) (ops ++ [opOf g x])) as (H1 & H2).
    + intros e He. apply Hrev. right. exact He.
    + right. apply Hrev. left. reflexivity.
    + rewrite len_app, len_cons, len_nil. lia.
    + rewrite H1, H2. cbn [app map]. rewrite <- app_assoc. auto.
Qed.

Lemma responseTxns_small g R run :
  run <> [] ->
  (forall e, In e run -> revOf e = R) ->
  len run <= mmmaxTxnOps g <= max_uint64 ->
  responseTxns g run = [map (opOf g) run].
Proof.
  intros Hne Hrev Hm. rewrite responseTxns_pending by exact Hne.
  destruct (batch_small g R run 0 [] Hrev (or_introl eq_refl)) as (H1 & H2).
  { rewrite len_nil. lia. }
  rewrite H1, H2. reflexivity.
Qed.

(** Events of one revision beyond the limit are cut into full
    transactions, and what remains stays pending. *)
Lemma batch_chunks g R run :
  1 <= mmmaxTxnOps g <= max_int64 ->
  forall lastRev ops,
    (forall e, In e run -> revOf e = R) ->
    lastRev = 0 \/ lastRev = R ->
    len ops <= mmmaxTxnOps g ->
    1 <= len ops + len run ->
    len (fst (batch g run lastRev ops))
    = (len ops + len run - 1) / mmmaxTxnOps g /\
    Forall (fun t => len t = mmmaxTxnOps g) (fst (batch g run lastRev ops)) /\
    1 <= len (snd (snd (batch g run lastRev ops))) <= mmmaxTxnOps g.
Proof.
  intros Hm. set (m := mmmaxTxnOps g) in *.
  induction run as [|x run IH]; intros lastRev ops Hrev Hl Hk Hn.
  - cbn [batch fst snd]. change (len (@nil Event)) with 0 in *.
    change (len (@nil (list Op))) with 0.
    split; [|split; [apply Forall_nil | lia]].
    symmetry. apply Z.div_small. lia.
  - cbn [batch fst snd]. rewrite len_cons in *. pose proof (len_nonneg run).
    pose proof (len_nonneg ops).
    assert (Hb : boundary lastRev x = false).
    { apply boundary_same. rewrite (Hrev x) by (left; reflexivity). exact Hl. }
    unfold flushTxns, pendingAfter, afterFull, afterBoundary. rewrite Hb.
    assert (Hrev' : forall e, In e run -> revOf e = R)
      by (intros e He; apply Hrev; right; exact He).
    assert (Hl' : revOf x = 0 \/ revOf x = R)
      by (right; apply Hrev; left; reflexivity).
    destruct (full g ops) eqn:Hf.
    + assert (Hlen : len ops = m).
      { unfold full in Hf. apply Z.eqb_eq in Hf.
        rewrite int_of_uint_small in Hf by (fold m; lia). exact Hf. }
      destruct (IH (revOf x) ([] ++ [opOf g x]) Hrev' Hl') as (H1 & H2 & H3).
      { cbn [app]. rewrite len_cons, len_nil. lia. }
      { cbn [app]. rewrite len_cons, len_nil. lia. }
      cbn [app] in *. rewrite len_cons, len_nil in H1.
      split; [|split].
      * rewrite len_cons, H1, Hlen.
        replace (m + (len run + 1) - 1) with (0 + 1 + len run - 1 + 1 * m) by lia.
        rewrite Z.div_add by lia. lia.
      * constructor; [exact Hlen | exact H2].
      * exact H3.
    + assert (Hlen : len ops <> m).
      { unfold full in Hf. apply Z.eqb_neq in Hf.
        rewrite int_of_uint_small in Hf by (fold m; lia). exact Hf. }
      destruct (IH (revOf x) (ops ++ [opOf g x]) Hrev' Hl') as (H1 & H2 & H3).
      { rewrite len_app, len_cons, len_nil. lia. }
      { rewrite len_app, len_cons, len_nil. lia. }
      rewrite len_app, len_cons, len_nil in H1.
      split; [|split].
      * cbn [app]. rewrite H1. f_equal. lia.
      * exact H2.
      * exact H3.
Qed.

(** The transactions for [n] events of one revision and limit [m]: all but
    the last hold [m] operations, the last between 1 and [m], and there are
    [(n + m - 1) / m] of them, that is, n / m rounded up. *)
Lemma responseTxns_chunks g R run :
  run <> [] ->
  (forall e, In e run -> revOf e = R) ->
  1 <= mmmaxTxnOps g <= max_int64 ->
  len (responseTxns g run) = (len run + mmmaxTxnOps g - 1) / mmmaxTxnOps g /\
  Forall (fun t => 1 <= len t <= mmmaxTxnOps g) (responseTxns g run) /\
  Forall (fun t => len t = mmmaxTxnOps g) (removelast (responseTxns g run)).
Proof.
  intros Hne Hrev Hm. rewrite responseTxns_pending by exact Hne.
  assert (Hn : 1 <= len run).
  { destruct run; [congruence|]. rewrite len_cons. pose proof (len_nonneg run). lia. }
  destruct (batch_chunks g R run Hm 0 [] Hrev (or_introl eq_refl)) as (H1 & H2 & H3).
  { change (len (@nil Op)) with 0. lia. }
  { change (len (@nil Op)) with 0. lia. }
  change (len (@nil Op)) with 0 in H1. split; [|split].
  - rewrite len_app, len_cons. change (len (@nil (list Op))) with 0. rewrite H1.
    replace (len run + mmmaxTxnOps g - 1) with (0 + len run - 1 + 1 * mmmaxTxnOps g) by lia.
    rewrite Z.div_add by lia. lia.
  - apply Forall_app. split.
    + eapply Forall_impl; [|exact H2]. cbn beta. intros t Ht. lia.
    + repeat constructor; lia.
  - rewrite removelast_last. exact H2.
Qed.

(* ------------------------------------------------------------------ *)
(** ** The watch loop when nothing fails *)

Lemma eventsLoop_accepting (w : World) (Hacc : accepting w) evs :
  forall lastRev ops st,
    forallb validKind evs = true ->
    exists st',
      eventsLoop w evs (lastRev, ops) st
      = (Next (snd (batch (vars st) evs lastRev ops)), st') /\
      vars st' = vars st /\
      committedOf (trace st')
      = committedOf (trace st) ++ fst (batch (vars st) evs lastRev ops).
Proof.
  unfold eventsLoop.
  induction evs as [|x evs IH]; intros lastRev ops st Hk.
  - exists st. cbn [foldEach batch fst snd]. rewrite app_nil_r. auto.
  - cbn [forallb] in Hk. apply andb_prop in Hk as [Hx Hk].
    cbn [foldEach batch fst snd]. unfold bind.
    destruct (eventStep_outcome w lastRev ops x st) as (seg & Hout & Htr & Hv).
    destruct (eventStep w (lastRev, ops) x st) as [r st1]. cbn [fst snd] in *.
    inversion Hout; subst seg r.
    + rewrite Hacc in *. discriminate.
    + rewrite Hacc in *. discriminate.
    + congruence.
    + destruct (IH (revOf x) (pendingAfter (vars st) lastRev ops x) st1 Hk)
        as (st' & Hrun & Hv' & Hc).
      rewrite Hv in *. exists st'. split; [exact Hrun|]. split; [exact Hv'|].
      rewrite Hc, Htr, committedOf_app, committedOf_app, committedOf_flushEffects.
      simpl committedOf at 2. rewrite app_nil_r, <- app_assoc. reflexivity.
Qed.

Lemma watchBody_accepting (w : World) (Hacc : accepting w) wr st :
  CompactRevision wr = 0 ->
  forallb validKind (Events wr) = true ->
  exists st',
    watchBody w wr st = (Next tt, st') /\
    vars st' = vars st /\
    committedOf (trace st')
    = committedOf (trace st) ++ responseTxns (vars st) (Events wr).
Proof.
  intros Hc Hk. unfold watchBody. rewrite Hc. cbn [Z.eqb negb]. unfold bind.
  destruct (eventsLoop_accepting w Hacc (Events wr) 0 [] st Hk)
    as (st1 & -> & Hv & Hcom).
  unfold responseTxns. cbn [snd].
  destruct (negb (len (snd (snd (batch (vars st) (Events wr) 0 []))) =? 0)).
  - unfold commit. rewrite Hacc. eexists. split; [reflexivity|].
    cbn [vars trace]. split; [exact Hv|].
    rewrite committedOf_app, Hcom, <- app_assoc. reflexivity.
  - exists st1. split; [reflexivity|]. split; [exact Hv|].
    rewrite Hcom, app_nil_r. reflexivity.
Qed.

(** The transactions of a response whose events are [pre], then [run], all
    of revision [R], then [post], with lower revisions before and higher
    revisions after. *)
Lemma responseTxns_segments g pre run post R :
  (forall e, In e run -> revOf e = R) ->
  (forall e, In e pre -> 0 < revOf e < R) ->
  (forall e, In e post -> R < revOf e) ->
  0 < R ->
  responseTxns g (pre ++ run ++ post)
  = responseTxns g pre ++ responseTxns g run ++ responseTxns g post.
Proof.
  intros Hrun Hpre Hpost HR.
  rewrite responseTxns_split.
  - f_equal. apply responseTxns_split.
    + intros x Hx. rewrite (Hrun x Hx). lia.
    + intros x y Hx Hy. rewrite (Hrun x Hx). apply Hpost. exact Hy.
  - intros x Hx. specialize (Hpre x Hx). lia.
  - intros x y Hx Hy. specialize (Hpre x Hx).
    apply in_app_or in Hy as [Hy|Hy].
    + rewrite (Hrun y Hy). lia.
    + specialize (Hpost y Hy). lia.
Qed.

(** C4 (as the code has it): within one watch response, the events of one
    revision, when there are no more of them than [mmmaxTxnOps], are
    committed in exactly one transaction that holds their operations and
    nothing else.  The response has no compact revision, its events have
    kind PUT or DELETE and positive revisions, lower before the events of
    revision [R] and higher after them, and the destination accepts every
    request.  The transactions accepted for the response are then those of
    the earlier events, the one transaction of revision [R], and those of
    the later events. *)
Theorem one_revision_one_transaction
        (w : World) (st : State) (wr : WatchResponse)
        (pre run post : list Event) (R : Z)
        (Hacc : accepting w)
        (Hcompact : CompactRevision wr = 0)
        (Hevents : Events wr = pre ++ run ++ post)
        (Hkinds : forallb validKind (Events wr) = true)
        (Hne : run <> [])
        (Hrun : forall e, In e run -> revOf e = R)
        (Hpre : forall e, In e pre -> 0 < revOf e < R)
        (Hpost : forall e, In e post -> R < revOf e)
        (HR : 0 < R)
        (Hmax : len run <= mmmaxTxnOps (vars st) <= max_uint64) :
  exists st' A B,
    watchBody w wr st = (Next tt, st') /\
    committedOf (trace st')
    = committedOf (trace st) ++ A ++ [map (opOf (vars st)) run] ++ B /\
    List.concat A = map (opOf (vars st)) pre /\
    List.concat B = map (opOf (vars st)) post.
Proof.
  destruct (watchBody_accepting w Hacc wr st Hcompact Hkinds) as (st' & Hrun' & _ & Hc).
  exists st', (responseTxns (vars st) pre), (responseTxns (vars st) post).
  split; [exact Hrun'|]. split; [|split; apply responseTxns_concat].
  rewrite Hc, Hevents, (responseTxns_segments _ pre run post R) by assumption.
  rewrite (responseTxns_small _ R run) by assumption. reflexivity.
Qed.

(** C5 (as the code has it): within one watch response, the events of one
    revision, when there are more of them than [mmmaxTxnOps] (which is at
    least 1), are committed in (count + max - 1) / max transactions, that
    is count / max rounded up; each holds between 1 and max operations, and
    their concatenation in commit order is the list of the operations of
    those events in the order of the events.  The conditions on the
    response and on the destination are those of the previous theorem; the
    response holds no more events than a Go slice can. *)
Theorem one_revision_split_by_size
        (w : World) (st : State) (wr : WatchResponse)
        (pre run post : list Event) (R : Z)
        (Hacc : accepting w)
        (Hcompact : CompactRevision wr = 0)
        (Hevents : Events wr = pre ++ run ++ post)
        (Hkinds : forallb validKind (Events wr) = true)
        (Hrun : forall e, In e run -> revOf e = R)
        (Hpre : forall e, In e pre -> 0 < revOf e < R)
        (Hpost : forall e, In e post -> R < revOf e)
        (HR : 0 < R)
        (Hmin : 1 <= mmmaxTxnOps (vars st))
        (Hmax : mmmaxTxnOps (vars st) < len run <= max_int64) :
  exists st' A T B,
    watchBody w wr st = (Next tt, st') /\
    committedOf (trace st') = committedOf (trace st) ++ A ++ T ++ B /\
    List.concat A = map (opOf (vars st)) pre /\
    List.concat B = map (opOf (vars st)) post /\
    List.concat T = map (opOf (vars st)) run /\
    len T = (len run + mmmaxTxnOps (vars st) - 1) / mmmaxTxnOps (vars st) /\
    Forall (fun t => 1 <= len t <= mmmaxTxnOps (vars st)) T.
Proof.
  destruct (watchBody_accepting w Hacc wr st Hcompact Hkinds) as (st' & Hrun' & _ & Hc).
  assert (Hne : run <> []).
  { intros ->. change (len (@nil Event)) with 0 in Hmax. lia. }
  destruct (responseTxns_chunks (vars st) R run Hne Hrun) as (Hlen & Hall & _); [lia|].
  exists st', (responseTxns (vars st) pre), (responseTxns (vars st) run),
    (responseTxns (vars st) post).
  split; [exact Hrun'|].
  split; [|repeat split; try apply responseTxns_concat; assumption].
  rewrite Hc, Hevents, (responseTxns_segments _ pre run post R) by assumption.
  reflexivity.
Qed.

(** C4, counterexample to the claim as stated: two events of revision 5
    arrive in two watch responses; with the default limit of 128 they are
    committed in two transactions, not one. *)
Lemma one_revision_two_responses_two_transactions :
  map (fun wr => map revOf (Events wr)) watchSplitRevision = [[5]; [5]] /\
  2 <= mmmaxTxnOps (flagsAB defaultMaxTxnOps 2) /\
  fst (runMirror (sourceA watchSplitRevision) (flagsAB defaultMaxTxnOps 2)) = Next None /\
  committedOf (trace (snd (runMirror (sourceA watchSplitRevision)
                             (flagsAB defaultMaxTxnOps 2))))
  = [[OpPut "/b/1" "x"]; [OpPut "/b/2" "y"]].
Proof.
  split; [reflexivity|]. split; [discriminate|].
  split; vm_compute; reflexivity.
Qed.

(** C5, counterexample to the claim as stated: three events of revision 5
    arrive in three watch responses; with a limit of 2 they are committed
    in three transactions, although 3 / 2 rounded up is 2. *)
Lemma one_revision_three_responses_three_transactions :
  map (fun wr => map revOf (Events wr)) watchSplitRevision3 = [[5]; [5]; [5]] /\
  (3 + 2 - 1) / 2 = 2 /\
  fst (runMirror (sourceA watchSplitRevision3) (flagsAB 2 2)) = Next None /\
  committedOf (trace (snd (runMirror (sourceA watchSplitRevision3) (flagsAB 2 2))))
  = [[OpPut "/b/1" "x"]; [OpPut "/b/2" "y"]; [OpPut "/b/3" "z"]].
Proof.
  split; [reflexivity|]. split; [reflexivity|].
  split; vm_compute; reflexivity.
Qed.

(** C4, the theorem on a response with three events of revision 5 between
    one of revision 4 and one of revision 6, limit 3. *)
Lemma one_revision_one_transaction_witness :
  exists st' A B,
    watchBody (sourceA []) watchMixed (initState (flagsAB 3 2)) = (Next tt, st') /\
    committedOf (trace st')
    = A ++ [[OpPut "/b/1" "x"; OpPut "/b/2" "y"; OpDelete "/b/3"]] ++ B /\
    List.concat A = [OpDelete "/b/0"] /\
    List.concat B = [OpPut "/b/4" "z"].
Proof.
  refine (one_revision_one_transaction
            (sourceA []) (initState (flagsAB 3 2)) watchMixed
            [del "/a/0" 4]
            [put "/a/1" "x" 5; put "/a/2" "y" 5; del "/a/3" 5]
            [put "/a/4" "z" 6] 5 _ _ _ _ _ _ _ _ _ _).
  - intros n. reflexivity.
  - reflexivity.
  - reflexivity.
  - reflexivity.
  - discriminate.
  - intros e [<-|[<-|[<-|[]]]]; reflexivity.
  - intros e [<-|[]]. vm_compute. split; reflexivity.
  - intros e [<-|[]]. reflexivity.
  - reflexivity.
  - vm_compute. split; discriminate.
Defined.

(** C5, the theorem on the same response with limit 2: the three events of
    revision 5 take (3 + 2 - 1) / 2 = 2 transactions. *)
Lemma one_revision_split_by_size_witness :
  exists st' A T B,
    watchBody (sourceA []) watchMixed (initState (flagsAB 2 2)) = (Next tt, st') /\
    committedOf (trace st') = A ++ T ++ B /\
    List.concat A = [OpDelete "/b/0"] /\
    List.concat B = [OpPut "/b/4" "z"] /\
    List.concat T = [OpPut "/b/1" "x"; OpPut "/b/2" "y"; OpDelete "/b/3"] /\
    len T = 2 /\
    Forall (fun t => 1 <= len t <= 2) T.
Proof.
  refine (one_revision_split_by_size
            (sourceA []) (initState (flagsAB 2 2)) watchMixed
            [del "/a/0" 4]
            [put "/a/1" "x" 5; put "/a/2" "y" 5; del "/a/3" 5]
            [put "/a/4" "z" 6] 5 _ _ _ _ _ _ _ _ _ _).
  - intros n. reflexivity.
  - reflexivity.
  - reflexivity.
  - reflexivity.
  - intros e [<-|[<-|[<-|[]]]]; reflexivity.
  - intros e [<-|[]]. vm_compute. split; reflexivity.
  - intros e [<-|[]]. reflexivity.
  - reflexivity.
  - vm_compute. discriminate.
  - vm_compute. split; [reflexivity | discriminate].
Defined.

(* ------------------------------------------------------------------ *)
(** ** Every transaction is non-empty, bounded and of one revision *)

Lemma nondecreasing_head_le l : forall a,
  nondecreasing (a :: l) = true -> forall x, In x l -> a <= x.
Proof.
  induction l as [|b l IH]; intros a H x Hx; [destruct Hx|].
  cbn [nondecreasing] in H. apply andb_prop in H as [Hab Hl].
  apply Z.leb_le in Hab. destruct Hx as [<-|Hx]; [exact Hab|].
  specialize (IH b Hl x Hx). lia.
Qed.

Lemma nondecreasing_app_le l1 a l2 :
  nondecreasing (l1 ++ a :: l2) = true -> forall x, In x l1 -> x <= a.
Proof.
  induction l1 as [|b l1 IH]; intros H x Hx; [destruct Hx|].
  destruct Hx as [<-|Hx].
  - apply (nondecreasing_head_le _ _ H). apply in_or_app. right. left. reflexivity.
  - apply IH; [|exact Hx]. cbn [app nondecreasing] in H.
    destruct (l1 ++ a :: l2); [reflexivity|].
    apply andb_prop in H as [_ H]. exact H.
Qed.

Section Bounds.

Variable g : Globals.
Variable all : list Event.

Hypothesis Hm : 1 <= mmmaxTxnOps g <= max_uint64.
Hypothesis Hsorted : nondecreasing (map revOf all) = true.
Hypothesis Hpos : forallb (fun ev => 0 <? revOf ev) all = true.
Hypothesis Hlen : len all <= max_int64.

Lemma positive_rev e : In e all -> 0 < revOf e.
Proof.
  intros H. rewrite forallb_forall in Hpos. apply Z.ltb_lt. apply Hpos. exact H.
Qed.

Lemma full_nil : full g [] = false.
Proof. apply full_false. change (len (@nil Op)) with 0. lia. Qed.

(** The invariant of the grouping: [ops] holds the operations of [seg], the
    events visited last, which all have revision [lastRev]. *)
Lemma batch_good evs :
  forall d seg lastRev ops,
    all = d ++ seg ++ evs ->
    ops = map (opOf g) seg ->
    (forall e, In e seg -> revOf e = lastRev) ->
    (lastRev <> 0 -> seg <> []) ->
    len ops <= mmmaxTxnOps g ->
    Forall (goodTxn g all)
           (fst (batch g evs lastRev ops)
            ++ (if negb (len (snd (snd (batch g evs lastRev ops))) =? 0)
                then [snd (snd (batch g evs lastRev ops))] else [])).
Proof.
  induction evs as [|x evs IH]; intros d seg lastRev ops Hall Hops Hrev Hnz Hbound.
  - cbn [batch fst snd app].
    destruct (negb (len ops =? 0)) eqn:Hl; [|constructor].
    constructor; [|constructor]. split; [|split].
    + intros ->. discriminate.
    + exact Hbound.
    + exists d, seg, [], lastRev. auto.
  - cbn [batch fst snd]. rewrite <- app_assoc.
    assert (Hx : In x all).
    { rewrite Hall. apply in_or_app. right. apply in_or_app. right. left. reflexivity. }
    assert (Hseg_in : forall e, In e seg -> In e all).
    { intros e He. rewrite Hall. apply in_or_app. right. apply in_or_app. left. exact He. }
    assert (Hle : forall e, In e seg -> revOf e <= revOf x).
    { intros e He.
      apply (nondecreasing_app_le (map revOf (d ++ seg)) (revOf x) (map revOf evs)).
      - rewrite Hall, app_assoc, map_app in Hsorted. exact Hsorted.
      - apply in_map. apply in_or_app. right. exact He. }
    assert (Hgood_ops : seg <> [] -> goodTxn g all ops).
    { intros Hne. split; [|split].
      - subst ops. destruct seg; [congruence | discriminate].
      - exact Hbound.
      - exists d, seg, (x :: evs), lastRev. auto. }
    (* the two shapes of the next state *)
    assert (Hfresh :
              Forall (goodTxn g all)
                (fst (batch g evs (revOf x) [opOf g x])
                 ++ (if negb (len (snd (snd (batch g evs (revOf x) [opOf g x]))) =? 0)
                     then [snd (snd (batch g evs (revOf x) [opOf g x]))] else []))).
    { apply (IH (d ++ seg) [x]).
      - rewrite Hall, <- app_assoc. reflexivity.
      - reflexivity.
      - intros e [<-|[]]. reflexivity.
      - discriminate.
      - change (len [opOf g x]) with 1. lia. }
    unfold flushTxns, pendingAfter, afterFull, afterBoundary.
    destruct (boundary lastRev x) eqn:Hb.
    + apply boundary_true_inv in Hb as [H0 Hlt].
      rewrite full_nil. cbn [app].
      constructor; [apply Hgood_ops, Hnz, H0 | exact Hfresh].
    + destruct seg as [|s seg'].
      * subst ops. cbn [map]. rewrite full_nil. cbn [app]. exact Hfresh.
      * assert (Hl : lastRev = revOf x).
        { pose proof (Hrev s (or_introl eq_refl)) as Hs.
          pose proof (positive_rev s (Hseg_in s (or_introl eq_refl))).
          pose proof (Hle s (or_introl eq_refl)).
          apply boundary_false_inv in Hb as [Hb|Hb]; lia. }
        destruct (full g ops) eqn:Hf.
        { cbn [app]. constructor; [apply Hgood_ops; discriminate | exact Hfresh]. }
        { cbn [app].
          apply (IH d ((s :: seg') ++ [x])).
          - rewrite Hall, <- !app_assoc. reflexivity.
          - rewrite map_app, Hops. reflexivity.
          - intros e He. apply in_app_or in He as [He|[<-|[]]];
              [rewrite (Hrev e He); exact Hl | reflexivity].
          - intros _. discriminate.
          - rewrite len_app. change (len [opOf g x]) with 1.
            destruct (Z_le_gt_dec (mmmaxTxnOps g) max_int64) as [Hsmall|Hbig].
            + unfold full in Hf. apply Z.eqb_neq in Hf.
              rewrite int_of_uint_small in Hf by lia. lia.
            + assert (len ops + 1 <= len all); [|lia].
              rewrite Hall, Hops, !len_app, !len_map, !len_cons.
              pose proof (len_nonneg d). pose proof (len_nonneg evs).
              pose proof (len_nonneg seg'). lia. }
Qed.

Lemma responseTxns_good : Forall (goodTxn g all) (responseTxns g all).
Proof.
  unfold responseTxns. apply (batch_good all [] []).
  - reflexivity.
  - reflexivity.
  - intros e [].
  - congruence.
  - change (len (@nil Op)) with 0. lia.
Qed.

End Bounds.

(** Whatever the destination answers, the transactions the event loop
    sends are the first ones of the grouping [batch]. *)
Lemma eventsLoop_attempted (w : World) (g : Globals) evs :
  forall lastRev ops st,
    vars st = g ->
    vars (snd (eventsLoop w evs (lastRev, ops) st)) = g /\
    exists T rest,
      txnsOf (trace (snd (eventsLoop w evs (lastRev, ops) st)))
      = txnsOf (trace st) ++ T /\
      T ++ rest = fst (batch g evs lastRev ops) /\
      (forall ls, fst (eventsLoop w evs (lastRev, ops) st) = Next ls ->
                  ls = snd (batch g evs lastRev ops) /\ rest = []).
Proof.
  unfold eventsLoop.
  induction evs as [|x evs IH]; intros lastRev ops st Hv.
  - cbn [foldEach batch fst snd ret]. split; [exact Hv|].
    exists [], []. rewrite app_nil_r. split; [reflexivity|]. split; [reflexivity|].
    intros ls [= <-]. auto.
  - cbn [foldEach batch fst snd]. unfold bind.
    destruct (eventStep_outcome w lastRev ops x st) as (seg & Hout & Htr & Hv1).
    destruct (eventStep w (lastRev, ops) x st) as [r st1]. cbn [fst snd] in *.
    rewrite Hv in Hout. unfold flushTxns.
    inversion Hout as [e n Hb Hr | e n Hf Hr | Hk | n Hk]; subst seg r; cbn [fst snd].
    + split; [congruence|]. exists [ops]. eexists. split; [|split].
      * rewrite Htr, txnsOf_app. reflexivity.
      * rewrite Hb. cbn [app]. reflexivity.
      * discriminate.
    + split; [congruence|].
      exists ((if boundary lastRev x then [ops] else []) ++ [afterBoundary lastRev ops x]).
      eexists. split; [|split].
      * rewrite Htr, !txnsOf_app. f_equal. f_equal.
        destruct (boundary lastRev x); reflexivity.
      * rewrite Hf, <- !app_assoc. reflexivity.
      * discriminate.
    + split; [congruence|]. exists (flushTxns g lastRev ops x). eexists.
      split; [|split].
      * rewrite Htr, txnsOf_app, txnsOf_flushEffects. reflexivity.
      * unfold flushTxns. rewrite <- !app_assoc. reflexivity.
      * discriminate.
    + destruct (IH (revOf x) (pendingAfter g lastRev ops x) st1)
        as (Hv' & T & rest & HT & Hrest & Hnext); [congruence|].
      split; [exact Hv'|].
      exists (flushTxns g lastRev ops x ++ T), rest. split; [|split].
      * rewrite HT, Htr, !txnsOf_app, txnsOf_flushEffects. simpl txnsOf at 2.
        rewrite app_nil_r, <- app_assoc. reflexivity.
      * unfold flushTxns. rewrite <- Hrest, <- !app_assoc. reflexivity.
      * exact Hnext.
Qed.

Lemma watchBody_attempted (w : World) (wr : WatchResponse) (st : State) :
  vars (snd (watchBody w wr st)) = vars st /\
  exists T rest,
    txnsOf (trace (snd (watchBody w wr st))) = txnsOf (trace st) ++ T /\
    T ++ rest = responseTxns (vars st) (Events wr).
Proof.
  unfold watchBody. destruct (negb (CompactRevision wr =? 0)).
  - cbn [halt snd]. split; [reflexivity|]. exists [], (responseTxns (vars st) (Events wr)).
    rewrite app_nil_r. auto.
  - unfold bind.
    destruct (eventsLoop_attempted w (vars st) (Events wr) 0 [] st eq_refl)
      as (Hv & T & rest & HT & Hrest & Hnext).
    unfold responseTxns.
    destruct (eventsLoop w (Events wr) (0, []) st) as [[ls|s] st1]; cbn [fst snd] in *.
    + destruct (Hnext ls eq_refl) as [-> ->]. rewrite app_nil_r in Hrest. subst T.
      destruct (negb (len (snd (snd (batch (vars st) (Events wr) 0 []))) =? 0)).
      * unfold commit.
        assert (Hlog : forall r,
                   txnsOf (trace st1
                           ++ [EvTxn (snd (snd (batch (vars st) (Events wr) 0 []))) r])
                   = txnsOf (trace st)
                     ++ fst (batch (vars st) (Events wr) 0 [])
                     ++ [snd (snd (batch (vars st) (Events wr) 0 []))]).
        { intros r. rewrite txnsOf_app, HT, <- app_assoc. reflexivity. }
        destruct (dstReply w (dstCalls (trace st1))); cbn [snd vars trace];
          (split; [exact Hv|]);
          exists (fst (batch (vars st) (Events wr) 0 [])
                  ++ [snd (snd (batch (vars st) (Events wr) 0 []))]), [];
          (split; [apply Hlog | apply app_nil_r]).
      * cbn [ret snd]. split; [exact Hv|].
        exists (fst (batch (vars st) (Events wr) 0 [])), []. rewrite !app_nil_r. auto.
    + split; [exact Hv|]. eexists T, _. split; [exact HT|].
      rewrite <- Hrest, <- app_assoc. reflexivity.
Qed.

Lemma watchLoop_attempted (w : World) (wrs : list WatchResponse) :
  forall st,
    vars (snd (watchLoop w wrs st)) = vars st /\
    forall t, In t (txnsOf (trace (snd (watchLoop w wrs st)))) ->
              In t (txnsOf (trace st)) \/
              exists wr, In wr wrs /\ In t (responseTxns (vars st) (Events wr)).
Proof.
  unfold watchLoop. induction wrs as [|wr wrs IH]; intros st.
  - cbn [forEach ret snd]. auto.
  - cbn [forEach]. unfold bind.
    destruct (watchBody_attempted w wr st) as (Hv & T & rest & HT & Hrest).
    assert (Hin : forall t, In t (txnsOf (trace (snd (watchBody w wr st)))) ->
                            In t (txnsOf (trace st)) \/
                            exists wr', In wr' (wr :: wrs) /\
                                        In t (responseTxns (vars st) (Events wr'))).
    { intros t Ht. rewrite HT in Ht. apply in_app_or in Ht as [Ht|Ht]; [auto|].
      right. exists wr. split; [left; reflexivity|].
      rewrite <- Hrest. apply in_or_app. auto. }
    destruct (watchBody w wr st) as [[[]|s] st1]; cbn [fst snd] in *.
    + destruct (IH st1) as (Hv' & Hin'). split; [congruence|].
      intros t Ht. destruct (Hin' t Ht) as [H|(wr' & Hwr & H)].
      * apply Hin. exact H.
      * right. exists wr'. rewrite <- Hv. auto using in_cons.
    + auto.
Qed.

Lemma In_txnsOf tr ops r : In (EvTxn ops r) tr -> In ops (txnsOf tr).
Proof.
  induction tr as [|e tr IH]; [intros []|].
  intros [->|H]; [left; reflexivity|].
  destruct e; simpl; auto.
Qed.

(** Before the watch loop no transaction is sent, and the limit is not
    changed. *)
Lemma beforeWatch_no_txn (w : World) (st : State) :
  txnsOf (trace st) = [] ->
  txnsOf (trace (snd (beforeWatch w st))) = [] /\
  mmmaxTxnOps (vars (snd (beforeWatch w st))) = mmmaxTxnOps (vars st).
Proof.
  intros H0.
  set (J := fun s : State => txnsOf (trace s) = [] /\
                             mmmaxTxnOps (vars s) = mmmaxTxnOps (vars st)).
  assert (Hsnoc : forall s e, txnsOf [e] = [] -> J s -> J (logged s e)).
  { intros s e He [H1 H2]. split; [|exact H2].
    cbn [logged trace]. rewrite txnsOf_app, H1, He. reflexivity. }
  assert (H : invariant J (fun _ => True) (beforeWatch w)).
  { apply invariant_beforeWatch.
    - intros; exact I.
    - intros; exact I.
    - intros e He s Hs. apply (Hsnoc s e); [destruct e; try reflexivity; discriminate|].
      exact Hs.
    - intros kv s Hs. unfold putKv, bind, getVars, dcPut, addTotal.
      destruct (dstReply w (dstCalls (trace s))) as [e|].
      + split; [|exact I]. apply (Hsnoc s (EvPut _ _ _)); [reflexivity | exact Hs].
      + cbn [vars total trace].
        destruct Hs as [H1 H2]. split; [|exact H2].
        cbn [trace]. rewrite !txnsOf_app, H1. reflexivity.
    - intros p s Hs. exact Hs. }
  specialize (H st (conj H0 eq_refl)).
  destruct (beforeWatch w st) as [[u|s] st1]; cbn [snd]; [exact H | exact (proj1 H)].
Qed.

(** C10: in every run with a limit of at least 1 and well-formed watch
    responses (positive revisions in non-decreasing order), every
    transaction sent to the destination, accepted or not, is non-empty,
    holds at most [mmmaxTxnOps] operations, and holds the operations of
    consecutive events of one watch response that all have the same
    revision. *)
Theorem transactions_bounded_single_revision
        (w : World) (g : Globals) (args : list string)
        (Hmax : 1 <= mmmaxTxnOps g <= max_uint64)
        (Hwf : forall wr, In wr (watchResponses w) -> wellFormed wr = true) :
  forall ops r,
    In (EvTxn ops r) (trace (snd (runCommand w g args))) ->
    ops <> [] /\
    len ops <= mmmaxTxnOps g /\
    exists wr,
      In wr (watchResponses w) /\
      singleRevision (vars (snd (runCommand w g args))) (Events wr) ops.
Proof.
  intros ops r Hin. apply In_txnsOf in Hin. revert Hin.
  rewrite runCommand_eq.
  destruct (negb (len args =? 1)); [intros []|].
  destruct (authDestCfg_cases w g) as [(auth & pre & -> & Hpre) | (err & ->)];
    [|intros [] ].
  unfold makeMirror, call. cbn [vars trace].
  set (st0 := mkState g 0 _).
  assert (H0 : txnsOf (trace st0) = []).
  { unfold st0. cbn [trace]. rewrite txnsOf_app.
    destruct Hpre as [-> | ->]; reflexivity. }
  rewrite makeMirrorBody_split. unfold bind.
  destruct (beforeWatch_no_txn w st0 H0) as (H1 & H2).
  change (mmmaxTxnOps (vars st0)) with (mmmaxTxnOps g) in H2.
  destruct (beforeWatch w st0) as [[u|s] st1]; cbn [snd] in *.
  - destruct (watchLoop_attempted w (watchResponses w) st1) as (Hv & Hts).
    assert (Hgoal : In ops (txnsOf (trace (snd (watchLoop w (watchResponses w) st1)))) ->
                    ops <> [] /\
                    len ops <= mmmaxTxnOps g /\
                    exists wr,
                      In wr (watchResponses w) /\
                      singleRevision (vars (snd (watchLoop w (watchResponses w) st1)))
                                     (Events wr) ops).
    { intros Hin. destruct (Hts ops Hin) as [H|(wr & Hwr & H)].
      - rewrite H1 in H. destruct H.
      - pose proof (Hwf wr Hwr) as Hw. unfold wellFormed in Hw.
        apply andb_prop in Hw as [Hw Hl]. apply andb_prop in Hw as [Hs Hp].
        apply Z.leb_le in Hl.
        assert (Hm1 : 1 <= mmmaxTxnOps (vars st1) <= max_uint64).
        { rewrite H2. exact Hmax. }
        pose proof (responseTxns_good (vars st1) (Events wr) Hm1 Hs Hp Hl) as Hgood.
        rewrite Forall_forall in Hgood. destruct (Hgood ops H) as (Hne & Hlen & Hsingle).
        split; [exact Hne|]. split; [rewrite <- H2; exact Hlen|].
        exists wr. split; [exact Hwr|]. rewrite Hv. exact Hsingle. }
    destruct (watchLoop w (watchResponses w) st1) as [[u'|[e|c e|m]] st2];
      cbn [snd] in *; exact Hgoal.
  - destruct s as [e|c e|m]; cbn [snd]; rewrite H1; intros [].
Qed.

(** C10, the theorem on a run with limit 2 over a response that holds
    three events of revision 5 between one of revision 4 and one of
    revision 6. *)
Lemma transactions_bounded_single_revision_witness :
  txnsOf (trace (snd (runCommand (sourceA [watchMixed]) (flagsAB 2 2)
                        ["10.0.0.2:2379"%string])))
  = [[OpDelete "/b/0"]; [OpPut "/b/1" "x"; OpPut "/b/2" "y"]; [OpDelete "/b/3"];
     [OpPut "/b/4" "z"]] /\
  forall ops r,
    In (EvTxn ops r)
       (trace (snd (runCommand (sourceA [watchMixed]) (flagsAB 2 2)
                      ["10.0.0.2:2379"%string]))) ->
    ops <> [] /\ len ops <= 2.
Proof.
  split; [vm_compute; reflexivity|].
  intros ops r Hin.
  destruct (transactions_bounded_single_revision
              (sourceA [watchMixed]) (flagsAB 2 2) ["10.0.0.2:2379"%string])
    with (ops := ops) (r := r) as (H1 & H2 & _).
  - vm_compute. split; discriminate.
  - intros wr [<-|[]]. vm_compute. reflexivity.
  - exact Hin.
  - split; [exact H1 | exact H2].
Defined.

(** C10 without the condition on the stream: a watch response whose
    second event has a lower revision than the first (5, then 4).  The
    test [nextRev > lastRev] fails, nothing is flushed between the two
    events, and with the default limit of 128 both operations are sent in
    one transaction, which therefore holds events of two revisions. *)
Lemma unsorted_revisions_one_transaction :
  1 <= mmmaxTxnOps (flagsAB 128 2) /\
  map revOf (Events watchUnsorted) = [5; 4] /\
  trace (snd unsortedRun)
  = [EvMustClient "10.0.0.2:2379" None; EvMustClientFromCmd;
     EvNewSyncer "/a/" 1; EvSyncUpdates;
     EvAppend (OpPut "/b/1" "x"); EvAddTotal 1;
     EvAppend (OpPut "/b/2" "y"); EvAddTotal 2;
     EvTxn [OpPut "/b/1" "x"; OpPut "/b/2" "y"] None] /\
  ~ (exists wr,
        In wr (watchResponses (sourceA [watchUnsorted])) /\
        singleRevision (vars (snd unsortedRun)) (Events wr)
                       [OpPut "/b/1" "x"; OpPut "/b/2" "y"]).
Proof.
  split; [vm_compute; discriminate|]. split; [reflexivity|].
  split; [vm_compute; reflexivity|].
  intros (wr & [<-|[]] & d & seg & r & R & Hevs & Hops & Hrev).
  destruct seg as [|a [|b [|c seg]]]; try discriminate Hops.
  assert (Ha : revOf a = R) by (apply Hrev; left; reflexivity).
  assert (Hb : revOf b = R) by (apply Hrev; right; left; reflexivity).
  destruct d as [|x d].
  - cbn in Hevs. injection Hevs as <- <- _. cbn in Ha, Hb. lia.
  - apply (f_equal (@List.length Event)) in Hevs.
    cbn in Hevs. rewrite List.length_app in Hevs. cbn in Hevs. lia.
Qed.

(* ------------------------------------------------------------------ *)
(** ** Credentials of the destination *)

Lemma splitColon2_none (s : string) :
  splitColon2 s = None <-> containsColon s = false.
Proof.
  induction s as [|c s IH]; [split; reflexivity|].
  cbn [splitColon2 containsColon]. destruct (Ascii.eqb c ":").
  - split; discriminate.
  - cbn [orb]. destruct (splitColon2 s) as [[a b]|].
    + split; [discriminate|]. intros H. apply IH in H. discriminate.
    + split; [intros _; apply IH; reflexivity | reflexivity].
Qed.

Lemma splitColon2_app (u p : string) :
  containsColon u = false ->
  splitColon2 (String.append u (String ":" p)) = Some (u, p).
Proof.
  induction u as [|c u IH]; intros H.
  - reflexivity.
  - cbn [containsColon] in H. apply orb_false_elim in H as [Hc Hu].
    cbn [String.append splitColon2]. rewrite Hc, (IH Hu). reflexivity.
Qed.

Lemma splitColon2_some (s a b : string) :
  splitColon2 s = Some (a, b) ->
  s = String.append a (String ":" b) /\ containsColon a = false.
Proof.
  revert a. induction s as [|c s IH]; intros a H; [discriminate|].
  cbn [splitColon2] in H. destruct (Ascii.eqb c ":") eqn:Hc.
  - injection H as <- <-. apply Ascii.eqb_eq in Hc. subst c. auto.
  - destruct (splitColon2 s) as [[a' b']|]; [|discriminate].
    injection H as <- <-. destruct (IH a' eq_refl) as [-> Ha].
    split; [reflexivity|]. cbn [containsColon]. rewrite Hc, Ha. reflexivity.
Qed.

(** X1: [--dest-user name:password] without [--dest-password].  The user
    flag is cut at its first colon: for a name without a colon and any
    password (which may itself hold colons), [authDestCfg] returns exactly
    that name and that password, and does not ask on the terminal. *)
Theorem authDestCfg_splits_at_first_colon
        (w : World) (g : Globals) (u p : string)
        (Hpw : mmpassword g = EmptyString)
        (Hu : containsColon u = false)
        (Huser : mmuser g = String.append u (String ":" p)) :
  authDestCfg w (initState g) = (Next (Some (mkAuthConfig u p)), initState g).
Proof.
  unfold authDestCfg, bind, getVars. cbn [initState vars].
  rewrite Hpw, Huser, splitColon2_app by exact Hu.
  replace (String.eqb (String.append u (String ":" p)) "") with false
    by (destruct u; reflexivity).
  reflexivity.
Qed.

(** X1 at [--dest-user root:a:b]: user name "root", password "a:b". *)
Lemma authDestCfg_splits_at_first_colon_witness :
  authDestCfg (sourceA []) (initState flagsUserColon)
  = (Next (Some (mkAuthConfig "root" "a:b")), initState flagsUserColon).
Proof.
  apply (authDestCfg_splits_at_first_colon (sourceA []) flagsUserColon "root" "a:b");
    reflexivity.
Defined.

(** X2: the terminal is asked for the password exactly when a user is
    given, no password is given, and the user flag holds no colon.  In that
    case the answer becomes the password of the unchanged user name, and a
    failing terminal ends the command with that error and [ExitError]; in
    every other case the state is left as it was. *)
Theorem authDestCfg_asks_iff (w : World) (g : Globals) :
  (In (EvAsk "Destination Password: ") (trace (snd (authDestCfg w (initState g))))
   <-> mmuser g <> EmptyString /\ mmpassword g = EmptyString /\
       containsColon (mmuser g) = false) /\
  (mmuser g <> EmptyString -> mmpassword g = EmptyString ->
   containsColon (mmuser g) = false ->
   fst (authDestCfg w (initState g))
   = match askPassword w with
     | inl pw => Next (Some (mkAuthConfig (mmuser g) pw))
     | inr err => Halt (Exit ExitError (Some err))
     end) /\
  (~ (mmuser g <> EmptyString /\ mmpassword g = EmptyString /\
      containsColon (mmuser g) = false) ->
   snd (authDestCfg w (initState g)) = initState g).
Proof.
  unfold authDestCfg, bind, getVars. cbn [initState vars].
  destruct (String.eqb (mmuser g) "") eqn:Hu.
  { apply String.eqb_eq in Hu. cbn [ret fst snd trace]. split; [|split].
    - split; [intros [] | intros (H & _); congruence].
    - congruence.
    - reflexivity. }
  apply String.eqb_neq in Hu.
  destruct (String.eqb (mmpassword g) "") eqn:Hp.
  2:{ apply String.eqb_neq in Hp. cbn [ret fst snd trace]. split; [|split].
      - split; [intros [] | intros (_ & H & _); congruence].
      - congruence.
      - reflexivity. }
  apply String.eqb_eq in Hp.
  destruct (splitColon2 (mmuser g)) as [[a b]|] eqn:Hs.
  { assert (Hc : containsColon (mmuser g) <> false).
    { intros H. apply splitColon2_none in H. congruence. }
    cbn [ret fst snd trace]. split; [|split].
    - split; [intros [] | intros (_ & _ & H); congruence].
    - congruence.
    - reflexivity. }
  apply splitColon2_none in Hs. unfold emit. cbn [vars total trace app].
  split; [|split].
  - split; [auto|]. intros _.
    destruct (askPassword w); cbn [ret exitWithError halt snd trace]; left; reflexivity.
  - intros _ _ _. destruct (askPassword w); reflexivity.
  - intros H. exfalso. apply H. auto.
Qed.

(** X2 at [--dest-user root] with a terminal that answers "secret". *)
Lemma authDestCfg_asks_iff_witness :
  In (EvAsk "Destination Password: ")
     (trace (snd (authDestCfg terminalSecret (initState flagsUserOnly)))) /\
  fst (authDestCfg terminalSecret (initState flagsUserOnly))
  = Next (Some (mkAuthConfig "root" "secret")).
Proof.
  destruct (authDestCfg_asks_iff terminalSecret flagsUserOnly) as (H1 & H2 & _).
  split.
  - apply H1. repeat split; try reflexivity. discriminate.
  - apply H2; [discriminate | reflexivity | reflexivity].
Defined.

(* ------------------------------------------------------------------ *)
(** ** The key mapping *)

Lemma prefix_app (p s : string) : String.prefix p (String.append p s) = true.
Proof.
  induction p as [|c p IH]; [destruct s; reflexivity|].
  cbn [String.append String.prefix]. destruct (ascii_dec c c); [exact IH | congruence].
Qed.

Lemma string_drop_app (p s : string) :
  string_drop (String.length p) (String.append p s) = s.
Proof. induction p as [|c p IH]; [reflexivity | exact IH]. Qed.

Lemma append_inj_l (d a b : string) :
  String.append d a = String.append d b -> a = b.
Proof.
  induction d as [|c d IH]; intros H; [exact H|].
  cbn [String.append] in H. injection H as H. apply IH. exact H.
Qed.

(** A key that begins with the source prefix is written under the
    destination prefix, with the rest of the key unchanged. *)
Lemma modifyPrefix_prefixed (g : Globals) (key : string) :
  String.prefix (mmprefix g) key = true ->
  modifyPrefix g key
  = String.append (mmdestprefix g) (string_drop (String.length (mmprefix g)) key).
Proof.
  intros H. unfold modifyPrefix.
  destruct key as [|c key]; cbn [strings_Replace1]; rewrite H; reflexivity.
Qed.

(** X3: a key made of the source prefix and a rest maps to the destination
    prefix followed by the same rest; with an empty destination prefix
    (what [--no-dest-prefix] leaves) the result is the rest alone, and with
    an empty source prefix the destination prefix is put in front of the
    whole key. *)
Theorem modifyPrefix_replaces_prefix (g : Globals) (rest : string) :
  modifyPrefix g (String.append (mmprefix g) rest)
  = String.append (mmdestprefix g) rest /\
  (mmdestprefix g = EmptyString ->
   modifyPrefix g (String.append (mmprefix g) rest) = rest) /\
  (mmprefix g = EmptyString ->
   modifyPrefix g rest = String.append (mmdestprefix g) rest).
Proof.
  assert (H : modifyPrefix g (String.append (mmprefix g) rest)
              = String.append (mmdestprefix g) rest).
  { rewrite modifyPrefix_prefixed by apply prefix_app.
    rewrite string_drop_app. reflexivity. }
  split; [exact H|]. split.
  - intros Hd. rewrite H, Hd. reflexivity.
  - intros Hp. rewrite Hp in H. exact H.
Qed.

(** X4: the key mapping is injective on the keys that begin with the source
    prefix: two different keys of the mirrored key space are never written
    to the same destination key. *)
Theorem modifyPrefix_injective (g : Globals) (k1 k2 : string)
        (H1 : String.prefix (mmprefix g) k1 = true)
        (H2 : String.prefix (mmprefix g) k2 = true)
        (Heq : modifyPrefix g k1 = modifyPrefix g k2) :
  k1 = k2.
Proof.
  rewrite !modifyPrefix_prefixed in Heq by assumption.
  apply append_inj_l in Heq.
  rewrite <- (prefix_drop _ _ H1), <- (prefix_drop _ _ H2), Heq. reflexivity.
Qed.

(** X5: a key in which the source prefix does not occur is written
    unchanged, whatever the destination prefix is. *)
Theorem modifyPrefix_without_occurrence (g : Globals) (key : string)
        (H : occursIn (mmprefix g) key = false) :
  modifyPrefix g key = key.
Proof.
  unfold modifyPrefix. induction key as [|c key IH].
  - cbn [occursIn] in H. apply orb_false_elim in H as [H _].
    cbn [strings_Replace1]. rewrite H. reflexivity.
  - cbn [occursIn] in H. apply orb_false_elim in H as [Hp Hk].
    cbn [strings_Replace1]. rewrite Hp. f_equal. apply IH. exact Hk.
Qed.

(** X3 with prefix "/a/" and destination prefix "/b/". *)
Lemma modifyPrefix_replaces_prefix_witness :
  modifyPrefix (flagsAB 128 0) "/a/dir/key" = "/b/dir/key"%string.
Proof.
  exact (proj1 (modifyPrefix_replaces_prefix (flagsAB 128 0) "dir/key")).
Defined.

(** X4 at one key below "/a/". *)
Lemma modifyPrefix_injective_witness : "/a/1"%string = "/a/1"%string.
Proof.
  apply (modifyPrefix_injective (flagsAB 128 0) "/a/1" "/a/1"); reflexivity.
Defined.

(** X5 at a key outside "/a/". *)
Lemma modifyPrefix_without_occurrence_witness :
  modifyPrefix (flagsAB 128 0) "/c/1" = "/c/1"%string.
Proof.
  apply (modifyPrefix_without_occurrence (flagsAB 128 0) "/c/1"). reflexivity.
Defined.

(* ------------------------------------------------------------------ *)
(** ** The starting revision, over the whole range of [--rev] *)

Lemma startRevOf_cases (g : Globals) :
  is_int64 (mmrev g) ->
  (mmrev g = - 2 ^ 63 /\ startRevOf g = max_int64) \/
  (- 2 ^ 63 < mmrev g <= 1 /\ startRevOf g = 0) \/
  (1 < mmrev g /\ startRevOf g = mmrev g - 1).
Proof.
  unfold is_int64, max_int64. intros Hr.
  destruct (Z.eq_dec (mmrev g) (- 2 ^ 63)) as [He|Hne].
  - left. split; [exact He|]. unfold startRevOf. rewrite He. reflexivity.
  - right. unfold startRevOf.
    rewrite int64_wrap_id by (unfold is_int64, max_int64; lia).
    destruct (mmrev g - 1 <? 0) eqn:Hlt.
    + apply Z.ltb_lt in Hlt. left. split; [lia | reflexivity].
    + apply Z.ltb_ge in Hlt. destruct (Z.eq_dec (mmrev g) 1) as [H1|H1].
      * left. split; [lia | lia].
      * right. split; [lia | reflexivity].
Qed.

(** X6: the base synchronisation is run exactly for the starting revisions
    from -2^63 + 1 to 1.  Zero, negative revisions and 1 all start the
    syncer at 0; the lowest [int64], -2^63, wraps around in [mmrev - 1] and
    starts the syncer at 2^63 - 1 without a base synchronisation.  The
    revision handed to the syncer is never negative. *)
Theorem base_sync_iff_starting_revision
        (w : World) (g : Globals)
        (Hrange : is_int64 (mmrev g))
        (Hc : flagsCompatible g) :
  0 <= startRevOf g <= max_int64 /\
  (mmrev g = - 2 ^ 63 -> startRevOf g = max_int64) /\
  (In EvSyncBase (trace (snd (runMirror w g))) <-> - 2 ^ 63 < mmrev g <= 1).
Proof.
  pose proof (startRevOf_cases g Hrange) as Hcases.
  assert (Hr := Hrange). unfold is_int64, max_int64 in Hr.
  split; [|split].
  - unfold max_int64. destruct Hcases as [[_ ->] | [[_ ->] | [H ->]]];
      unfold max_int64; lia.
  - intros He. destruct Hcases as [[_ H] | [[H _] | [H _]]]; [exact H | lia | lia].
  - unfold runMirror, makeMirror, call, initState. cbn [vars trace].
    assert (Hskip : startRevOf g <> 0 ->
                    ~ In EvSyncBase
                        (trace (snd (makeMirrorBody w (mkState g 0 []))))).
    { intros Hs. rewrite makeMirrorBody_skip by assumption.
      cbn [vars total trace app].
      match goal with |- context [watchLoop w ?wrs ?st] =>
        destruct (watchLoop_extends w wrs st) as (seg & Hseg & Hall) end.
      rewrite Hseg. cbn [trace app]. intros [H|[H|H]]; try discriminate.
      rewrite Forall_forall in Hall. destruct (Hall _ H) as [Hsetup _]. discriminate. }
    assert (Hbase : startRevOf g = 0 ->
                    In EvSyncBase
                       (trace (snd (makeMirrorBody w (mkState g 0 []))))).
    { intros Hs. rewrite makeMirrorBody_base by assumption.
      cbn [vars total trace app].
      match goal with |- context [bind ?a ?k ?st] =>
        destruct (after_SyncBase_extends w g st) as (rest & Hrest) end.
      rewrite Hrest. cbn [trace app]. right. left. reflexivity. }
    assert (Hsame : forall P : list Effect -> Prop,
               P (trace (snd (makeMirrorBody w (mkState g 0 [])))) ->
               P (trace (snd (match makeMirrorBody w (mkState g 0 []) with
                              | (Next _, st') => (@Next (option Error) None, st')
                              | (Halt (Return e), st') => (Next e, st')
                              | (Halt s, st') => (Halt s, st')
                              end)))).
    { intros P HP.
      destruct (makeMirrorBody w (mkState g 0 [])) as [[u|[e|c e|m]] st']; exact HP. }
    split.
    + intros Hin. destruct Hcases as [[He Hs] | [[H _] | [H Hs]]]; [| exact H |].
      * exfalso. revert Hin. apply Hsame. apply Hskip. rewrite Hs. discriminate.
      * exfalso. revert Hin. apply Hsame. apply Hskip. lia.
    + intros H. apply Hsame. apply Hbase.
      destruct Hcases as [[He _] | [[_ Hs] | [H1 _]]]; [lia | exact Hs | lia].
Qed.

(** X6 at [--rev -5]: the syncer starts at 0 and the base synchronisation
    is run. *)
Lemma base_sync_iff_starting_revision_witness :
  0 <= startRevOf (flagsRev (-5)) <= max_int64 /\
  In EvSyncBase (trace (snd (runMirror (sourceA []) (flagsRev (-5))))).
Proof.
  destruct (base_sync_iff_starting_revision (sourceA []) (flagsRev (-5)))
    as (H1 & _ & H3).
  - vm_compute. split; discriminate.
  - reflexivity.
  - split; [exact H1|]. apply H3. vm_compute. split; [reflexivity | discriminate].
Defined.

(* ------------------------------------------------------------------ *)
(** ** Postconditions of the whole command

    The rule of [Section Invariants] with separate conditions for going on
    and for halting: [Q] holds between statements, [E] relates the signal
    and the state when the run halts. *)

Section Outcomes.

Variable w : World.
Variable Q : State -> Prop.
Variable E : Signal -> State -> Prop.

Hypothesis E_return : forall e st, Q st -> E (Return (Some e)) st.
Hypothesis E_exit : forall c e st, Q st -> E (Exit c (Some e)) st.
Hypothesis E_panic : forall st, Q st -> E (Panic "unexpected event type") st.

Hypothesis Q_setup : forall e, isSetup e = true -> triple Q (emit e) (fun _ => Q) E.
Hypothesis Q_commit : forall ops, triple Q (commit w ops) (fun _ => Q) E.
Hypothesis Q_putKv : forall kv, triple Q (putKv w kv) (fun _ => Q) E.
Hypothesis Q_classify :
  forall op, triple Q (emit (EvAppend op) ;; addTotal) (fun _ => Q) E.
Hypothesis Q_setDestPrefix : forall p, triple Q (setDestPrefix p) (fun _ => Q) E.

Lemma outcome_ret {A} (a : A) : triple Q (ret a) (fun _ => Q) E.
Proof. intros st H. exact H. Qed.

Lemma outcome_halt {A} (s : Signal) :
  (forall st, Q st -> E s st) -> triple Q (@halt A s) (fun _ => Q) E.
Proof. intros HE st H. apply HE. exact H. Qed.

Lemma outcome_bind {A B} (c : M A) (k : A -> M B) :
  triple Q c (fun _ => Q) E ->
  (forall a, triple Q (k a) (fun _ => Q) E) ->
  triple Q (bind c k) (fun _ => Q) E.
Proof. intros Hc Hk. eapply triple_bind; [exact Hc | exact Hk]. Qed.

Lemma outcome_assoc {A} (a b : M unit) (c : M A) :
  triple Q ((a ;; b) ;; c) (fun _ => Q) E ->
  triple Q (a ;; b ;; c) (fun _ => Q) E.
Proof.
  intros H st HQ. specialize (H st HQ). unfold bind in *.
  destruct (a st) as [[u|s] st1]; [|exact H].
  destruct (b st1) as [[u'|s] st2]; exact H.
Qed.

Lemma outcome_flush (b : bool) ops :
  triple Q (if b then commit w ops ;; ret [] else ret ops) (fun _ => Q) E.
Proof.
  destruct b.
  - apply outcome_bind; [apply Q_commit | intros; apply outcome_ret].
  - apply outcome_ret.
Qed.

Lemma outcome_eventStep ls ev : triple Q (eventStep w ls ev) (fun _ => Q) E.
Proof.
  destruct ls as [lastRev ops]. unfold eventStep.
  apply outcome_bind; [apply outcome_flush | intros ops1].
  apply outcome_bind; [intros st H; exact H | intros g].
  apply outcome_bind; [apply outcome_flush | intros ops2].
  destruct (Type_ ev =? PUT); [|destruct (Type_ ev =? DELETE)].
  - apply outcome_assoc. apply outcome_bind; [apply Q_classify|].
    intros; apply outcome_ret.
  - apply outcome_assoc. apply outcome_bind; [apply Q_classify|].
    intros; apply outcome_ret.
  - apply outcome_halt. exact E_panic.
Qed.

Lemma outcome_eventsLoop evs ls : triple Q (eventsLoop w evs ls) (fun _ => Q) E.
Proof.
  unfold eventsLoop. revert ls. induction evs as [|x evs IH]; intros ls.
  - apply outcome_ret.
  - cbn [foldEach]. apply outcome_bind; [apply outcome_eventStep | exact IH].
Qed.

Lemma outcome_watchBody wr : triple Q (watchBody w wr) (fun _ => Q) E.
Proof.
  unfold watchBody. destruct (negb (CompactRevision wr =? 0)).
  - apply outcome_halt. apply E_return.
  - apply outcome_bind; [apply outcome_eventsLoop | intros ls].
    destruct (negb (len (snd ls) =? 0)); [apply Q_commit | apply outcome_ret].
Qed.

Lemma outcome_watchLoop wrs : triple Q (watchLoop w wrs) (fun _ => Q) E.
Proof. apply triple_forEach. intros; apply outcome_watchBody. Qed.

Lemma outcome_snapshotLoop chunks : triple Q (snapshotLoop w chunks) (fun _ => Q) E.
Proof.
  apply triple_forEach. intros r _. apply triple_forEach. intros kv _. apply Q_putKv.
Qed.

Lemma outcome_makeMirrorBody : triple Q (makeMirrorBody w) (fun _ => Q) E.
Proof.
  unfold makeMirrorBody.
  apply outcome_bind; [intros st H; exact H | intros g].
  apply outcome_bind.
  { destruct (_ && _); [apply outcome_halt, E_exit | apply outcome_ret]. }
  intros _.
  apply outcome_bind; [apply Q_setup; reflexivity | intros _].
  apply outcome_bind.
  { destruct (startRevOf g =? 0); [|apply outcome_ret].
    apply outcome_bind; [apply Q_setup; reflexivity | intros _].
    apply outcome_bind.
    { destruct (_ && _); [apply Q_setDestPrefix | apply outcome_ret]. }
    intros _.
    apply outcome_bind; [apply outcome_snapshotLoop | intros _].
    destruct (baseErr w); [apply outcome_halt, E_return | apply outcome_ret]. }
  intros _.
  apply outcome_bind; [apply Q_setup; reflexivity | intros _].
  apply outcome_watchLoop.
Qed.

End Outcomes.

(* ------------------------------------------------------------------ *)
(** ** Nothing follows a refused request *)

Lemma unrefused_snoc tr e :
  unrefused tr -> refusal e = None -> unrefused (tr ++ [e]).
Proof.
  intros H He. apply Forall_app. split; [exact H | repeat constructor; exact He].
Qed.

Section FailFast.

Variable w : World.

Let Q : State -> Prop := fun st => unrefused (trace st).

Lemma failfast_emit e :
  refusal e = None -> triple Q (emit e) (fun _ => Q) stoppedBy.
Proof. intros He st H. apply unrefused_snoc; assumption. Qed.

Lemma failfast_commit ops : triple Q (commit w ops) (fun _ => Q) stoppedBy.
Proof.
  intros st H. unfold commit.
  destruct (dstReply w (dstCalls (trace st))) as [e|].
  - right. eexists _, _, e. cbn [trace].
    split; [reflexivity|]. split; [exact H|]. split; reflexivity.
  - apply unrefused_snoc; [exact H | reflexivity].
Qed.

Lemma failfast_putKv kv : triple Q (putKv w kv) (fun _ => Q) stoppedBy.
Proof.
  intros st H. unfold putKv, bind, getVars, dcPut, addTotal.
  destruct (dstReply w (dstCalls (trace st))) as [e|].
  - right. eexists _, _, e. cbn [trace].
    split; [reflexivity|]. split; [exact H|]. split; reflexivity.
  - cbn [vars total trace]. unfold Q. cbn [trace].
    apply unrefused_snoc; [apply unrefused_snoc|]; auto.
Qed.

Lemma failfast_classify op :
  triple Q (emit (EvAppend op) ;; addTotal) (fun _ => Q) stoppedBy.
Proof.
  intros st H. unfold bind, emit, addTotal. cbn [vars total trace]. unfold Q.
  cbn [trace]. apply unrefused_snoc; [apply unrefused_snoc|]; auto.
Qed.

Lemma failfast_makeMirrorBody :
  triple Q (makeMirrorBody w) (fun _ => Q) stoppedBy.
Proof.
  apply outcome_makeMirrorBody.
  - intros e st H. left. exact H.
  - intros c e st H. left. exact H.
  - intros st H. left. exact H.
  - intros e He. apply failfast_emit. destruct e; try reflexivity; discriminate.
  - apply failfast_commit.
  - apply failfast_putKv.
  - apply failfast_classify.
  - intros p st H. exact H.
Qed.

End FailFast.

Lemma unrefused_no_refusal tr pre x post err :
  unrefused tr -> tr = pre ++ x :: post -> refusal x = Some err -> False.
Proof.
  intros H -> Hx. apply Forall_app in H as [_ H]. inversion H; congruence.
Qed.

(** X7: the run is fail-fast.  When the destination refuses a Put or a
    transaction, that request is the last effect of the run: no further
    Put or transaction is sent, nothing more is counted, and the command
    exits with [ExitError] and the error of that very request.  So at most
    one request of a run is refused, and a refused request is not sent
    again. *)
Theorem refused_request_ends_run
        (w : World) (g : Globals) (args : list string)
        (pre post : list Effect) (x : Effect) (err : Error)
        (Htrace : trace (snd (runCommand w g args)) = pre ++ x :: post)
        (Hx : refusal x = Some err) :
  post = [] /\
  unrefused pre /\
  fst (runCommand w g args) = Halt (Exit ExitError (Some err)).
Proof.
  revert Htrace. rewrite runCommand_eq.
  destruct (negb (len args =? 1)).
  { cbn [snd initState trace]. intros H. destruct pre; discriminate. }
  destruct (authDestCfg_cases w g) as [(auth & p & -> & Hp) | (e & ->)].
  2:{ cbn [snd trace]. intros H. exfalso.
      assert (Hu : unrefused [EvAsk "Destination Password: "])
        by (repeat constructor).
      exact (unrefused_no_refusal _ _ _ _ _ Hu H Hx). }
  unfold makeMirror, call. cbn [vars trace].
  set (st0 := mkState g 0 _).
  assert (H0 : unrefused (trace st0)).
  { unfold st0. cbn [trace]. apply Forall_app. split.
    - destruct Hp as [-> | ->]; repeat constructor.
    - repeat constructor. }
  pose proof (failfast_makeMirrorBody w st0 H0) as Hb.
  destruct (makeMirrorBody w st0) as [[u|s] st1].
  - cbn [snd]. intros H. exfalso. exact (unrefused_no_refusal _ _ _ _ _ Hb H Hx).
  - assert (Hsnd : forall (r : Step (option Error) * State),
               r = match s with
                   | Return e => (Next e, st1)
                   | _ => (Halt s, st1)
                   end -> snd r = st1).
    { intros r ->. destruct s; reflexivity. }
    destruct Hb as [Hb | (pre' & x' & err' & Htr & Hpre & Hx' & ->)].
    + intros H. exfalso.
      assert (Hst : trace st1 = pre ++ x :: post).
      { rewrite <- H. destruct s as [e|c e|m]; reflexivity. }
      exact (unrefused_no_refusal _ _ _ _ _ Hb Hst Hx).
    + cbn [fst snd]. rewrite Htr. intros H.
      destruct post as [|y post] using rev_ind.
      * apply app_inj_tail in H as [-> ->].
        split; [reflexivity|]. split; [exact Hpre|]. congruence.
      * exfalso. clear IHpost.
        change (pre ++ x :: post ++ [y]) with (pre ++ (x :: post) ++ [y]) in H.
        rewrite app_assoc in H. apply app_inj_tail in H as [H _].
        exact (unrefused_no_refusal _ _ _ _ _ Hpre H Hx).
Qed.

(** X7 on a run whose only transaction is refused: the refusal is the last
    effect and its error is the one the command exits with. *)
Lemma refused_request_ends_run_witness :
  fst refusedRun = Halt (Exit ExitError (Some (ErrExternal 1))).
Proof.
  refine (proj2 (proj2 (refused_request_ends_run
            (sourceRefused [mkWatchResponse 0 [ev_a1]]) (flagsAB 128 2)
            ["10.0.0.2:2379"%string]
            [EvMustClient "10.0.0.2:2379" None; EvMustClientFromCmd;
             EvNewSyncer "/a/" 1; EvSyncUpdates;
             EvAppend (OpPut "/b/1" "x"); EvAddTotal 1]
            [] (EvTxn [OpPut "/b/1" "x"] (Some (ErrExternal 1)))
            (ErrExternal 1) _ _))).
  - vm_compute. reflexivity.
  - reflexivity.
Defined.

(* ------------------------------------------------------------------ *)
(** ** What is written comes from the source, in its order *)

Lemma putKv_eq (w : World) kv st :
  putKv w kv st
  = match dstReply w (dstCalls (trace st)) with
    | Some e =>
        (Halt (Return (Some e)),
         logged st (EvPut (modifyPrefix (vars st) (Key kv)) (Value kv) (Some e)))
    | None =>
        (Next tt,
         mkState (vars st) (int64_wrap (total st + 1))
           (trace st ++ [EvPut (modifyPrefix (vars st) (Key kv)) (Value kv) None;
                         EvAddTotal (int64_wrap (total st + 1))]))
    end.
Proof.
  unfold putKv, bind, getVars, dcPut, addTotal, logged.
  destruct (dstReply w (dstCalls (trace st))); [reflexivity|].
  cbn [vars total trace]. rewrite <- app_assoc. reflexivity.
Qed.

Lemma putKvs_prefix (w : World) kvs :
  forall st,
    vars (snd (forEach kvs (putKv w) st)) = vars st /\
    exists k,
      (k <= List.length kvs)%nat /\
      putsOf (trace (snd (forEach kvs (putKv w) st)))
      = putsOf (trace st) ++ firstn k (map (putOf (vars st)) kvs) /\
      (fst (forEach kvs (putKv w) st) = Next tt -> k = List.length kvs).
Proof.
  induction kvs as [|kv kvs IH]; intros st.
  - cbn [forEach ret fst snd]. split; [reflexivity|]. exists O.
    rewrite app_nil_r. auto.
  - cbn [forEach]. unfold bind. rewrite putKv_eq.
    destruct (dstReply w (dstCalls (trace st))) as [e|].
    + cbn [fst snd logged vars trace]. split; [reflexivity|]. exists 1%nat.
      split; [cbn [List.length]; lia|]. split; [|discriminate].
      rewrite putsOf_app. reflexivity.
    + cbn [vars total trace].
      match goal with |- context [forEach kvs (putKv w) ?st1] =>
        destruct (IH st1) as (Hv & k & Hk & Hp & Hn) end.
      cbn [vars trace] in *. split; [exact Hv|]. exists (S k).
      split; [cbn [List.length]; lia|]. split.
      * rewrite Hp, !putsOf_app, <- !app_assoc. reflexivity.
      * intros H. rewrite (Hn H). reflexivity.
Qed.

Lemma snapshotLoop_prefix (w : World) chunks :
  forall st,
    vars (snd (snapshotLoop w chunks st)) = vars st /\
    exists k,
      (k <= List.length (allKvs chunks))%nat /\
      putsOf (trace (snd (snapshotLoop w chunks st)))
      = putsOf (trace st) ++ firstn k (map (putOf (vars st)) (allKvs chunks)) /\
      (fst (snapshotLoop w chunks st) = Next tt -> k = List.length (allKvs chunks)).
Proof.
  unfold snapshotLoop, allKvs.
  induction chunks as [|r chunks IH]; intros st.
  - cbn [forEach ret fst snd map List.concat]. split; [reflexivity|]. exists O.
    rewrite app_nil_r. auto.
  - cbn [forEach map List.concat]. unfold bind.
    destruct (putKvs_prefix w (Kvs r) st) as (Hv & k & Hk & Hp & Hn).
    destruct (forEach (Kvs r) (putKv w) st) as [[[]|s] st1]; cbn [fst snd] in *.
    + specialize (Hn eq_refl). subst k.
      rewrite firstn_all2 in Hp by (rewrite List.length_map; lia).
      destruct (IH st1) as (Hv' & k' & Hk' & Hp' & Hn').
      split; [congruence|]. exists (List.length (Kvs r) + k')%nat.
      rewrite List.length_app. split; [lia|]. split.
      * rewrite Hp', Hp, Hv, map_app, <- app_assoc. f_equal.
        rewrite <- (List.length_map (putOf (vars st)) (Kvs r)).
        rewrite firstn_app_2. reflexivity.
      * intros H. rewrite (Hn' H). reflexivity.
    + split; [exact Hv|]. exists k. rewrite List.length_app. split; [lia|].
      split; [|discriminate].
      rewrite Hp, map_app, firstn_app, List.length_map.
      replace (k - List.length (Kvs r))%nat with O by lia.
      cbn [firstn]. rewrite app_nil_r. reflexivity.
Qed.

Lemma call_snd (c : M unit) (st : State) : snd (call c st) = snd (c st).
Proof. unfold call. destruct (c st) as [[u|[e|k e|m]] st']; reflexivity. Qed.

Lemma runMirror_snd (w : World) (g : Globals) :
  snd (runMirror w g) = snd ((beforeWatch w ;; watchLoop w (watchResponses w))
                               (mkState g 0 [])).
Proof.
  unfold runMirror, makeMirror, initState. cbn [vars trace].
  rewrite call_snd, makeMirrorBody_split. reflexivity.
Qed.

(** The statements before the watch loop, case by case. *)
Lemma beforeWatch_eq (w : World) (st : State) :
  beforeWatch w st
  = if mmnodestprefix (vars st) && (str_len (mmdestprefix (vars st)) >? 0)
    then (Halt (Exit ExitBadArgs (Some (ErrNew conflictMsg))), st)
    else if startRevOf (vars st) =? 0
    then match snapshotLoop w (baseChunks w)
                 (mkState (defaulted (vars st)) (total st)
                    (trace st ++ [EvNewSyncer (mmprefix (vars st)) 0; EvSyncBase])) with
         | (Next _, st2) =>
             match baseErr w with
             | Some err => (Halt (Return (Some err)), st2)
             | None => (Next tt, logged st2 EvSyncUpdates)
             end
         | (Halt s, st2) => (Halt s, st2)
         end
    else (Next tt,
          mkState (vars st) (total st)
            (trace st ++ [EvNewSyncer (mmprefix (vars st)) (startRevOf (vars st));
                          EvSyncUpdates])).
Proof.
  unfold beforeWatch, getVars. unfold bind at 1.
  destruct (mmnodestprefix (vars st) && (str_len (mmdestprefix (vars st)) >? 0));
    [reflexivity|].
  unfold bind at 1. unfold ret at 1. unfold bind at 1. unfold emit at 1.
  cbn [vars total trace].
  destruct (startRevOf (vars st) =? 0) eqn:Hs.
  - apply Z.eqb_eq in Hs. rewrite Hs.
    unfold bind at 1. unfold bind at 1. unfold emit at 1. cbn [vars total trace].
    rewrite <- app_assoc. cbn [app].
    unfold bind at 1. unfold defaulted.
    destruct (negb (mmnodestprefix (vars st)) && (str_len (mmdestprefix (vars st)) =? 0)).
    + unfold setDestPrefix. cbn [vars total trace]. unfold bind.
      destruct (snapshotLoop w (baseChunks w) _) as [[u|s] st2]; [|reflexivity].
      destruct (baseErr w); reflexivity.
    + unfold ret at 1. unfold bind.
      destruct (snapshotLoop w (baseChunks w) _) as [[u|s] st2]; [|reflexivity].
      destruct (baseErr w); reflexivity.
  - unfold bind, ret, emit. cbn [vars total trace]. rewrite <- app_assoc. reflexivity.
Qed.

Lemma committedOf_no_txn tr : txnsOf tr = [] -> committedOf tr = [].
Proof.
  induction tr as [|e tr IH]; [reflexivity|].
  destruct e as [| | | | | | |ops [err|] | |]; simpl; try exact IH; discriminate.
Qed.

Lemma putsOf_no_snapshot seg :
  Forall (fun e => isSetup e = false /\ isSnapshotOp e = false) seg -> putsOf seg = [].
Proof.
  induction 1 as [|e seg [_ He] _ IH]; [reflexivity|].
  destruct e; simpl; try exact IH; discriminate.
Qed.

(** What the statements before the watch loop leave behind. *)
Lemma beforeWatch_puts (w : World) (st : State) :
  putsOf (trace st) = [] ->
  (exists k,
      putsOf (trace (snd (beforeWatch w st)))
      = firstn k (map (putOf (vars (snd (beforeWatch w st)))) (allKvs (baseChunks w)))) /\
  (flagsCompatible (vars st) -> startRevOf (vars st) = 0 ->
   vars (snd (beforeWatch w st)) = defaulted (vars st)).
Proof.
  intros H0. rewrite beforeWatch_eq.
  destruct (mmnodestprefix (vars st) && (str_len (mmdestprefix (vars st)) >? 0)) eqn:Hc.
  { cbn [snd]. split; [exists O; exact H0|].
    unfold flagsCompatible. congruence. }
  destruct (startRevOf (vars st) =? 0) eqn:Hs.
  - match goal with |- context [snapshotLoop w ?ch ?st1] =>
      destruct (snapshotLoop_prefix w ch st1) as (Hv & k & _ & Hp & _) end.
    cbn [vars trace] in Hv, Hp. rewrite putsOf_app, H0 in Hp. cbn [putsOf app] in Hp.
    destruct (snapshotLoop w (baseChunks w) _) as [[u|s] st2]; cbn [snd] in *.
    + destruct (baseErr w); cbn [snd logged vars trace].
      * split; [exists k; rewrite Hp, Hv; reflexivity | intros _ _; exact Hv].
      * split; [|intros _ _; exact Hv].
        exists k. rewrite putsOf_app, Hp, Hv, app_nil_r. reflexivity.
    + split; [exists k; rewrite Hp, Hv; reflexivity | intros _ _; exact Hv].
  - cbn [snd vars trace]. split.
    + exists O. rewrite putsOf_app, H0. reflexivity.
    + intros _ H. apply Z.eqb_neq in Hs. congruence.
Qed.

(** The committed operations are, in order, the first operations of the
    events of the stream. *)
Lemma watchLoop_order (w : World) wrs :
  forall st,
    exists P rest,
      List.concat (committedOf (trace (snd (watchLoop w wrs st))))
      = List.concat (committedOf (trace st)) ++ P /\
      P ++ rest = allOps (vars st) wrs /\
      (fst (watchLoop w wrs st) = Next tt -> rest = []).
Proof.
  unfold watchLoop, allOps. induction wrs as [|wr wrs IH]; intros st.
  - exists [], []. cbn [forEach ret fst snd]. rewrite app_nil_r. auto.
  - cbn [forEach map List.concat]. unfold bind.
    destruct (watchBody_groups w wr st) as (Hv & grp & Hc & (rest0 & Hrest) & Hall).
    destruct (watchBody w wr st) as [[[]|s] st1]; cbn [fst snd] in *.
    + specialize (Hall eq_refl).
      destruct (IH st1) as (P & rest & HP & HPr & Hn). rewrite Hv in HPr.
      exists (map (opOf (vars st)) (Events wr) ++ P), rest. split; [|split].
      * rewrite HP, Hc, concat_app, Hall, <- app_assoc. reflexivity.
      * rewrite <- app_assoc, HPr. reflexivity.
      * exact Hn.
    + exists (List.concat grp),
        (rest0 ++ List.concat (map (fun wr0 => map (opOf (vars st)) (Events wr0)) wrs)).
      split; [|split].
      * rewrite Hc, concat_app. reflexivity.
      * rewrite app_assoc, Hrest. reflexivity.
      * discriminate.
Qed.

(** Where the writes of a run come from. *)
Lemma runMirror_provenance (w : World) (g : Globals) :
  (exists k,
      putsOf (trace (snd (runMirror w g)))
      = firstn k (map (putOf (vars (snd (runMirror w g)))) (allKvs (baseChunks w)))) /\
  (exists rest,
      List.concat (committedOf (trace (snd (runMirror w g)))) ++ rest
      = allOps (vars (snd (runMirror w g))) (watchResponses w)) /\
  (forall ops r op,
      In (EvTxn ops r) (trace (snd (runMirror w g))) -> In op ops ->
      exists wr ev,
        In wr (watchResponses w) /\ In ev (Events wr) /\
        op = opOf (vars (snd (runMirror w g))) ev).
Proof.
  rewrite runMirror_snd. unfold bind.
  set (st0 := mkState g 0 []).
  destruct (beforeWatch_puts w st0 eq_refl) as ((k & Hputs) & _).
  destruct (beforeWatch_no_txn w st0 eq_refl) as (Htx & _).
  destruct (beforeWatch w st0) as [[u|s] st1]; cbn [snd] in *.
  - destruct (watchLoop_extends w (watchResponses w) st1) as (seg & Hseg & Hall).
    destruct (watchLoop_attempted w (watchResponses w) st1) as (Hv & Hts).
    destruct (watchLoop_order w (watchResponses w) st1) as (P & rest & HP & HPr & _).
    rewrite Hv. split; [|split].
    + exists k. rewrite Hseg, putsOf_app, (putsOf_no_snapshot seg Hall), app_nil_r.
      exact Hputs.
    + exists rest. rewrite HP, (committedOf_no_txn _ Htx). exact HPr.
    + intros ops r op Hin Hop. apply In_txnsOf in Hin.
      destruct (Hts ops Hin) as [H|(wr & Hwr & H)]; [rewrite Htx in H; destruct H|].
      assert (Hc : In op (List.concat (responseTxns (vars st1) (Events wr)))).
      { apply in_concat. exists ops. auto. }
      rewrite responseTxns_concat in Hc. apply in_map_iff in Hc as (ev & <- & Hev).
      exists wr, ev. auto.
  - split; [exists k; exact Hputs|]. split.
    + rewrite (committedOf_no_txn _ Htx). eexists. reflexivity.
    + intros ops r op Hin. apply In_txnsOf in Hin. rewrite Htx in Hin. destruct Hin.
Qed.

(** X8: a run writes nothing but the data of the source, in the order of
    the source.  The Puts that were sent are, in order, the first pairs of
    the base synchronisation, each under its mapped key with its value; the
    operations of the accepted transactions, taken together in commit
    order, are the operations of the first events of the watch stream, with
    no event skipped, repeated or moved; and each operation of each
    transaction that was sent is the operation of an event of the stream.
    The key mapping is the one of the package variables at the end of the
    run. *)
Theorem mirror_writes_source_in_order (w : World) (g : Globals) :
  (exists k,
      putsOf (trace (snd (runMirror w g)))
      = firstn k (map (putOf (vars (snd (runMirror w g)))) (allKvs (baseChunks w)))) /\
  (exists rest,
      List.concat (committedOf (trace (snd (runMirror w g)))) ++ rest
      = allOps (vars (snd (runMirror w g))) (watchResponses w)) /\
  (forall ops r op,
      In (EvTxn ops r) (trace (snd (runMirror w g))) -> In op ops ->
      exists wr ev,
        In wr (watchResponses w) /\ In ev (Events wr) /\
        op = opOf (vars (snd (runMirror w g))) ev).
Proof. exact (runMirror_provenance w g). Qed.

(** X8 on a run that copies one pair and one response of five events with
    limit 2. *)
Lemma mirror_writes_source_in_order_witness :
  (exists k,
      putsOf (trace (snd (runMirror (sourceA [watchMixed]) (flagsAB 2 0))))
      = firstn k [("/b/0"%string, "v0"%string)]) /\
  (forall ops r op,
      In (EvTxn ops r) (trace (snd (runMirror (sourceA [watchMixed]) (flagsAB 2 0)))) ->
      In op ops ->
      exists wr ev,
        In wr [watchMixed] /\ In ev (Events wr) /\ op = opOf (flagsAB 2 0) ev).
Proof.
  destruct (mirror_writes_source_in_order (sourceA [watchMixed]) (flagsAB 2 0))
    as (H1 & _ & H3).
  split; [exact H1 | exact H3].
Defined.

Lemma snapshotLoop_extends (w : World) chunks st :
  exists seg,
    trace (snd (snapshotLoop w chunks st)) = trace st ++ seg /\
    Forall (fun e => isSetup e = false) seg.
Proof.
  pose proof (invariant_snapshotLoop w
                (extends (trace st) (fun e => isSetup e = false)) (fun _ => True)) as H.
  assert (Hput : forall kv,
             invariant (extends (trace st) (fun e => isSetup e = false))
                       (fun _ => True) (putKv w kv)).
  { intros kv. apply extends_putKv; [intros; exact I | reflexivity | reflexivity]. }
  specialize (H Hput chunks st).
  assert (H0 : extends (trace st) (fun e => isSetup e = false) st).
  { exists []. rewrite app_nil_r. split; [reflexivity | constructor]. }
  specialize (H H0).
  destruct (snapshotLoop w chunks st) as [[u|s] st']; simpl; [exact H | exact (proj1 H)].
Qed.

(** X9: an error of the source after the base synchronisation.  When the
    destination accepts every Put and the source reports an error on its
    error channel, every pair received has been written, in order, the
    counter shows their number, [makeMirror] returns that error, and the
    watch is never started: [SyncUpdates] is not called and no transaction
    is sent. *)
Theorem source_error_after_base_sync
        (w : World) (g : Globals) (err : Error)
        (Hc : flagsCompatible g)
        (Hs : startRevOf g = 0)
        (Hacc : accepting w)
        (Herr : baseErr w = Some err) :
  fst (runMirror w g) = Next (Some err) /\
  putsOf (trace (snd (runMirror w g)))
  = map (putOf (defaulted g)) (allKvs (baseChunks w)) /\
  total (snd (runMirror w g)) = int64_wrap (len (allKvs (baseChunks w))) /\
  ~ In EvSyncUpdates (trace (snd (runMirror w g))) /\
  txnsOf (trace (snd (runMirror w g))) = [].
Proof.
  unfold runMirror, makeMirror, call, initState. cbn [vars trace].
  rewrite makeMirrorBody_split. unfold bind.
  set (st0 := mkState g 0 []).
  destruct (beforeWatch_no_txn w st0 eq_refl) as (Htx & _).
  revert Htx. rewrite beforeWatch_eq. cbn [vars total trace st0 app].
  unfold flagsCompatible in Hc. rewrite Hc, Hs. cbn [Z.eqb].
  set (st1 := mkState (defaulted g) 0 [EvNewSyncer (mmprefix g) 0; EvSyncBase]).
  destruct (snapshotLoop_extends w (baseChunks w) st1) as (seg & Hseg & Hall).
  destruct (snapshotLoop_accepting w Hacc (baseChunks w) st1) as (st2 & Hrun & _ & Hp & Ht).
  { cbn [total st1]. unfold is_int64, max_int64. lia. }
  rewrite Hrun in *. rewrite Herr. cbn [fst snd] in *. intros Htx.
  split; [reflexivity|]. split; [exact Hp|]. split; [exact Ht|]. split; [|exact Htx].
  rewrite Hseg. cbn [st1 trace app]. intros [H|[H|H]]; try discriminate.
  rewrite Forall_forall in Hall. specialize (Hall _ H). discriminate.
Qed.

(** X9 on a source that delivers two pairs and then an error. *)
Lemma source_error_after_base_sync_witness :
  fst (runMirror sourceFailing (flagsAB 128 0)) = Next (Some (ErrExternal 7)) /\
  putsOf (trace (snd (runMirror sourceFailing (flagsAB 128 0))))
  = [("/b/0"%string, "v0"%string); ("/b/1"%string, "v1"%string)].
Proof.
  destruct (source_error_after_base_sync sourceFailing (flagsAB 128 0) (ErrExternal 7))
    as (H1 & H2 & _); try reflexivity.
  - intros n. reflexivity.
  - split; [exact H1 | exact H2].
Defined.

Lemma runMirror_vars_base (w : World) (g : Globals) :
  flagsCompatible g -> startRevOf g = 0 ->
  vars (snd (runMirror w g)) = defaulted g.
Proof.
  intros Hc Hs. rewrite runMirror_snd. unfold bind.
  set (st0 := mkState g 0 []).
  destruct (beforeWatch_puts w st0 eq_refl) as (_ & Hv).
  specialize (Hv Hc Hs). change (vars st0) with g in Hv.
  destruct (beforeWatch w st0) as [[u|s] st1]; cbn [snd] in *; [|exact Hv].
  destruct (watchLoop_attempted w (watchResponses w) st1) as (Hv' & _).
  congruence.
Qed.

Lemma opOf_identity (g : Globals) (ev : Event) :
  mmdestprefix g = mmprefix g -> opOf g ev = plainOp ev.
Proof.
  intros H. unfold opOf, plainOp. rewrite !modifyPrefix_default by exact H. reflexivity.
Qed.

(** X10: without [--dest-prefix] and without [--no-dest-prefix], a run that
    begins with the base synchronisation (starting revision at most 1)
    mirrors every key unchanged: each Put carries the key and the value of
    a pair of the source as they are, and each operation of each
    transaction is the Put or Delete of an event with its own key. *)
Theorem unset_dest_prefix_keeps_keys
        (w : World) (g : Globals)
        (Hno : mmnodestprefix g = false)
        (Hdest : mmdestprefix g = EmptyString)
        (Hs : startRevOf g = 0) :
  (exists k,
      putsOf (trace (snd (runMirror w g)))
      = firstn k (map (fun kv => (Key kv, Value kv)) (allKvs (baseChunks w)))) /\
  (forall ops r op,
      In (EvTxn ops r) (trace (snd (runMirror w g))) -> In op ops ->
      exists wr ev,
        In wr (watchResponses w) /\ In ev (Events wr) /\ op = plainOp ev).
Proof.
  assert (Hc : flagsCompatible g) by (unfold flagsCompatible; rewrite Hno; reflexivity).
  pose proof (runMirror_vars_base w g Hc Hs) as Hv.
  assert (Hid : mmdestprefix (defaulted g) = mmprefix (defaulted g)).
  { unfold defaulted. rewrite Hno, Hdest. reflexivity. }
  destruct (runMirror_provenance w g) as ((k & Hp) & _ & Hops).
  rewrite Hv in *. split.
  - exists k. rewrite Hp. f_equal. apply map_ext. intros kv. unfold putOf.
    rewrite modifyPrefix_default by exact Hid. reflexivity.
  - intros ops r op Hin Hop. destruct (Hops ops r op Hin Hop) as (wr & ev & H1 & H2 & ->).
    exists wr, ev. split; [exact H1|]. split; [exact H2|].
    apply opOf_identity. exact Hid.
Qed.

(** X10 with the default flags of the command: the pair of the source is
    written under its own key. *)
Lemma unset_dest_prefix_keeps_keys_witness :
  exists k,
    putsOf (trace (snd (runMirror (sourceA [watchMixed]) defaultFlags)))
    = firstn k [("/a/0"%string, "v0"%string)].
Proof.
  exact (proj1 (unset_dest_prefix_keeps_keys (sourceA [watchMixed]) defaultFlags
                  eq_refl eq_refl eq_refl)).
Defined.

(* ------------------------------------------------------------------ *)
(** ** What the counter counts, in terms of the source *)

Lemma okPutsOf_app tr1 tr2 : okPutsOf (tr1 ++ tr2) = okPutsOf tr1 ++ okPutsOf tr2.
Proof.
  induction tr1 as [|e tr1 IH]; [reflexivity|].
  destruct e as [| | | | | |k v [err|]| | |]; simpl; rewrite IH; reflexivity.
Qed.

Lemma appendsOf_app tr1 tr2 : appendsOf (tr1 ++ tr2) = appendsOf tr1 ++ appendsOf tr2.
Proof.
  induction tr1 as [|e tr1 IH]; [reflexivity|].
  destruct e; simpl; rewrite IH; reflexivity.
Qed.

Lemma countIf_okPuts tr : countIf isOkPut tr = len (okPutsOf tr).
Proof.
  unfold countIf, len. induction tr as [|e tr IH]; [reflexivity|].
  destruct e as [| | | | | |k v [err|]| | |]; simpl in *; try exact IH.
  lia.
Qed.

Lemma countIf_appends tr : countIf isAppend tr = len (appendsOf tr).
Proof.
  unfold countIf, len. induction tr as [|e tr IH]; [reflexivity|].
  destruct e; simpl in *; try exact IH. lia.
Qed.

Lemma appendsOf_flushEffects g lastRev ops ev :
  appendsOf (flushEffects g lastRev ops ev) = [].
Proof.
  unfold flushEffects.
  destruct (boundary lastRev ev), (full g (afterBoundary lastRev ops ev)); reflexivity.
Qed.

Lemma okPutsOf_flushEffects g lastRev ops ev :
  okPutsOf (flushEffects g lastRev ops ev) = [].
Proof.
  unfold flushEffects.
  destruct (boundary lastRev ev), (full g (afterBoundary lastRev ops ev)); reflexivity.
Qed.

(** A piece of a list that begins a prefix of [l] is a prefix of [l]. *)
Lemma firstn_prefix {A} (l a b : list A) n :
  firstn n l = a ++ b ->
  a = firstn (List.length a) l /\ (List.length a <= List.length l)%nat.
Proof.
  intros H.
  assert (Hlen : (List.length a <= Nat.min n (List.length l))%nat).
  { rewrite <- (@List.length_firstn A n l), H, List.length_app. lia. }
  split; [|lia].
  transitivity (firstn (List.length a) (a ++ b)).
  - rewrite firstn_app, Nat.sub_diag, firstn_all. cbn [firstn].
    symmetry. apply app_nil_r.
  - rewrite <- H, firstn_firstn. f_equal. lia.
Qed.

(** The event loop turns the events into operations one by one, in their
    order, and sends no Put. *)
Lemma eventsLoop_appends (w : World) evs :
  forall ls st,
    vars (snd (eventsLoop w evs ls st)) = vars st /\
    okPutsOf (trace (snd (eventsLoop w evs ls st))) = okPutsOf (trace st) /\
    exists k,
      (k <= List.length evs)%nat /\
      appendsOf (trace (snd (eventsLoop w evs ls st)))
      = appendsOf (trace st) ++ firstn k (map (opOf (vars st)) evs) /\
      (forall ls', fst (eventsLoop w evs ls st) = Next ls' -> k = List.length evs).
Proof.
  unfold eventsLoop.
  induction evs as [|x evs IH]; intros [lastRev ops] st.
  - cbn [foldEach ret fst snd]. split; [reflexivity|]. split; [reflexivity|].
    exists O. rewrite app_nil_r. auto.
  - cbn [foldEach]. unfold bind.
    destruct (eventStep_outcome w lastRev ops x st) as (seg & Hout & Htr & Hv1).
    destruct (eventStep w (lastRev, ops) x st) as [r st1]. cbn [fst snd] in *.
    inversion Hout; subst seg r; cbn [fst snd].
    + split; [exact Hv1|]. rewrite Htr, okPutsOf_app, appendsOf_app.
      cbn [okPutsOf appendsOf]. rewrite !app_nil_r. split; [reflexivity|].
      exists O. cbn [firstn]. rewrite app_nil_r.
      split; [lia|]. split; [reflexivity | discriminate].
    + split; [exact Hv1|]. rewrite Htr, okPutsOf_app, appendsOf_app.
      assert (H1 : okPutsOf ((if boundary lastRev x then [EvTxn ops None] else [])
                             ++ [EvTxn (afterBoundary lastRev ops x) (Some e)]) = [])
        by (destruct (boundary lastRev x); reflexivity).
      assert (H2 : appendsOf ((if boundary lastRev x then [EvTxn ops None] else [])
                              ++ [EvTxn (afterBoundary lastRev ops x) (Some e)]) = [])
        by (destruct (boundary lastRev x); reflexivity).
      rewrite H1, H2, !app_nil_r. split; [reflexivity|].
      exists O. cbn [firstn]. rewrite app_nil_r.
      split; [lia|]. split; [reflexivity | discriminate].
    + split; [exact Hv1|].
      rewrite Htr, okPutsOf_app, appendsOf_app, okPutsOf_flushEffects,
        appendsOf_flushEffects, !app_nil_r.
      split; [reflexivity|].
      exists O. cbn [firstn]. rewrite app_nil_r.
      split; [lia|]. split; [reflexivity | discriminate].
    + destruct (IH (revOf x, pendingAfter (vars st) lastRev ops x) st1)
        as (Hv & Hp & k & Hk & Ha & Hn).
      split; [congruence|]. split.
      * rewrite Hp, Htr, !okPutsOf_app, okPutsOf_flushEffects. cbn [okPutsOf app].
        rewrite app_nil_r. reflexivity.
      * exists (S k). cbn [List.length]. split; [lia|]. split.
        { rewrite Ha, Htr, !appendsOf_app, appendsOf_flushEffects, Hv1.
          cbn [appendsOf app map firstn]. rewrite <- app_assoc. reflexivity. }
        { intros ls' Hfst. rewrite (Hn ls' Hfst). reflexivity. }
Qed.

Lemma watchBody_appends (w : World) (wr : WatchResponse) (st : State) :
  vars (snd (watchBody w wr st)) = vars st /\
  okPutsOf (trace (snd (watchBody w wr st))) = okPutsOf (trace st) /\
  exists k,
    (k <= List.length (Events wr))%nat /\
    appendsOf (trace (snd (watchBody w wr st)))
    = appendsOf (trace st) ++ firstn k (map (opOf (vars st)) (Events wr)) /\
    (fst (watchBody w wr st) = Next tt -> k = List.length (Events wr)).
Proof.
  unfold watchBody. destruct (negb (CompactRevision wr =? 0)).
  - cbn [halt fst snd]. split; [reflexivity|]. split; [reflexivity|].
    exists O. cbn [firstn]. rewrite app_nil_r.
    split; [lia|]. split; [reflexivity | discriminate].
  - unfold bind.
    destruct (eventsLoop_appends w (Events wr) (0, []) st) as (Hv & Hp & k & Hk & Ha & Hn).
    destruct (eventsLoop w (Events wr) (0, []) st) as [[ls|s] st1]; cbn [fst snd] in *.
    + specialize (Hn ls eq_refl).
      destruct (negb (len (snd ls) =? 0)).
      * unfold commit. destruct (dstReply w (dstCalls (trace st1))) as [e|];
          cbn [fst snd vars trace]; rewrite okPutsOf_app, appendsOf_app;
          cbn [okPutsOf appendsOf]; rewrite !app_nil_r;
          (split; [exact Hv|]); (split; [exact Hp|]); exists k;
          (split; [exact Hk|]); (split; [exact Ha|]); intros _; exact Hn.
      * cbn [ret fst snd]. split; [exact Hv|]. split; [exact Hp|]. exists k. auto.
    + split; [exact Hv|]. split; [exact Hp|]. exists k.
      split; [exact Hk|]. split; [exact Ha | discriminate].
Qed.

Lemma firstn_map_app_le {A B} (f : A -> B) (l1 l2 : list A) k :
  (k <= List.length l1)%nat ->
  firstn k (map f (l1 ++ l2)) = firstn k (map f l1).
Proof.
  intros H. rewrite map_app, firstn_app, List.length_map.
  replace (k - List.length l1)%nat with O by lia.
  cbn [firstn]. apply app_nil_r.
Qed.

Lemma firstn_map_app_ge {A B} (f : A -> B) (l1 l2 : list A) k :
  firstn (List.length l1 + k) (map f (l1 ++ l2)) = map f l1 ++ firstn k (map f l2).
Proof.
  rewrite map_app, <- (List.length_map f l1). apply firstn_app_2.
Qed.

Lemma watchLoop_appends (w : World) wrs :
  forall st,
    vars (snd (watchLoop w wrs st)) = vars st /\
    okPutsOf (trace (snd (watchLoop w wrs st))) = okPutsOf (trace st) /\
    exists m,
      (m <= List.length (allEvents wrs))%nat /\
      appendsOf (trace (snd (watchLoop w wrs st)))
      = appendsOf (trace st) ++ firstn m (map (opOf (vars st)) (allEvents wrs)) /\
      (fst (watchLoop w wrs st) = Next tt -> m = List.length (allEvents wrs)).
Proof.
  unfold watchLoop, allEvents. induction wrs as [|wr wrs IH]; intros st.
  - cbn [forEach ret fst snd map List.concat]. split; [reflexivity|].
    split; [reflexivity|]. exists O. rewrite app_nil_r. auto.
  - cbn [forEach map List.concat]. unfold bind.
    destruct (watchBody_appends w wr st) as (Hv & Hp & k & Hk & Ha & Hn).
    destruct (watchBody w wr st) as [[[]|s] st1]; cbn [fst snd] in *.
    + specialize (Hn eq_refl). subst k.
      rewrite firstn_all2 in Ha by (rewrite List.length_map; lia).
      destruct (IH st1) as (Hv' & Hp' & m & Hm & Ha' & Hn').
      split; [congruence|]. split; [congruence|].
      exists (List.length (Events wr) + m)%nat. rewrite List.length_app.
      split; [lia|]. split.
      * rewrite Ha', Ha, Hv, firstn_map_app_ge, <- app_assoc. reflexivity.
      * intros H. rewrite (Hn' H). reflexivity.
    + split; [exact Hv|]. split; [exact Hp|]. exists k. rewrite List.length_app.
      split; [lia|]. split; [|discriminate].
      rewrite Ha, firstn_map_app_le by exact Hk. reflexivity.
Qed.

(** The base synchronisation: the accepted Puts are, in order, those of
    the first pairs; nothing is appended. *)
Lemma putKvs_okPuts (w : World) kvs :
  forall st,
    vars (snd (forEach kvs (putKv w) st)) = vars st /\
    appendsOf (trace (snd (forEach kvs (putKv w) st))) = appendsOf (trace st) /\
    exists k,
      (k <= List.length kvs)%nat /\
      okPutsOf (trace (snd (forEach kvs (putKv w) st)))
      = okPutsOf (trace st) ++ firstn k (map (putOf (vars st)) kvs) /\
      (fst (forEach kvs (putKv w) st) = Next tt -> k = List.length kvs).
Proof.
  induction kvs as [|kv kvs IH]; intros st.
  - cbn [forEach ret fst snd]. split; [reflexivity|]. split; [reflexivity|].
    exists O. rewrite app_nil_r. auto.
  - cbn [forEach]. unfold bind. rewrite putKv_eq.
    destruct (dstReply w (dstCalls (trace st))) as [e|].
    + cbn [fst snd logged vars trace]. rewrite okPutsOf_app, appendsOf_app.
      cbn [okPutsOf appendsOf firstn]. rewrite !app_nil_r.
      split; [reflexivity|]. split; [reflexivity|]. exists O.
      cbn [firstn]. rewrite app_nil_r.
      split; [lia|]. split; [reflexivity | discriminate].
    + match goal with |- context [forEach kvs (putKv w) ?st1] =>
        destruct (IH st1) as (Hv & Hp & k & Hk & Ha & Hn) end.
      cbn [vars trace] in *. split; [exact Hv|]. split.
      * rewrite Hp, appendsOf_app. cbn [appendsOf]. apply app_nil_r.
      * exists (S k). cbn [List.length]. split; [lia|]. split.
        { rewrite Ha, okPutsOf_app. cbn [okPutsOf map firstn].
          rewrite <- app_assoc. reflexivity. }
        { intros H. rewrite (Hn H). reflexivity. }
Qed.

Lemma snapshotLoop_okPuts (w : World) chunks :
  forall st,
    vars (snd (snapshotLoop w chunks st)) = vars st /\
    appendsOf (trace (snd (snapshotLoop w chunks st))) = appendsOf (trace st) /\
    exists k,
      (k <= List.length (allKvs chunks))%nat /\
      okPutsOf (trace (snd (snapshotLoop w chunks st)))
      = okPutsOf (trace st) ++ firstn k (map (putOf (vars st)) (allKvs chunks)) /\
      (fst (snapshotLoop w chunks st) = Next tt -> k = List.length (allKvs chunks)).
Proof.
  unfold snapshotLoop, allKvs.
  induction chunks as [|r chunks IH]; intros st.
  - cbn [forEach ret fst snd map List.concat]. split; [reflexivity|].
    split; [reflexivity|]. exists O. rewrite app_nil_r. auto.
  - cbn [forEach map List.concat]. unfold bind.
    destruct (putKvs_okPuts w (Kvs r) st) as (Hv & Hp & k & Hk & Ha & Hn).
    destruct (forEach (Kvs r) (putKv w) st) as [[[]|s] st1]; cbn [fst snd] in *.
    + specialize (Hn eq_refl). subst k.
      rewrite firstn_all2 in Ha by (rewrite List.length_map; lia).
      destruct (IH st1) as (Hv' & Hp' & k' & Hk' & Ha' & Hn').
      split; [congruence|]. split; [congruence|].
      exists (List.length (Kvs r) + k')%nat. rewrite List.length_app.
      split; [lia|]. split.
      * rewrite Ha', Ha, Hv, firstn_map_app_ge, <- app_assoc. reflexivity.
      * intros H. rewrite (Hn' H). reflexivity.
    + split; [exact Hv|]. split; [exact Hp|]. exists k. rewrite List.length_app.
      split; [lia|]. split; [|discriminate].
      rewrite Ha, firstn_map_app_le by exact Hk. reflexivity.
Qed.

(** The statements before the watch loop: nothing is appended; the
    accepted Puts are those of the first pairs of the base synchronisation,
    of all of them when the watch is reached after it, and there is none
    when the base synchronisation is skipped. *)
Lemma beforeWatch_sourced (w : World) (st : State) :
  okPutsOf (trace st) = [] -> appendsOf (trace st) = [] ->
  appendsOf (trace (snd (beforeWatch w st))) = [] /\
  exists n,
    (n <= List.length (allKvs (baseChunks w)))%nat /\
    okPutsOf (trace (snd (beforeWatch w st)))
    = firstn n (map (putOf (vars (snd (beforeWatch w st)))) (allKvs (baseChunks w))) /\
    (fst (beforeWatch w st) = Next tt ->
     n = if startRevOf (vars st) =? 0
         then List.length (allKvs (baseChunks w)) else O).
Proof.
  intros Hp0 Ha0. rewrite beforeWatch_eq.
  destruct (mmnodestprefix (vars st) && (str_len (mmdestprefix (vars st)) >? 0)).
  { cbn [fst snd]. split; [exact Ha0|]. exists O.
    split; [lia|]. split; [exact Hp0 | discriminate]. }
  destruct (startRevOf (vars st) =? 0).
  - match goal with |- context [snapshotLoop w ?ch ?st1] =>
      destruct (snapshotLoop_okPuts w ch st1) as (Hv & Ha & n & Hn & Hp & Hall) end.
    cbn [vars trace] in Hv, Ha, Hp.
    rewrite appendsOf_app, Ha0 in Ha. rewrite okPutsOf_app, Hp0 in Hp.
    cbn [okPutsOf appendsOf app] in Ha, Hp.
    destruct (snapshotLoop w (baseChunks w) _) as [[[]|s] st2]; cbn [fst snd] in *.
    + destruct (baseErr w); cbn [fst snd logged vars trace].
      * split; [exact Ha|]. exists n. split; [exact Hn|].
        split; [rewrite Hp, Hv; reflexivity | discriminate].
      * rewrite appendsOf_app, okPutsOf_app, Ha, Hp, Hv. cbn [appendsOf okPutsOf app].
        rewrite ?app_nil_r. split; [reflexivity|]. exists n. split; [exact Hn|].
        split; [reflexivity | intros _; exact (Hall eq_refl)].
    + split; [exact Ha|]. exists n. split; [exact Hn|].
      split; [rewrite Hp, Hv; reflexivity | discriminate].
  - cbn [fst snd vars trace]. rewrite appendsOf_app, okPutsOf_app, Ha0, Hp0.
    split; [reflexivity|]. exists O. split; [lia|]. split; [reflexivity|].
    intros _. reflexivity.
Qed.

(** What a run of the command has written and appended, in terms of what
    the source delivers. *)
Lemma runCommand_sourced (w : World) (g : Globals) (args : list string) :
  exists n m,
    (n <= List.length (allKvs (baseChunks w)))%nat /\
    (m <= List.length (allEvents (watchResponses w)))%nat /\
    okPutsOf (trace (snd (runCommand w g args)))
    = firstn n (map (putOf (vars (snd (runCommand w g args)))) (allKvs (baseChunks w))) /\
    appendsOf (trace (snd (runCommand w g args)))
    = firstn m (map (opOf (vars (snd (runCommand w g args))))
                    (allEvents (watchResponses w))) /\
    (fst (runCommand w g args) = Halt (Exit ExitError None) ->
     n = (if startRevOf g =? 0 then List.length (allKvs (baseChunks w)) else O) /\
     m = List.length (allEvents (watchResponses w))).
Proof.
  assert (Hnone : forall (s : Step unit) st,
             okPutsOf (trace st) = [] -> appendsOf (trace st) = [] ->
             s <> Halt (Exit ExitError None) ->
             exists n m,
               (n <= List.length (allKvs (baseChunks w)))%nat /\
               (m <= List.length (allEvents (watchResponses w)))%nat /\
               okPutsOf (trace st)
               = firstn n (map (putOf (vars st)) (allKvs (baseChunks w))) /\
               appendsOf (trace st)
               = firstn m (map (opOf (vars st)) (allEvents (watchResponses w))) /\
               (s = Halt (Exit ExitError None) ->
                n = (if startRevOf g =? 0
                     then List.length (allKvs (baseChunks w)) else O) /\
                m = List.length (allEvents (watchResponses w)))).
  { intros s st Hp Ha Hs. exists O, O. rewrite Hp, Ha.
    split; [lia|]. split; [lia|]. split; [reflexivity|]. split; [reflexivity|].
    intros H. contradiction. }
  rewrite runCommand_eq.
  destruct (negb (len args =? 1)).
  { cbn [fst snd]. apply Hnone; [reflexivity | reflexivity | discriminate]. }
  destruct (authDestCfg_cases w g) as [(auth & pre & -> & Hpre) | (err & ->)].
  2:{ cbn [fst snd]. apply Hnone; [reflexivity | reflexivity | discriminate]. }
  unfold makeMirror, call. cbn [vars trace].
  set (st0 := mkState g 0 _).
  assert (Hp0 : okPutsOf (trace st0) = []).
  { unfold st0. cbn [trace]. rewrite okPutsOf_app. destruct Hpre as [-> | ->]; reflexivity. }
  assert (Ha0 : appendsOf (trace st0) = []).
  { unfold st0. cbn [trace]. rewrite appendsOf_app. destruct Hpre as [-> | ->]; reflexivity. }
  pose proof (makeMirrorBody_fatal w st0) as Hfatal.
  rewrite makeMirrorBody_split in *. unfold bind in *.
  destruct (beforeWatch_sourced w st0 Hp0 Ha0) as (Ha1 & n & Hn & Hp1 & Hall).
  change (vars st0) with g in Hall.
  destruct (beforeWatch w st0) as [[[]|s] st1]; cbn [fst snd] in *.
  - destruct (watchLoop_appends w (watchResponses w) st1) as (Hv & Hp2 & m & Hm & Ha2 & Hend).
    rewrite Ha1 in Ha2. cbn [app] in Ha2.
    assert (Hgoal : forall r : Step unit,
               (r = Halt (Exit ExitError None) ->
                fst (watchLoop w (watchResponses w) st1) = Next tt) ->
               exists n0 m0,
                 (n0 <= List.length (allKvs (baseChunks w)))%nat /\
                 (m0 <= List.length (allEvents (watchResponses w)))%nat /\
                 okPutsOf (trace (snd (watchLoop w (watchResponses w) st1)))
                 = firstn n0 (map (putOf (vars (snd (watchLoop w (watchResponses w) st1))))
                                  (allKvs (baseChunks w))) /\
                 appendsOf (trace (snd (watchLoop w (watchResponses w) st1)))
                 = firstn m0 (map (opOf (vars (snd (watchLoop w (watchResponses w) st1))))
                                  (allEvents (watchResponses w))) /\
                 (r = Halt (Exit ExitError None) ->
                  n0 = (if startRevOf g =? 0
                        then List.length (allKvs (baseChunks w)) else O) /\
                  m0 = List.length (allEvents (watchResponses w)))).
    { intros r Hr. exists n, m. split; [exact Hn|]. split; [exact Hm|].
      rewrite Hp2, Hv. split; [exact Hp1|]. split; [exact Ha2|].
      intros H. split; [apply Hall; reflexivity | apply Hend, Hr, H]. }
    destruct (watchLoop w (watchResponses w) st1) as [[[]|s] st2]; cbn [fst snd] in *.
    + apply Hgoal. reflexivity.
    + specialize (Hfatal s st2 eq_refl).
      destruct s as [[e|]|c [e|]|msg]; cbn [fst snd];
        try (apply Hgoal; discriminate); destruct Hfatal.
  - specialize (Hfatal s st1 eq_refl).
    assert (Hgoal : forall r : Step unit,
               r <> Halt (Exit ExitError None) ->
               exists n0 m0,
                 (n0 <= List.length (allKvs (baseChunks w)))%nat /\
                 (m0 <= List.length (allEvents (watchResponses w)))%nat /\
                 okPutsOf (trace st1)
                 = firstn n0 (map (putOf (vars st1)) (allKvs (baseChunks w))) /\
                 appendsOf (trace st1)
                 = firstn m0 (map (opOf (vars st1)) (allEvents (watchResponses w))) /\
                 (r = Halt (Exit ExitError None) ->
                  n0 = (if startRevOf g =? 0
                        then List.length (allKvs (baseChunks w)) else O) /\
                  m0 = List.length (allEvents (watchResponses w)))).
    { intros r Hr. exists n, O. rewrite Ha1. split; [exact Hn|]. split; [lia|].
      split; [exact Hp1|]. split; [reflexivity|]. intros H. contradiction. }
    destruct s as [[e|]|c [e|]|msg]; cbn [fst snd];
      try (apply Hgoal; discriminate); destruct Hfatal.
Qed.

(* ------------------------------------------------------------------ *)
(** ** Counted before committed *)

Lemma appendsOf_no_append seg :
  Forall (fun e => isAppend e = false) seg -> appendsOf seg = [].
Proof.
  induction 1 as [|e seg He _ IH]; [reflexivity|].
  destruct e; simpl; try exact IH. discriminate.
Qed.

(** One iteration keeps the operations appended so far equal to those
    accepted so far followed by the pending ones. *)
Lemma eventStep_pending (w : World) lastRev ops ev st :
  appendsOf (trace st) = List.concat (committedOf (trace st)) ++ ops ->
  match eventStep w (lastRev, ops) ev st with
  | (Next ls, st') =>
      appendsOf (trace st') = List.concat (committedOf (trace st')) ++ snd ls
  | (Halt _, st') =>
      exists pend,
        appendsOf (trace st') = List.concat (committedOf (trace st')) ++ pend
  end.
Proof.
  intros Hinv.
  destruct (eventStep_outcome w lastRev ops ev st) as (seg & Hout & Htr & _).
  destruct (eventStep w (lastRev, ops) ev st) as [r st1]. cbn [fst snd] in *.
  inversion Hout; subst seg r.
  - exists ops. rewrite Htr, appendsOf_app, committedOf_app. cbn [appendsOf committedOf].
    rewrite !app_nil_r. exact Hinv.
  - exists (afterBoundary lastRev ops ev).
    rewrite Htr, appendsOf_app, committedOf_app, Hinv. unfold afterBoundary.
    destruct (boundary lastRev ev); cbn [appendsOf committedOf app List.concat];
      rewrite ?app_nil_r, ?concat_app; cbn [List.concat]; rewrite ?app_nil_r;
      reflexivity.
  - exists (afterFull (vars st) (afterBoundary lastRev ops ev)).
    rewrite Htr, appendsOf_app, committedOf_app, appendsOf_flushEffects,
      committedOf_flushEffects, concat_app, app_nil_r, Hinv, <- app_assoc.
    f_equal. symmetry. apply flushTxns_concat.
  - cbn [snd]. unfold pendingAfter.
    rewrite Htr, !appendsOf_app, committedOf_app, appendsOf_flushEffects,
      committedOf_app, committedOf_flushEffects.
    cbn [appendsOf committedOf app]. rewrite app_nil_r, concat_app, Hinv.
    rewrite <- !app_assoc. f_equal. rewrite app_assoc, flushTxns_concat. reflexivity.
Qed.

Lemma eventsLoop_pending (w : World) evs :
  forall lastRev ops st,
    appendsOf (trace st) = List.concat (committedOf (trace st)) ++ ops ->
    match eventsLoop w evs (lastRev, ops) st with
    | (Next ls, st') =>
        appendsOf (trace st') = List.concat (committedOf (trace st')) ++ snd ls
    | (Halt _, st') =>
        exists pend,
          appendsOf (trace st') = List.concat (committedOf (trace st')) ++ pend
    end.
Proof.
  unfold eventsLoop. induction evs as [|x evs IH]; intros lastRev ops st Hinv.
  - exact Hinv.
  - cbn [foldEach]. unfold bind.
    pose proof (eventStep_pending w lastRev ops x st Hinv) as Hstep.
    destruct (eventStep w (lastRev, ops) x st) as [[[l o]|s] st1];
      [apply IH; exact Hstep | exact Hstep].
Qed.

(** Between two watch responses nothing is pending. *)
Lemma watchBody_pending (w : World) (wr : WatchResponse) (st : State) :
  appendsOf (trace st) = List.concat (committedOf (trace st)) ->
  match watchBody w wr st with
  | (Next _, st') => appendsOf (trace st') = List.concat (committedOf (trace st'))
  | (Halt _, st') =>
      exists pend,
        appendsOf (trace st') = List.concat (committedOf (trace st')) ++ pend
  end.
Proof.
  intros Hinv. unfold watchBody. destruct (negb (CompactRevision wr =? 0)).
  - exists []. rewrite app_nil_r. exact Hinv.
  - unfold bind.
    pose proof (eventsLoop_pending w (Events wr) 0 [] st) as Hloop.
    rewrite app_nil_r in Hloop. specialize (Hloop Hinv).
    destruct (eventsLoop w (Events wr) (0, []) st) as [[[l ops]|s] st1];
      [|exact Hloop].
    cbn [snd] in *. destruct (negb (len ops =? 0)) eqn:Hlen.
    + unfold commit. destruct (dstReply w (dstCalls (trace st1))) as [e|];
        cbn [trace]; rewrite appendsOf_app, committedOf_app;
        cbn [appendsOf committedOf]; rewrite ?app_nil_r.
      * exists ops. exact Hloop.
      * rewrite concat_app. cbn [List.concat]. rewrite app_nil_r. exact Hloop.
    + apply negb_false_iff, Z.eqb_eq, len_zero in Hlen. subst ops.
      rewrite app_nil_r in Hloop. exact Hloop.
Qed.

Lemma watchLoop_pending (w : World) wrs :
  forall st,
    appendsOf (trace st) = List.concat (committedOf (trace st)) ->
    exists pend,
      appendsOf (trace (snd (watchLoop w wrs st)))
      = List.concat (committedOf (trace (snd (watchLoop w wrs st)))) ++ pend.
Proof.
  unfold watchLoop. induction wrs as [|wr wrs IH]; intros st Hinv.
  - exists []. rewrite app_nil_r. exact Hinv.
  - cbn [forEach]. unfold bind.
    pose proof (watchBody_pending w wr st Hinv) as Hbody.
    destruct (watchBody w wr st) as [[u|s] st1]; [apply IH; exact Hbody | exact Hbody].
Qed.

(** In every run, the operations appended, which are the events counted,
    are the operations the destination accepted in transactions followed
    by operations that were not committed. *)
Lemma runCommand_pending (w : World) (g : Globals) (args : list string) :
  exists pend,
    appendsOf (trace (snd (runCommand w g args)))
    = List.concat (committedOf (trace (snd (runCommand w g args)))) ++ pend.
Proof.
  rewrite runCommand_eq.
  destruct (negb (len args =? 1)); [exists []; reflexivity|].
  destruct (authDestCfg_cases w g) as [(auth & pre & -> & Hpre) | (err & ->)];
    [|exists []; reflexivity].
  unfold makeMirror. cbn [vars trace].
  assert (Hsnd : forall (r : Step (option Error) * State),
             snd (let (s, st2) := r in
                  match s with
                  | Next e => (Halt (Exit ExitError e), st2)
                  | Halt s0 => (@Halt unit s0, st2)
                  end) = snd r).
  { intros [[e|s] st2]; reflexivity. }
  set (st0 := mkState g 0 _).
  assert (Hx : snd (let (s, st2) := call (makeMirrorBody w) st0 in
                    match s with
                    | Next e => (Halt (Exit ExitError e), st2)
                    | Halt s0 => (@Halt unit s0, st2)
                    end) = snd (makeMirrorBody w st0)).
  { rewrite Hsnd. apply call_snd. }
  rewrite Hx. clear Hx Hsnd.
  assert (Ht0 : txnsOf (trace st0) = []).
  { unfold st0. cbn [trace]. rewrite txnsOf_app. destruct Hpre as [-> | ->]; reflexivity. }
  assert (Ha0 : appendsOf (trace st0) = []).
  { unfold st0. cbn [trace]. rewrite appendsOf_app. destruct Hpre as [-> | ->]; reflexivity. }
  assert (Hp0 : okPutsOf (trace st0) = []).
  { unfold st0. cbn [trace]. rewrite okPutsOf_app. destruct Hpre as [-> | ->]; reflexivity. }
  rewrite makeMirrorBody_split. unfold bind.
  destruct (beforeWatch_no_txn w st0 Ht0) as (Htx & _).
  destruct (beforeWatch_sourced w st0 Hp0 Ha0) as (Ha1 & _).
  apply committedOf_no_txn in Htx.
  destruct (beforeWatch w st0) as [[u|s] st1]; cbn [snd] in *.
  - apply watchLoop_pending. rewrite Ha1, Htx. reflexivity.
  - exists []. rewrite Ha1, Htx. reflexivity.
Qed.

(* ------------------------------------------------------------------ *)
(** ** The counter at every point of a run *)

Lemma int64_wrap_succ_neq (a : Z) : int64_wrap a <> int64_wrap (a + 1).
Proof.
  rewrite <- int64_wrap_succ.
  pose proof (is_int64_wrap a) as Hr. revert Hr.
  generalize (int64_wrap a). intros c Hc. unfold is_int64, max_int64 in Hc.
  unfold int64_wrap.
  destruct (Z.eq_dec c (2 ^ 63 - 1)) as [-> | Hne].
  - replace (2 ^ 63 - 1 + 1 + 2 ^ 63) with (2 ^ 64) by lia.
    rewrite Z.mod_same by lia. lia.
  - rewrite Z.mod_small by lia. lia.
Qed.

(** In a trace that is counted at every prefix and does not end between an
    operation and its increment, the effect that follows an accepted Put
    or an append is the increment of the counter. *)
Lemma Counted_next tr p e q :
  Counted tr -> midStep tr = false ->
  tr = p ++ e :: q ->
  isOkPut e || isAppend e = true ->
  exists q', q = EvAddTotal (int64_wrap (counterAt p + 1)) :: q'.
Proof.
  intros Hc Hm Htr He.
  assert (Hone : (if isOkPut e then 1 else 0) + (if isAppend e then 1 else 0) = 1).
  { destruct e as [| | | | | |k v [err|]| | |]; try discriminate He; reflexivity. }
  assert (Hsame : counterAt (p ++ [e]) = counterAt p).
  { rewrite counterAt_snoc. destruct e; try reflexivity. discriminate He. }
  destruct q as [|x q'].
  { exfalso. rewrite Htr, midStep_snoc, He in Hm. discriminate. }
  pose proof (Hc (p ++ [e]) (x :: q')) as H1.
  rewrite <- app_assoc in H1. specialize (H1 Htr).
  rewrite Hsame in H1. unfold expectedCount in H1.
  rewrite !countIf_snoc, midStep_snoc, He in H1.
  replace (countIf isOkPut p + (if isOkPut e then 1 else 0)
           + (countIf isAppend p + (if isAppend e then 1 else 0)) - 1)
    with (countIf isOkPut p + countIf isAppend p) in H1 by lia.
  pose proof (Hc ((p ++ [e]) ++ [x]) q') as H2.
  rewrite <- !app_assoc in H2. specialize (H2 Htr). rewrite !app_assoc in H2.
  rewrite counterAt_snoc in H2. unfold expectedCount in H2.
  rewrite !countIf_snoc, midStep_snoc in H2.
  replace (countIf isOkPut p + (if isOkPut e then 1 else 0)
           + (if isOkPut x then 1 else 0)
           + (countIf isAppend p + (if isAppend e then 1 else 0)
              + (if isAppend x then 1 else 0))
           - (if isOkPut x || isAppend x then 1 else 0))
    with (countIf isOkPut p + countIf isAppend p + 1) in H2.
  2:{ destruct x as [| | | | | |k v [err|]| | |]; cbn [isOkPut isAppend orb]; lia. }
  destruct x as [| | | | | | | | |n];
    try (exfalso; rewrite Hsame, H1 in H2; exact (int64_wrap_succ_neq _ H2)).
  exists q'. rewrite H2, H1, int64_wrap_succ. reflexivity.
Qed.

(** C8: the progress counter in terms of what the source delivers.  At
    every point of every run, the Puts accepted so far are those of the
    first [n] pairs of the base synchronisation and the operations
    appended so far are those of the first [m] events of the watch stream,
    each event of kind PUT or DELETE giving one, and the counter shows
    [n + m] as an [int64], except between an accepted Put or an append and
    its own increment, where it shows one less.  That increment is the
    very next step, so an event is counted when it is classified, before
    any transaction holding it is sent: the events counted are the
    operations of the accepted transactions followed by operations that
    are not committed.  When the command ends without error, the counter
    is the number of all pairs, if the run began with the base
    synchronisation, plus the number of all events.  With an accepting
    destination, the base synchronisation of chunks holding N pairs in all
    sends exactly those N Puts and moves the counter by N.  In the run
    [uncommittedRun], whose only transaction is refused, the counter ends
    at 3 with nothing committed. *)
Theorem progress_counter_counts_enqueued
        (w : World) (g : Globals) (args : list string) :
  (forall p q,
      trace (snd (runCommand w g args)) = p ++ q ->
      exists n m : nat,
        (n <= List.length (allKvs (baseChunks w)))%nat /\
        (m <= List.length (allEvents (watchResponses w)))%nat /\
        okPutsOf p
        = firstn n (map (putOf (vars (snd (runCommand w g args))))
                        (allKvs (baseChunks w))) /\
        appendsOf p
        = firstn m (map (opOf (vars (snd (runCommand w g args))))
                        (allEvents (watchResponses w))) /\
        counterAt p
        = int64_wrap (Z.of_nat n + Z.of_nat m - (if midStep p then 1 else 0))) /\
  (forall p e q,
      trace (snd (runCommand w g args)) = p ++ e :: q ->
      isOkPut e || isAppend e = true ->
      exists q', q = EvAddTotal (int64_wrap (counterAt p + 1)) :: q') /\
  total (snd (runCommand w g args)) = counterAt (trace (snd (runCommand w g args))) /\
  (exists pend,
      appendsOf (trace (snd (runCommand w g args)))
      = List.concat (committedOf (trace (snd (runCommand w g args)))) ++ pend) /\
  (fst (runCommand w g args) = Halt (Exit ExitError None) ->
   total (snd (runCommand w g args))
   = int64_wrap ((if startRevOf g =? 0 then len (allKvs (baseChunks w)) else 0)
                 + len (allEvents (watchResponses w)))) /\
  (forall chunks st,
      accepting w -> is_int64 (total st) ->
      exists st',
        snapshotLoop w chunks st = (Next tt, st') /\
        putsOf (trace st')
        = putsOf (trace st)
          ++ map (fun kv => (modifyPrefix (vars st) (Key kv), Value kv))
                 (allKvs chunks) /\
        total st' = int64_wrap (total st + len (allKvs chunks))) /\
  (total (snd uncommittedRun) = 3 /\ committedOf (trace (snd uncommittedRun)) = []).
Proof.
  destruct (counter_runCommand w g args) as (Ht & Hm & Hc).
  destruct (runCommand_sourced w g args) as (n & m & Hn & Hmm & Hp & Ha & Hend).
  split; [|split; [|split; [|split; [|split; [|split]]]]].
  - intros p q Htr.
    rewrite Htr, okPutsOf_app in Hp. rewrite Htr, appendsOf_app in Ha.
    symmetry in Hp, Ha.
    apply firstn_prefix in Hp as (Hp & Hpl). apply firstn_prefix in Ha as (Ha & Hal).
    rewrite List.length_map in Hpl, Hal.
    exists (List.length (okPutsOf p)), (List.length (appendsOf p)).
    split; [exact Hpl|]. split; [exact Hal|].
    split; [exact Hp|]. split; [exact Ha|].
    rewrite (Hc p q Htr). unfold expectedCount.
    rewrite countIf_okPuts, countIf_appends. reflexivity.
  - intros p e q Htr He. exact (Counted_next _ p e q Hc Hm Htr He).
  - exact Ht.
  - apply runCommand_pending.
  - intros Hfst. destruct (Hend Hfst) as (-> & ->).
    rewrite Ht, (Hc _ [] (eq_sym (app_nil_r _))). unfold expectedCount.
    rewrite Hm, countIf_okPuts, countIf_appends, Hp, Ha.
    unfold len. rewrite !List.length_firstn, !List.length_map. f_equal.
    destruct (startRevOf g =? 0); cbn [List.length]; lia.
  - intros chunks st Hacc Hrange.
    destruct (snapshotLoop_accepting w Hacc chunks st Hrange)
      as (st' & H1 & _ & H2 & H3).
    exists st'. auto.
  - split; vm_compute; reflexivity.
Qed.

(** C8, the theorem on [countedRun], which copies one pair and then a
    response with a PUT, a DELETE and a PUT: the command ends without
    error and the counter ends at 1 + 3 = 4; and at the point right after
    the DELETE has been appended, one Put and two events are behind and
    the counter shows 2, the increment being the next step. *)
Lemma progress_counter_counts_enqueued_witness :
  total (snd countedRun) = 4 /\
  exists n m : nat,
    okPutsOf [EvMustClient "10.0.0.2:2379" None; EvMustClientFromCmd;
              EvNewSyncer "/a/" 0; EvSyncBase;
              EvPut "/b/0" "v0" None; EvAddTotal 1; EvSyncUpdates;
              EvAppend (OpPut "/b/1" "x"); EvAddTotal 2;
              EvAppend (OpDelete "/b/2")]
    = firstn n [("/b/0"%string, "v0"%string)] /\
    [OpPut "/b/1" "x"; OpDelete "/b/2"]
    = firstn m [OpPut "/b/1" "x"; OpDelete "/b/2"; OpPut "/b/3" "z"] /\
    2 = int64_wrap (Z.of_nat n + Z.of_nat m - 1).
Proof.
  pose proof (progress_counter_counts_enqueued
                (sourceA [watchPutDelPut]) (flagsAB 128 0) oneArg)
    as (H1 & _ & _ & _ & H5 & _).
  split.
  - exact (H5 eq_refl).
  - destruct (H1 [EvMustClient "10.0.0.2:2379" None; EvMustClientFromCmd;
                  EvNewSyncer "/a/" 0; EvSyncBase;
                  EvPut "/b/0" "v0" None; EvAddTotal 1; EvSyncUpdates;
                  EvAppend (OpPut "/b/1" "x"); EvAddTotal 2;
                  EvAppend (OpDelete "/b/2")]
                 [EvAddTotal 3; EvAppend (OpPut "/b/3" "z"); EvAddTotal 4;
                  EvTxn [OpPut "/b/1" "x"; OpDelete "/b/2"; OpPut "/b/3" "z"] None])
      as (n & m & _ & _ & Hp & Ha & Hcnt).
    + vm_compute. reflexivity.
    + exists n, m. split; [exact Hp|]. split; [exact Ha | exact Hcnt].
Defined.

(** C8 without the exception, at every point: right after the destination
    has accepted the Put of the first pair and before the counter is
    incremented, one pair has been Put and the counter still shows 0. *)
Lemma counter_behind_accepted_put :
  exists p q,
    trace (snd countedRun) = p ++ q /\
    okPutsOf p = [("/b/0"%string, "v0"%string)] /\
    appendsOf p = [] /\
    counterAt p = 0 /\
    counterAt p <> len (okPutsOf p) + len (appendsOf p).
Proof.
  exists [EvMustClient "10.0.0.2:2379" None; EvMustClientFromCmd;
          EvNewSyncer "/a/" 0; EvSyncBase; EvPut "/b/0" "v0" None],
         [EvAddTotal 1; EvSyncUpdates;
          EvAppend (OpPut "/b/1" "x"); EvAddTotal 2;
          EvAppend (OpDelete "/b/2"); EvAddTotal 3;
          EvAppend (OpPut "/b/3" "z"); EvAddTotal 4;
          EvTxn [OpPut "/b/1" "x"; OpDelete "/b/2"; OpPut "/b/3" "z"] None].
  split; [vm_compute; reflexivity|]. split; [reflexivity|]. split; [reflexivity|].
  split; [reflexivity | vm_compute; discriminate].
Qed.

(* ------------------------------------------------------------------ *)
(** ** Responses that carry nothing *)

Lemma watchBody_idle (w : World) (wr : WatchResponse) (st : State) :
  hasWork wr = false -> watchBody w wr st = (Next tt, st).
Proof.
  unfold hasWork. intros H. apply orb_false_elim in H as [Hc He].
  apply negb_false_iff in Hc. apply negb_false_iff, Z.eqb_eq, len_zero in He.
  unfold watchBody. rewrite Hc, He. reflexivity.
Qed.

Lemma watchLoop_filter (w : World) wrs :
  forall st, watchLoop w (filter hasWork wrs) st = watchLoop w wrs st.
Proof.
  unfold watchLoop. induction wrs as [|wr wrs IH]; intros st; [reflexivity|].
  cbn [filter]. destruct (hasWork wr) eqn:Hw.
  - cbn [forEach]. unfold bind.
    destruct (watchBody w wr st) as [[u|s] st1]; [apply IH | reflexivity].
  - cbn [forEach]. unfold bind. rewrite (watchBody_idle w wr st Hw). apply IH.
Qed.

(** X11: watch responses without events and without a compact revision
    (such as progress notifications) leave no mark: a run has the same
    result, the same trace and the same counter as the run on the stream
    with those responses removed. *)
Theorem idle_responses_are_invisible (w : World) (g : Globals) :
  runMirror (withWatch w (filter hasWork (watchResponses w))) g = runMirror w g.
Proof.
  unfold runMirror, makeMirror, call.
  rewrite (makeMirrorBody_split w), (makeMirrorBody_split (withWatch w _)).
  rewrite beforeWatch_withWatch. cbn [watchResponses withWatch].
  rewrite watchLoop_withWatch. unfold bind.
  destruct (beforeWatch w _) as [[u|s] st1]; [|reflexivity].
  rewrite watchLoop_filter. reflexivity.
Qed.

(* ------------------------------------------------------------------ *)
(** ** A limit of zero *)

Lemma full_zero g ops :
  mmmaxTxnOps g = 0 -> full g ops = (len ops =? 0).
Proof. intros H. unfold full. rewrite H. reflexivity. Qed.

Lemma batch_unlimited g R run :
  mmmaxTxnOps g = 0 ->
  forall lastRev ops,
    (forall e, In e run -> revOf e = R) ->
    lastRev = 0 \/ lastRev = R ->
    ops <> [] ->
    fst (batch g run lastRev ops) = [] /\
    snd (snd (batch g run lastRev ops)) = ops ++ map (opOf g) run.
Proof.
  intros Hm. induction run as [|x run IH]; intros lastRev ops Hrev Hl Hne.
  - cbn [batch fst snd map]. rewrite app_nil_r. auto.
  - cbn [batch fst snd map].
    assert (Hb : boundary lastRev x = false).
    { apply boundary_same. rewrite (Hrev x) by (left; reflexivity). exact Hl. }
    assert (Hf : full g ops = false).
    { rewrite full_zero by exact Hm. apply Z.eqb_neq. intros H.
      apply len_zero in H. contradiction. }
    unfold flushTxns, pendingAfter, afterFull, afterBoundary. rewrite Hb, Hf.
    destruct (IH (revOf x) (ops ++ [opOf g x])) as (H1 & H2).
    + intros e He. apply Hrev. right. exact He.
    + right. apply Hrev. left. reflexivity.
    + intros H. apply app_eq_nil in H as [_ H]. discriminate.
    + rewrite H1, H2. split; [reflexivity|]. rewrite <- app_assoc. reflexivity.
Qed.

(** X12: [--max-txn-ops 0] does not limit anything.  For a response whose
    events all have one revision, the destination first receives an empty
    transaction and then one transaction with the operations of all the
    events, however many they are. *)
Theorem zero_limit_is_no_limit
        (w : World) (st : State) (wr : WatchResponse) (R : Z)
        (Hzero : mmmaxTxnOps (vars st) = 0)
        (Hacc : accepting w)
        (Hcompact : CompactRevision wr = 0)
        (Hkinds : forallb validKind (Events wr) = true)
        (Hne : Events wr <> [])
        (Hrev : forall e, In e (Events wr) -> revOf e = R) :
  exists st',
    watchBody w wr st = (Next tt, st') /\
    committedOf (trace st')
    = committedOf (trace st) ++ [[]; map (opOf (vars st)) (Events wr)].
Proof.
  destruct (watchBody_accepting w Hacc wr st Hcompact Hkinds) as (st' & Hrun & _ & Hc).
  exists st'. split; [exact Hrun|]. rewrite Hc. f_equal.
  rewrite responseTxns_pending by exact Hne.
  destruct (Events wr) as [|x run]; [congruence|].
  cbn [batch fst snd].
  assert (Hb : boundary 0 x = false) by (apply boundary_same; left; reflexivity).
  assert (Hf : full (vars st) [] = true) by (rewrite full_zero by exact Hzero; reflexivity).
  unfold flushTxns, pendingAfter, afterFull, afterBoundary. rewrite Hb, Hf.
  destruct (batch_unlimited (vars st) R run Hzero (revOf x) ([] ++ [opOf (vars st) x]))
    as (H1 & H2).
  - intros e He. apply Hrev. right. exact He.
  - right. apply Hrev. left. reflexivity.
  - discriminate.
  - rewrite H1, H2. reflexivity.
Qed.

(** X12 on three events of revision 5. *)
Lemma zero_limit_is_no_limit_witness :
  exists st',
    watchBody (sourceA []) watchThree (initState (flagsAB 0 2)) = (Next tt, st') /\
    committedOf (trace st')
    = [[]; [OpPut "/b/1" "x"; OpPut "/b/2" "y"; OpDelete "/b/3"]].
Proof.
  refine (zero_limit_is_no_limit (sourceA []) (initState (flagsAB 0 2)) watchThree 5
            _ _ _ _ _ _).
  - reflexivity.
  - intros n. reflexivity.
  - reflexivity.
  - reflexivity.
  - discriminate.
  - intros e [<-|[<-|[<-|[]]]]; reflexivity.
Defined.

(* ------------------------------------------------------------------ *)
(** ** How the command ends *)

Section LoopSignals.

Variable w : World.

Let Q : State -> Prop := fun _ => True.
Let E : Signal -> State -> Prop := fun s _ => loopSignal s.

Lemma loops_commit ops : triple Q (commit w ops) (fun _ => Q) E.
Proof.
  intros st _. unfold commit.
  destruct (dstReply w (dstCalls (trace st))) as [e|]; [left; eauto | exact I].
Qed.

Lemma loops_putKv kv : triple Q (putKv w kv) (fun _ => Q) E.
Proof.
  intros st _. rewrite putKv_eq.
  destruct (dstReply w (dstCalls (trace st))) as [e|]; [left; eauto | exact I].
Qed.

Lemma loops_classify op : triple Q (emit (EvAppend op) ;; addTotal) (fun _ => Q) E.
Proof. intros st _. exact I. Qed.

Lemma watchLoop_signal wrs st s st' :
  watchLoop w wrs st = (Halt s, st') -> loopSignal s.
Proof.
  intros H.
  pose proof (outcome_watchLoop w Q E) as Ht.
  specialize (Ht (fun e _ _ => or_introl (ex_intro _ e eq_refl))
                 (fun _ _ => or_intror eq_refl) loops_commit loops_classify wrs st I).
  rewrite H in Ht. exact Ht.
Qed.

Lemma snapshotLoop_signal chunks st s st' :
  snapshotLoop w chunks st = (Halt s, st') -> loopSignal s.
Proof.
  intros H.
  pose proof (outcome_snapshotLoop w Q E loops_putKv chunks st I) as Ht.
  rewrite H in Ht. exact Ht.
Qed.

End LoopSignals.

(** The statements of [makeMirror] leave through [ExitWithError] only at
    the test of the prefix flags, before any effect. *)
Lemma makeMirrorBody_exit (w : World) (st st' : State) c e :
  makeMirrorBody w st = (Halt (Exit c e), st') ->
  c = ExitBadArgs /\ e = Some (ErrNew conflictMsg) /\ st' = st.
Proof.
  rewrite makeMirrorBody_split. unfold bind. rewrite beforeWatch_eq.
  destruct (mmnodestprefix (vars st) && (str_len (mmdestprefix (vars st)) >? 0)).
  { intros [= <- <- <-]. auto. }
  assert (Hno : ~ loopSignal (Exit c e)).
  { intros [[x Hx] | Hx]; discriminate. }
  destruct (startRevOf (vars st) =? 0).
  - destruct (snapshotLoop w (baseChunks w) _) as [[u|s] st2] eqn:Hsnap.
    + destruct (baseErr w); [discriminate|].
      intros H. exfalso. apply Hno. eapply watchLoop_signal. exact H.
    + intros [= -> <-]. exfalso. apply Hno. eapply snapshotLoop_signal. exact Hsnap.
  - intros H. exfalso. apply Hno. eapply watchLoop_signal. exact H.
Qed.

(** X13: the command never returns to its caller.  With one argument and
    credentials at hand, it ends as [makeMirror] does: whatever error
    [makeMirror] returns, nil included, is passed to [ExitWithError] with
    [ExitError] in the state [makeMirror] left, and a panic or an exit
    inside [makeMirror] passes through unchanged; a failing password
    prompt ends the command before any client is created.  So every run
    ends in the panic on an unexpected event kind or in a call of
    [ExitWithError].  Of the statements of this file ([mustClient],
    [mustClientFromCmd] and the readers of the command's flags are defined
    elsewhere and taken to return), [ExitBadArgs] is used only for a wrong
    number of arguments, in which case nothing at all has happened, not
    even the password prompt, and for the conflict of the prefix flags; in
    both cases no syncer was created and no request was sent to the
    destination. *)
Theorem command_never_returns (w : World) (g : Globals) (args : list string) :
  (len args <> 1 ->
   runCommand w g args
   = (Halt (Exit ExitBadArgs
              (Some (ErrNew "make-mirror takes one destination argument"))),
      initState g)) /\
  (forall auth st1 r st2,
      len args = 1 ->
      authDestCfg w (initState g) = (Next auth, st1) ->
      makeMirror w
        (mkState (vars st1) (total st1)
           (trace st1 ++ [EvMustClient (nth 0 args EmptyString) auth;
                          EvMustClientFromCmd])) = (r, st2) ->
      runCommand w g args
      = (match r with
         | Next err => Halt (Exit ExitError err)
         | Halt s => Halt s
         end, st2)) /\
  (forall s st1,
      len args = 1 ->
      authDestCfg w (initState g) = (Halt s, st1) ->
      runCommand w g args = (Halt s, st1)) /\
  (fst (runCommand w g args) = Halt (Panic "unexpected event type") \/
   (exists err, fst (runCommand w g args) = Halt (Exit ExitError err)) \/
   ((fst (runCommand w g args)
     = Halt (Exit ExitBadArgs
               (Some (ErrNew "make-mirror takes one destination argument"))) \/
     fst (runCommand w g args)
     = Halt (Exit ExitBadArgs (Some (ErrNew conflictMsg)))) /\
    Forall (fun e => isClusterOp e = false) (trace (snd (runCommand w g args))))).
Proof.
  rewrite runCommand_eq. split; [|split; [|split]].
  - intros H. apply Z.eqb_neq in H. rewrite H. reflexivity.
  - intros auth st1 r st2 Hargs Hauth Hrun.
    apply Z.eqb_eq in Hargs. rewrite Hargs, Hauth, Hrun. cbn [negb].
    destruct r; reflexivity.
  - intros s st1 Hargs Hauth.
    apply Z.eqb_eq in Hargs. rewrite Hargs, Hauth. reflexivity.
  - destruct (negb (len args =? 1)).
    { right. right. cbn [fst snd initState trace]. split; [left; reflexivity | constructor]. }
    destruct (authDestCfg_cases w g) as [(auth & p & -> & Hp) | (e & ->)].
    2:{ right. left. cbn [fst]. eauto. }
    unfold makeMirror, call. cbn [vars trace].
    destruct (makeMirrorBody w _) as [[u|[e|c e|m]] st1] eqn:Hb; cbn [fst snd].
    + right. left. eauto.
    + right. left. eauto.
    + apply makeMirrorBody_exit in Hb as (-> & -> & ->).
      right. right. split; [right; reflexivity|]. cbn [trace].
      apply Forall_app. split; [destruct Hp as [-> | ->]|]; repeat constructor.
    + apply makeMirrorBody_fatal in Hb. cbn in Hb. subst m. left. reflexivity.
Qed.

(** X13 with no argument at all, and on a run whose base synchronisation
    ends with the error 7 of the source: [makeMirror] returns that error
    and the command exits with it and [ExitError]. *)
Lemma command_never_returns_witness :
  runCommand (sourceA []) defaultFlags []
  = (Halt (Exit ExitBadArgs
             (Some (ErrNew "make-mirror takes one destination argument"))),
     initState defaultFlags) /\
  fst (makeMirror sourceFailing
         (mkState (flagsAB 128 0) 0
            [EvMustClient "10.0.0.2:2379" None; EvMustClientFromCmd]))
  = Next (Some (ErrExternal 7)) /\
  fst (runCommand sourceFailing (flagsAB 128 0) oneArg)
  = Halt (Exit ExitError (Some (ErrExternal 7))).
Proof.
  split; [|split].
  - apply (proj1 (command_never_returns (sourceA []) defaultFlags [])). discriminate.
  - vm_compute. reflexivity.
  - rewrite (proj1 (proj2 (command_never_returns sourceFailing (flagsAB 128 0) oneArg))
               None (initState (flagsAB 128 0))
               (Next (Some (ErrExternal 7)))
               (snd (makeMirror sourceFailing
                       (mkState (flagsAB 128 0) 0
                          [EvMustClient "10.0.0.2:2379" None; EvMustClientFromCmd])))).
    + reflexivity.
    + reflexivity.
    + reflexivity.
    + vm_compute. reflexivity.
Defined.

(* ------------------------------------------------------------------ *)
(** ** A run that ends without error has mirrored everything *)

Lemma beforeWatch_complete (w : World) (st : State) :
  putsOf (trace st) = [] ->
  fst (beforeWatch w st) = Next tt ->
  startRevOf (vars st) = 0 ->
  putsOf (trace (snd (beforeWatch w st)))
  = map (putOf (vars (snd (beforeWatch w st)))) (allKvs (baseChunks w)).
Proof.
  intros H0. rewrite beforeWatch_eq.
  destruct (mmnodestprefix (vars st) && (str_len (mmdestprefix (vars st)) >? 0));
    [discriminate|].
  intros Hn Hs. revert Hn. rewrite Hs. cbn [Z.eqb].
  match goal with |- context [snapshotLoop w ?ch ?st1] =>
    destruct (snapshotLoop_prefix w ch st1) as (Hv & k & _ & Hp & Hk) end.
  cbn [vars trace] in Hv, Hp. rewrite putsOf_app, H0 in Hp. cbn [putsOf app] in Hp.
  destruct (snapshotLoop w (baseChunks w) _) as [[[]|s] st2]; cbn [fst snd] in *;
    [|discriminate].
  destruct (baseErr w); [discriminate|]. intros _.
  cbn [snd logged vars trace]. rewrite putsOf_app, Hp, Hv, app_nil_r.
  rewrite (Hk eq_refl), <- (List.length_map (putOf (defaulted (vars st)))).
  apply firstn_all.
Qed.

(** X14: when [makeMirror] returns nil, nothing was refused and nothing is
    left out: the operations of the accepted transactions, in commit order,
    are the operations of all events of all watch responses in their order,
    and, if the run began with the base synchronisation, the Puts are those
    of all pairs of all chunks in their order. *)
Theorem normal_end_is_complete
        (w : World) (g : Globals)
        (Hend : fst (runMirror w g) = Next None) :
  unrefused (trace (snd (runMirror w g))) /\
  List.concat (committedOf (trace (snd (runMirror w g))))
  = allOps (vars (snd (runMirror w g))) (watchResponses w) /\
  (startRevOf g = 0 ->
   putsOf (trace (snd (runMirror w g)))
   = map (putOf (vars (snd (runMirror w g)))) (allKvs (baseChunks w))).
Proof.
  revert Hend. unfold runMirror, makeMirror, call, initState. cbn [vars trace].
  set (st0 := mkState g 0 []).
  pose proof (failfast_makeMirrorBody w st0 (Forall_nil _)) as Hff.
  pose proof (makeMirrorBody_fatal w st0) as Hfatal.
  rewrite makeMirrorBody_split in *. unfold bind in *.
  pose proof (beforeWatch_complete w st0 eq_refl) as Hputs.
  destruct (beforeWatch_no_txn w st0 eq_refl) as (Htx & _).
  destruct (beforeWatch w st0) as [[[]|s] st1]; cbn [fst snd] in *.
  - destruct (watchLoop_extends w (watchResponses w) st1) as (seg & Hseg & Hall).
    destruct (watchLoop_attempted w (watchResponses w) st1) as (Hv & _).
    destruct (watchLoop_order w (watchResponses w) st1) as (P & rest & HP & HPr & Hn).
    destruct (watchLoop w (watchResponses w) st1) as [[[]|s] st2]; cbn [fst snd] in *.
    + intros _. split; [exact Hff|]. split.
      * rewrite HP, (committedOf_no_txn _ Htx), Hv. cbn [List.concat app].
        rewrite <- HPr, (Hn eq_refl), app_nil_r. reflexivity.
      * intros Hs. rewrite Hseg, putsOf_app, (putsOf_no_snapshot seg Hall), app_nil_r, Hv.
        apply Hputs; [reflexivity | exact Hs].
    + specialize (Hfatal s st2 eq_refl).
      destruct s as [[e|]|c e|m]; try discriminate. destruct Hfatal.
  - specialize (Hfatal s st1 eq_refl).
    destruct s as [[e|]|c e|m]; try discriminate. destruct Hfatal.
Qed.

(** X14 on a run that copies one pair and five events. *)
Lemma normal_end_is_complete_witness :
  List.concat (committedOf (trace (snd (runMirror (sourceA [watchMixed]) (flagsAB 2 0)))))
  = [OpDelete "/b/0"; OpPut "/b/1" "x"; OpPut "/b/2" "y"; OpDelete "/b/3";
     OpPut "/b/4" "z"] /\
  putsOf (trace (snd (runMirror (sourceA [watchMixed]) (flagsAB 2 0))))
  = [("/b/0"%string, "v0"%string)].
Proof.
  destruct (normal_end_is_complete (sourceA [watchMixed]) (flagsAB 2 0))
    as (_ & H2 & H3).
  - vm_compute. reflexivity.
  - split.
    + rewrite H2. vm_compute. reflexivity.
    + rewrite H3 by reflexivity. vm_compute. reflexivity.
Defined.
